(** * Exam timetable generator: scheduler and hall allocator

    A shallow embedding of [backend/app/core] (types.py, exceptions.py,
    utils.py, scheduler.py) and of the request handling of
    [backend/app/api] (schemas.py, routes.py), and the properties of the
    backtracking scheduler, of the greedy hall allocator and of the
    routes.

    Conventions of the embedding.
    - A Python [int] that counts students or seats is a [Z]; day and slot
      indices, which the code only draws from [range], are [nat].
    - A [dict] is an association list in insertion order with unique keys
      ([dict_get], [dict_set], [dict_del]).
    - A [set] of subjects is a list without repetition that records its
      elements in the order they were added ([set_add]); this list is
      not the order in which the interpreter walks the set.  That order
      depends on the hashes of the strings, which change from one process
      to the next: wherever the code walks a set of subjects, the model
      walks [iter_set] of its list, an unknown rearrangement.
    - A raised exception is the [Raise] branch of [result]; the payload of
      an exception keeps the data its message and diagnostics are built from.
    - The module-level [random] generator is a state of an abstract type,
      threaded explicitly.
    - A call returns what its body computes: the limits of the interpreter
      (recursion depth, memory) are not part of the model. *)

From Stdlib Require Import String List ZArith Lia Bool Arith Permutation Sorted.
Import ListNotations.

Set Implicit Arguments.

(** ** Data model (types.py) *)

Definition Subject := string.
Definition Slot := (nat * nat)%type.

Record StudentGroup := mkStudentGroup {
  group_name : string;
  group_subjects : list Subject;
  group_size : Z }.

Record TimetableConfig := mkTimetableConfig {
  days : nat;
  slots_per_day : nat;
  subjects : list Subject;
  groups : list StudentGroup;
  random_seed : option Z }.

Definition total_slots (config : TimetableConfig) : nat :=
  days config * slots_per_day config.

Record ExamSlot := mkExamSlot {
  day : nat;
  slot : nat;
  subject : Subject }.

Record TimetableResult := mkTimetableResult {
  assignments : list ExamSlot;
  tt_config : TimetableConfig }.

Record Hall := mkHall {
  name : string;
  capacity : Z }.

Record HallConfig := mkHallConfig {
  halls : list Hall;
  per_subject_limit : Z }.

Definition total_capacity (hc : HallConfig) : Z :=
  fold_right Z.add 0%Z (map capacity (halls hc)).

Record HallAssignment := mkHallAssignment {
  hall_name : string;
  ha_day : nat;
  ha_slot : nat;
  allocations : list (Subject * Z) }.

Record HallAllocationResult := mkHallAllocationResult {
  hall_assignments : list HallAssignment;
  timetable : TimetableResult;
  hall_config : HallConfig }.

(** [TimetableResult.get_assignment]: the first entry at (day, slot). *)
Definition get_assignment (t : TimetableResult) (d s : nat)
  : option Subject :=
  match find (fun a => Nat.eqb (day a) d && Nat.eqb (slot a) s)
             (assignments t) with
  | Some a => Some (subject a)
  | None => None
  end.

(** [TimetableResult.get_subject_slot]: the first entry of the subject. *)
Definition get_subject_slot (t : TimetableResult) (x : Subject)
  : option Slot :=
  match find (fun a => String.eqb (subject a) x) (assignments t) with
  | Some a => Some (day a, slot a)
  | None => None
  end.

(** The [__post_init__] checks of the dataclasses, as boolean predicates:
    an object for which the check fails is never constructed
    (the constructor raises [ValueError]). *)

Definition is_empty {A} (l : list A) : bool :=
  match l with [] => true | _ => false end.

Definition StudentGroup_post_init (g : StudentGroup) : bool :=
  (0 <? group_size g)%Z && negb (is_empty (group_subjects g)).

Definition TimetableConfig_post_init (c : TimetableConfig) : bool :=
  (0 <? days c) && (0 <? slots_per_day c)
  && negb (is_empty (subjects c)) && negb (is_empty (groups c))
  && (length (subjects c) =? length (nodup string_dec (subjects c))).

Definition Hall_post_init (h : Hall) : bool := (0 <? capacity h)%Z.

Definition HallConfig_post_init (hc : HallConfig) : bool :=
  negb (is_empty (halls hc)) && (0 <? per_subject_limit hc)%Z.

(** A configuration that the constructors accept. *)
Definition valid_TimetableConfig (c : TimetableConfig) : bool :=
  TimetableConfig_post_init c && forallb StudentGroup_post_init (groups c).

Definition valid_HallConfig (hc : HallConfig) : bool :=
  HallConfig_post_init hc && forallb Hall_post_init (halls hc).

(** ** Exceptions (exceptions.py) *)

Inductive exn_class :=
| SchedulerError
| NoSolutionError
| InsufficientSlotsError
| ConflictError
| HallAllocationError
| InsufficientHallCapacityError
| ValidationError
| KeyError.

(** The direct base class inside the scheduler's hierarchy. *)
Definition base_class (c : exn_class) : option exn_class :=
  match c with
  | SchedulerError => None
  | NoSolutionError => Some SchedulerError
  | InsufficientSlotsError => Some NoSolutionError
  | ConflictError => Some NoSolutionError
  | HallAllocationError => Some SchedulerError
  | InsufficientHallCapacityError => Some HallAllocationError
  | ValidationError => Some SchedulerError
  | KeyError => None
  end.

Definition exn_class_eqb (a b : exn_class) : bool :=
  match a, b with
  | SchedulerError, SchedulerError | NoSolutionError, NoSolutionError
  | InsufficientSlotsError, InsufficientSlotsError
  | ConflictError, ConflictError | HallAllocationError, HallAllocationError
  | InsufficientHallCapacityError, InsufficientHallCapacityError
  | ValidationError, ValidationError | KeyError, KeyError => true
  | _, _ => false
  end.

(** [isinstance(e, c)] for an exception of class [a]: the hierarchy has
    depth three. *)
Definition isinstance (a c : exn_class) : bool :=
  exn_class_eqb a c
  || match base_class a with
     | None => false
     | Some b =>
         exn_class_eqb b c
         || match base_class b with
            | None => false
            | Some b' => exn_class_eqb b' c
            end
     end.

(** One entry of the [errors] list of [validate_config]; each constructor
    stands for one of the three f-strings and keeps its arguments. *)
Inductive validation_error :=
| err_insufficient_slots (n_subjects n_slots : nat)
| err_not_in_any_group (s : Subject)
| err_not_in_subject_list (s : Subject).

(** The message of an exception, by the literal that builds it. *)
Inductive message :=
| msg_invalid_configuration
| msg_cannot_fit (n_subjects n_slots : nat)
| msg_exhaustive_search
| msg_hall_capacity (day_shown slot_shown : nat)
| msg_key (k : Subject).

(** The second constructor argument of an exception: its diagnostics map,
    one constructor per set of keys that the code builds. *)
Inductive diagnostics :=
| diag_validation (validation_errors : list validation_error)
| diag_slots (subjects_count total_slots_ : nat) (deficit : Z)
| diag_search (backtrack_attempts n_subjects : nat)
              (conflicts_ : list (Subject * list Subject))
| diag_halls (remaining_students total_capacity_ : Z)
             (subjects_ : list (Subject * Z))
| diag_empty.

Record exn := mkExn {
  exn_kind : exn_class;
  exn_message : message;
  exn_diagnostics : diagnostics }.

Inductive result (A : Type) :=
| Ok (a : A)
| Raise (e : exn).

Arguments Ok {A} a.
Arguments Raise {A} e.

(** ** Dictionaries and sets *)

Section Dict.
Variable V : Type.

Fixpoint dict_get (k : Subject) (d : list (Subject * V)) : option V :=
  match d with
  | [] => None
  | (k', v) :: d' => if String.eqb k k' then Some v else dict_get k d'
  end.

(** [d[k] = v]: an existing key keeps its position, a new key goes last. *)
Fixpoint dict_set (k : Subject) (v : V) (d : list (Subject * V))
  : list (Subject * V) :=
  match d with
  | [] => [(k, v)]
  | (k', v') :: d' =>
      if String.eqb k k' then (k, v) :: d' else (k', v') :: dict_set k v d'
  end.

(** [del d[k]]: [None] stands for the [KeyError] of an absent key. *)
Fixpoint dict_del (k : Subject) (d : list (Subject * V))
  : option (list (Subject * V)) :=
  match d with
  | [] => None
  | (k', v') :: d' =>
      if String.eqb k k' then Some d'
      else option_map (cons (k', v')) (dict_del k d')
  end.

Definition dict_mem (k : Subject) (d : list (Subject * V)) : bool :=
  match dict_get k d with Some _ => true | None => false end.

Definition keys (d : list (Subject * V)) : list Subject := map fst d.
End Dict.

Definition mem (x : Subject) (s : list Subject) : bool :=
  existsb (String.eqb x) s.

(** [s.add(x)]: the elements of the set, in the order they were added. *)
Definition set_add (x : Subject) (s : list Subject) : list Subject :=
  if mem x s then s else s ++ [x].

Definition slot_eqb (a b : Slot) : bool :=
  (fst a =? fst b) && (snd a =? snd b).

(** [sorted(l, key=key, reverse=True)]: stable, so elements of equal key
    keep the order they have in [l]. *)
Section Sorted.
Variable A : Type.
Variable key : A -> Z.

Fixpoint insert_desc (x : A) (l : list A) : list A :=
  match l with
  | [] => [x]
  | y :: l' =>
      if (key x <? key y)%Z then y :: insert_desc x l' else x :: l
  end.

Definition sorted_reverse (l : list A) : list A :=
  fold_right insert_desc [] l.
End Sorted.

(** ** utils.py *)

(** [build_conflict_graph]: the three nested loops as nested folds. *)
Definition add_conflicts (group : StudentGroup)
    (conflicts : list (Subject * list Subject)) (subject : Subject)
  : list (Subject * list Subject) :=
  let conflicts :=
    if dict_mem subject conflicts then conflicts
    else dict_set subject [] conflicts in
  fold_left
    (fun conflicts other_subject =>
       if negb (String.eqb other_subject subject) then
         match dict_get subject conflicts with
         | Some s => dict_set subject (set_add other_subject s) conflicts
         | None => conflicts
         end
       else conflicts)
    (group_subjects group) conflicts.

Definition build_conflict_graph (groups : list StudentGroup)
  : list (Subject * list Subject) :=
  fold_left
    (fun conflicts group =>
       fold_left (add_conflicts group) (group_subjects group) conflicts)
    groups [].

(** [conflicts.get(subject, set())] *)
Definition conflicts_get (subject : Subject)
    (conflicts : list (Subject * list Subject)) : list Subject :=
  match dict_get subject conflicts with
  | Some s => s
  | None => []
  end.

Definition count_conflicts (subject : Subject)
    (conflicts : list (Subject * list Subject)) : nat :=
  length (conflicts_get subject conflicts).

(** [all_group_subjects] of [validate_config]: [set.update] per group. *)
Definition all_group_subjects (groups : list StudentGroup) : list Subject :=
  fold_left
    (fun acc group => fold_left (fun acc s => set_add s acc)
                                (group_subjects group) acc)
    groups [].

(** [iter_set] is the order in which the running interpreter walks a set
    of subjects, given the order in which its elements were added; the
    third loop walks the set [all_group_subjects]. *)
Definition validate_config (iter_set : list Subject -> list Subject)
    (config : TimetableConfig) : bool * list validation_error :=
  let errors :=
    if total_slots config <? length (subjects config)
    then [err_insufficient_slots (length (subjects config))
                                 (total_slots config)]
    else [] in
  let ags := all_group_subjects (groups config) in
  let errors :=
    errors ++ map err_not_in_any_group
                  (filter (fun s => negb (mem s ags)) (subjects config)) in
  let errors :=
    errors ++ map err_not_in_subject_list
                  (filter (fun s => negb (mem s (subjects config)))
                          (iter_set ags)) in
  (length errors =? 0, errors).

(** [get_subjects_in_slot]: the set [{subject}] plus every assigned subject
    of the slot. *)
Definition get_subjects_in_slot (groups : list StudentGroup)
    (subject : Subject) (day slot : nat)
    (current_assignment : list (Subject * Slot)) : list Subject :=
  fold_left
    (fun acc kv =>
       if slot_eqb (snd kv) (day, slot) then set_add (fst kv) acc else acc)
    current_assignment [subject].

Definition check_group_conflicts (groups : list StudentGroup)
    (subjects_in_slot : list Subject) : bool :=
  existsb
    (fun group =>
       1 <? length (filter (fun s => mem s subjects_in_slot)
                           (group_subjects group)))
    groups.

(** ** scheduler.py: [TimetableScheduler] *)

Definition all_slots (config : TimetableConfig) : list Slot :=
  flat_map (fun day => map (fun slot => (day, slot))
                           (seq 0 (slots_per_day config)))
           (seq 0 (days config)).

(** [set.remove] on a domain. *)
Definition domain_remove (x : Slot) (dom : list Slot) : list Slot :=
  filter (fun y => negb (slot_eqb y x)) dom.

Definition key_error (k : Subject) : exn :=
  mkExn KeyError (msg_key k) diag_empty.

Section Scheduler.
(** The state of the process-wide generator of the [random] module,
    [random.seed(n)], and [random.shuffle] applied to the list
    materialised from a domain.  A shuffle is some rearrangement of its
    argument; which one depends on the generator state only. *)
Variable RNG : Type.
Variable seed : Z -> RNG.
Variable shuffle : RNG -> list Slot -> list Slot * RNG.

(** The order in which the running interpreter walks a set of subjects,
    given the order in which its elements were added.  It is the same
    for the whole run and may be another one in the next run. *)
Variable iter_set : list Subject -> list Subject.

(** The scheduler object; [rng] is the generator state the solve reads
    and advances. *)
Record TimetableScheduler := mkScheduler {
  config : TimetableConfig;
  conflicts : list (Subject * list Subject);
  assignment : list (Subject * Slot);
  domains : list (Subject * list Slot);
  backtrack_count : nat;
  rng : RNG }.

Definition set_assignment (a : list (Subject * Slot))
    (self : TimetableScheduler) : TimetableScheduler :=
  mkScheduler (config self) (conflicts self) a (domains self)
              (backtrack_count self) (rng self).

Definition set_domains (d : list (Subject * list Slot))
    (self : TimetableScheduler) : TimetableScheduler :=
  mkScheduler (config self) (conflicts self) (assignment self) d
              (backtrack_count self) (rng self).

Definition set_rng (g : RNG) (self : TimetableScheduler)
  : TimetableScheduler :=
  mkScheduler (config self) (conflicts self) (assignment self)
              (domains self) (backtrack_count self) g.

Definition count_backtrack (self : TimetableScheduler)
  : TimetableScheduler :=
  mkScheduler (config self) (conflicts self) (assignment self)
              (domains self) (S (backtrack_count self)) (rng self).

(** [__init__]: [g] is the state of the generator when the scheduler is
    built. *)
Definition TimetableScheduler_init (config : TimetableConfig) (g : RNG)
  : TimetableScheduler :=
  mkScheduler config (build_conflict_graph (groups config)) [] [] 0
              (match random_seed config with
               | Some n => seed n
               | None => g
               end).

Definition _is_consistent (self : TimetableScheduler)
    (subject : Subject) (day slot : nat) : bool :=
  if existsb (fun kv => slot_eqb (snd kv) (day, slot)) (assignment self)
  then false
  else
    let subjects_in_slot :=
      get_subjects_in_slot (groups (config self)) subject day slot
                           (assignment self) in
    negb (check_group_conflicts (groups (config self)) subjects_in_slot).

(** The loop of [_forward_check] over the neighbours [cs] of the subject
    just assigned, in the order in which they are walked. *)
Fixpoint forward_check_loop (cs : list Subject) (day slot : nat)
    (self : TimetableScheduler) : result bool * TimetableScheduler :=
  match cs with
  | [] => (Ok true, self)
  | conflicting_subject :: cs' =>
      if dict_mem conflicting_subject (assignment self)
      then forward_check_loop cs' day slot self
      else
        match dict_get conflicting_subject (domains self) with
        | None => (Raise (key_error conflicting_subject), self)
        | Some dom =>
            let dom' :=
              if existsb (slot_eqb (day, slot)) dom
              then domain_remove (day, slot) dom else dom in
            let self :=
              set_domains (dict_set conflicting_subject dom' (domains self))
                          self in
            if is_empty dom' then (Ok false, self)
            else forward_check_loop cs' day slot self
        end
  end.

Definition _forward_check (self : TimetableScheduler)
    (subject : Subject) (day slot : nat)
  : result bool * TimetableScheduler :=
  forward_check_loop (iter_set (conflicts_get subject (conflicts self)))
                     day slot self.

(** [_save_domains] copies every domain; values are immutable here, so the
    copy is the dictionary itself. *)
Definition _save_domains (self : TimetableScheduler)
  : list (Subject * list Slot) :=
  domains self.

Definition _restore_domains (self : TimetableScheduler)
    (saved_domains : list (Subject * list Slot)) : TimetableScheduler :=
  set_domains saved_domains self.

(** The [for day, slot in possible_slots] loop of [_backtrack]; [next] is
    the recursive call [self._backtrack(subjects, index + 1)]. *)
Fixpoint try_slots
    (next : TimetableScheduler -> result bool * TimetableScheduler)
    (subject : Subject) (possible_slots : list Slot)
    (self : TimetableScheduler) : result bool * TimetableScheduler :=
  match possible_slots with
  | [] => (Ok false, self)
  | (day, slot) :: rest =>
      if _is_consistent self subject day slot then
        let self :=
          set_assignment (dict_set subject (day, slot) (assignment self))
                         self in
        let saved_domains := _save_domains self in
        match _forward_check self subject day slot with
        | (Raise e, self) => (Raise e, self)
        | (Ok checked, self) =>
            match (if checked then next self else (Ok false, self)) with
            | (Raise e, self) => (Raise e, self)
            | (Ok true, self) => (Ok true, self)
            | (Ok false, self) =>
                match dict_del subject (assignment self) with
                | None => (Raise (key_error subject), self)
                | Some a =>
                    try_slots next subject rest
                              (_restore_domains (set_assignment a self)
                                                saved_domains)
                end
            end
        end
      else try_slots next subject rest self
  end.

(** [_backtrack(subjects, index)] with [pending = subjects[index:]]: the
    call at [index + 1] is the call on the tail of [pending]. *)
Fixpoint _backtrack_from (pending : list Subject)
    (self : TimetableScheduler) : result bool * TimetableScheduler :=
  let self := count_backtrack self in
  match pending with
  | [] => (Ok true, self)
  | subject :: pending' =>
      match dict_get subject (domains self) with
      | None => (Raise (key_error subject), self)
      | Some dom =>
          let (possible_slots, g) := shuffle (rng self) dom in
          try_slots (_backtrack_from pending') subject possible_slots
                    (set_rng g self)
      end
  end.

Definition _backtrack (self : TimetableScheduler)
    (subjects : list Subject) (index : nat)
  : result bool * TimetableScheduler :=
  _backtrack_from (skipn index subjects) self.

Definition conflict_degree (self : TimetableScheduler) (s : Subject) : Z :=
  Z.of_nat (count_conflicts s (conflicts self)).

(** The order in which the search takes the subjects. *)
Definition variable_order (self : TimetableScheduler) : list Subject :=
  sorted_reverse (conflict_degree self) (subjects (config self)).

Definition exam_slots (a : list (Subject * Slot)) : list ExamSlot :=
  map (fun kv => mkExamSlot (fst (snd kv)) (snd (snd kv)) (fst kv)) a.

Definition TimetableScheduler_generate_timetable
    (self : TimetableScheduler)
  : result TimetableResult * TimetableScheduler :=
  let (is_valid, errors) := validate_config iter_set (config self) in
  if negb is_valid then
    (Raise (mkExn NoSolutionError msg_invalid_configuration
                  (diag_validation errors)), self)
  else if total_slots (config self) <? length (subjects (config self)) then
    (Raise (mkExn InsufficientSlotsError
              (msg_cannot_fit (length (subjects (config self)))
                              (total_slots (config self)))
              (diag_slots (length (subjects (config self)))
                          (total_slots (config self))
                          (Z.of_nat (length (subjects (config self)))
                           - Z.of_nat (total_slots (config self))))),
     self)
  else
    let self :=
      set_domains
        (fold_left (fun d subject =>
                      dict_set subject (all_slots (config self)) d)
                   (subjects (config self)) (domains self))
        self in
    let subjects_ := variable_order self in
    match _backtrack self subjects_ 0 with
    | (Raise e, self) => (Raise e, self)
    | (Ok false, self) =>
        (Raise (mkExn NoSolutionError msg_exhaustive_search
                  (diag_search
                     (backtrack_count self)
                     (length (subjects (config self)))
                     (fold_left
                        (fun d s =>
                           dict_set
                             s (iter_set (conflicts_get s (conflicts self)))
                             d)
                        (subjects (config self)) []))),
         self)
    | (Ok true, self) =>
        (Ok (mkTimetableResult (exam_slots (assignment self))
                               (config self)), self)
    end.

(** The module-level entry point; [g] is the generator state on entry. *)
Definition generate_timetable (config : TimetableConfig) (g : RNG)
  : result TimetableResult * TimetableScheduler :=
  TimetableScheduler_generate_timetable (TimetableScheduler_init config g).

End Scheduler.

(** ** scheduler.py: [HallAllocator] *)

Record HallAllocator := mkHallAllocator {
  alloc_timetable : TimetableResult;
  alloc_hall_config : HallConfig;
  alloc_groups : list StudentGroup }.

Definition HallAllocator_init (timetable : TimetableResult)
    (hall_config : HallConfig) : HallAllocator :=
  mkHallAllocator timetable hall_config (groups (tt_config timetable)).

(** [count > 0] on an item of [remaining]. *)
Definition has_students (kv : Subject * Z) : bool := (0 <? snd kv)%Z.

(** [sum(remaining.values())] *)
Definition sum_values (d : list (Subject * Z)) : Z :=
  fold_right Z.add 0%Z (map snd d).

(** [d[k] += n] on a [defaultdict(int)]. *)
Definition defaultdict_add (k : Subject) (n : Z) (d : list (Subject * Z))
  : list (Subject * Z) :=
  match dict_get k d with
  | Some v => dict_set k (v + n)%Z d
  | None => dict_set k (0 + n)%Z d
  end.

(** [d[k] -= n] on a key of [d]; the allocator only applies it to keys it
    has just read from [d.items()]. *)
Definition dict_sub (k : Subject) (n : Z) (d : list (Subject * Z))
  : list (Subject * Z) :=
  match dict_get k d with
  | Some v => dict_set k (v - n)%Z d
  | None => d
  end.

Definition subjects_in_slot_of (timetable : TimetableResult)
    (d s : nat) : list Subject :=
  map subject
      (filter (fun a => (day a =? d) && (slot a =? s))
              (assignments timetable)).

Definition subject_students_of (groups : list StudentGroup)
    (subjects_in_slot : list Subject) : list (Subject * Z) :=
  fold_left
    (fun acc group =>
       fold_left
         (fun acc subject =>
            if mem subject (group_subjects group)
            then defaultdict_add subject (group_size group) acc
            else acc)
         subjects_in_slot acc)
    groups [].

Section GreedyAllocate.
Variable self : HallAllocator.

(** The amount given to one subject of the hall being filled. *)
Definition allocate_amount_of (remaining : list (Subject * Z))
    (hall : Hall) (hall_capacity_used count : Z) : Z :=
  let available_in_hall := (capacity hall - hall_capacity_used)%Z in
  let allocate_amount :=
    Z.min count
          (Z.min (per_subject_limit (alloc_hall_config self))
                 available_in_hall) in
  if length (filter has_students remaining) =? 1
  then Z.min count available_in_hall
  else allocate_amount.

(** The [for subject, count in subjects_with_students] loop; returns the
    hall's allocation list and the updated [remaining]. *)
Fixpoint fill_hall (hall : Hall)
    (subjects_with_students : list (Subject * Z))
    (remaining hall_allocation : list (Subject * Z))
    (hall_capacity_used : Z)
  : list (Subject * Z) * list (Subject * Z) :=
  match subjects_with_students with
  | [] => (hall_allocation, remaining)
  | (subject, count) :: rest =>
      if (capacity hall <=? hall_capacity_used)%Z
      then (hall_allocation, remaining)
      else
        let allocate_amount :=
          allocate_amount_of remaining hall hall_capacity_used count in
        if (0 <? allocate_amount)%Z then
          fill_hall hall rest
                    (dict_sub subject allocate_amount remaining)
                    (hall_allocation ++ [(subject, allocate_amount)])
                    (hall_capacity_used + allocate_amount)%Z
        else fill_hall hall rest remaining hall_allocation
                       hall_capacity_used
  end.

(** [subjects_with_students], sorted by descending remaining count. *)
Definition subjects_with_students_of (remaining : list (Subject * Z))
  : list (Subject * Z) :=
  sorted_reverse snd (filter has_students remaining).

(** The [while] loop; [pending_halls] is [sorted_halls[hall_index:]]. *)
Fixpoint greedy_loop (d s : nat) (pending_halls : list Hall)
    (remaining : list (Subject * Z)) (allocations : list HallAssignment)
  : result (list HallAssignment) :=
  if existsb has_students remaining then
    match pending_halls with
    | [] =>
        Raise (mkExn InsufficientHallCapacityError
                     (msg_hall_capacity (d + 1) (s + 1))
                     (diag_halls (sum_values remaining)
                                 (total_capacity (alloc_hall_config self))
                                 remaining))
    | hall :: pending_halls' =>
        let (hall_allocation, remaining') :=
          fill_hall hall (subjects_with_students_of remaining)
                    remaining [] 0%Z in
        let allocations :=
          if is_empty hall_allocation then allocations
          else allocations
               ++ [mkHallAssignment (name hall) d s hall_allocation] in
        greedy_loop d s pending_halls' remaining' allocations
    end
  else Ok allocations.

Definition sorted_halls : list Hall :=
  sorted_reverse capacity (halls (alloc_hall_config self)).

Definition _greedy_allocate (subject_students : list (Subject * Z))
    (d s : nat) : result (list HallAssignment) :=
  greedy_loop d s sorted_halls subject_students [].

Definition _allocate_slot (d s : nat) : result (list HallAssignment) :=
  let subjects_in_slot := subjects_in_slot_of (alloc_timetable self) d s in
  if is_empty subjects_in_slot then Ok []
  else
    _greedy_allocate
      (subject_students_of (alloc_groups self) subjects_in_slot) d s.

(** The two nested [range] loops of [allocate_halls], over the slots in
    day-major order. *)
Fixpoint allocate_loop (slots : list Slot)
    (assignments : list HallAssignment) : result (list HallAssignment) :=
  match slots with
  | [] => Ok assignments
  | (d, s) :: rest =>
      match _allocate_slot d s with
      | Raise e => Raise e
      | Ok slot_assignments =>
          allocate_loop rest (assignments ++ slot_assignments)
      end
  end.

Definition HallAllocator_allocate_halls : result HallAllocationResult :=
  match allocate_loop (all_slots (tt_config (alloc_timetable self))) [] with
  | Raise e => Raise e
  | Ok assignments =>
      Ok (mkHallAllocationResult assignments (alloc_timetable self)
                                 (alloc_hall_config self))
  end.
End GreedyAllocate.

Definition allocate_halls (timetable : TimetableResult)
    (hall_config : HallConfig) : result HallAllocationResult :=
  HallAllocator_allocate_halls (HallAllocator_init timetable hall_config).

(** The same configuration built with another [random_seed] argument. *)
Definition with_random_seed (c : TimetableConfig) (n : option Z)
  : TimetableConfig :=
  mkTimetableConfig (days c) (slots_per_day c) (subjects c) (groups c) n.

(** ** The external view (types.py [to_dict], routes.py) *)

(** One entry of the ["assignments"] list of [TimetableResult.to_dict]. *)
Record ExamSlotView := mkExamSlotView {
  view_day : nat;
  view_slot : nat;
  view_subject : Subject }.

Record TimetableView := mkTimetableView {
  view_days : nat;
  view_slots_per_day : nat;
  view_assignments : list ExamSlotView }.

Record HallAssignmentView := mkHallAssignmentView {
  view_hall : string;
  view_hall_day : nat;
  view_hall_slot : nat;
  view_allocations : list (Subject * Z) }.

Record HallAllocationView := mkHallAllocationView {
  view_timetable : TimetableView;
  view_hall_allocations : list HallAssignmentView }.

Definition TimetableResult_to_dict (t : TimetableResult) : TimetableView :=
  mkTimetableView
    (days (tt_config t)) (slots_per_day (tt_config t))
    (map (fun a => mkExamSlotView (day a + 1) (slot a + 1) (subject a))
         (assignments t)).

Definition HallAllocationResult_to_dict (r : HallAllocationResult)
  : HallAllocationView :=
  mkHallAllocationView
    (TimetableResult_to_dict (timetable r))
    (map (fun a => mkHallAssignmentView (hall_name a) (ha_day a + 1)
                                        (ha_slot a + 1) (allocations a))
         (hall_assignments r)).

Section Pipeline.
Variable RNG : Type.
Variable seed : Z -> RNG.
Variable shuffle : RNG -> list Slot -> list Slot * RNG.
Variable iter_set : list Subject -> list Subject.

(** The solve of [generate_schedule] (routes.py) on objects already
    built: the timetable, then the halls, then the external view. *)
Definition generate_schedule (timetable_config : TimetableConfig)
    (hall_config : HallConfig) (g : RNG) : result HallAllocationView :=
  match fst (generate_timetable seed shuffle iter_set timetable_config g) with
  | Raise e => Raise e
  | Ok timetable =>
      match allocate_halls timetable hall_config with
      | Raise e => Raise e
      | Ok hall_allocation => Ok (HallAllocationResult_to_dict hall_allocation)
      end
  end.
End Pipeline.

(** ** The HTTP layer (api/schemas.py, api/routes.py)

    A parsed request body has the fields of the dataclasses it is copied
    into, so the same records carry it; the schemas are their field
    constraints and validators. *)

Definition StudentGroupSchema_validate (g : StudentGroup) : bool :=
  (1 <=? String.length (group_name g))
  && (1 <=? length (group_subjects g))
  && negb (is_empty (group_subjects g))
  && (0 <? group_size g)%Z.

Definition HallSchema_validate (h : Hall) : bool :=
  (1 <=? String.length (name h)) && (0 <? capacity h)%Z.

Definition TimetableConfigSchema_validate (c : TimetableConfig) : bool :=
  (0 <? days c) && (0 <? slots_per_day c)
  && (1 <=? length (subjects c))
  && (length (subjects c) =? length (nodup string_dec (subjects c)))
  && (1 <=? length (groups c))
  && forallb StudentGroupSchema_validate (groups c).

Definition HallConfigSchema_validate (hc : HallConfig) : bool :=
  (1 <=? length (halls hc))
  && forallb HallSchema_validate (halls hc)
  && (0 <? per_subject_limit hc)%Z.

Record GenerateRequest := mkGenerateRequest {
  req_timetable_config : TimetableConfig;
  req_hall_config : HallConfig }.

Definition GenerateRequestSchema_validate (r : GenerateRequest) : bool :=
  TimetableConfigSchema_validate (req_timetable_config r)
  && HallConfigSchema_validate (req_hall_config r).

(** The [ValueError] of a dataclass constructor, by the check that
    raises it. *)
Inductive value_error :=
| ve_group_size (group : string)
| ve_group_subjects (group : string)
| ve_days
| ve_slots_per_day
| ve_no_subjects
| ve_no_groups
| ve_duplicate_subjects
| ve_hall_capacity (hall : string)
| ve_no_halls
| ve_per_subject_limit.

Definition StudentGroup_raises (g : StudentGroup) : option value_error :=
  if (group_size g <=? 0)%Z then Some (ve_group_size (group_name g))
  else if is_empty (group_subjects g)
       then Some (ve_group_subjects (group_name g))
       else None.

Definition TimetableConfig_raises (c : TimetableConfig)
  : option value_error :=
  if days c <=? 0 then Some ve_days
  else if slots_per_day c <=? 0 then Some ve_slots_per_day
  else if is_empty (subjects c) then Some ve_no_subjects
  else if is_empty (groups c) then Some ve_no_groups
  else if negb (length (subjects c)
                =? length (nodup string_dec (subjects c)))
       then Some ve_duplicate_subjects
       else None.

Definition Hall_raises (h : Hall) : option value_error :=
  if (capacity h <=? 0)%Z then Some (ve_hall_capacity (name h)) else None.

Definition HallConfig_raises (hc : HallConfig) : option value_error :=
  if is_empty (halls hc) then Some ve_no_halls
  else if (per_subject_limit hc <=? 0)%Z then Some ve_per_subject_limit
  else None.

(** A list comprehension of constructor calls: the first failure. *)
Fixpoint first_raise {A} (f : A -> option value_error) (l : list A)
  : option value_error :=
  match l with
  | [] => None
  | x :: l' =>
      match f x with
      | Some e => Some e
      | None => first_raise f l'
      end
  end.

(** The head of [generate_schedule]: groups, timetable configuration,
    halls, hall configuration, in this order. *)
Definition build_objects (request : GenerateRequest) : option value_error :=
  let tc := req_timetable_config request in
  let hc := req_hall_config request in
  match first_raise StudentGroup_raises (groups tc) with
  | Some e => Some e
  | None =>
      match TimetableConfig_raises tc with
      | Some e => Some e
      | None =>
          match first_raise Hall_raises (halls hc) with
          | Some e => Some e
          | None => HallConfig_raises hc
          end
      end
  end.

Inductive error_label :=
| Insufficient_slots
| Insufficient_hall_capacity
| No_solution_found.

(** The [detail] of an [HTTPException].  Where the code puts [str(e)],
    the exception itself is kept. *)
Inductive http_detail :=
| detail_error (error : error_label) (message_of : exn)
               (diagnostics_ : diagnostics)
| detail_str (e : exn)
| detail_value_error (e : value_error)
| detail_internal (e : exn)
| detail_group_exists (group : string)
| detail_group_not_found (group : string).

Record HTTPException := mkHTTPException {
  status_code : nat;
  detail : http_detail }.

Inductive response (A : Type) :=
| Respond (a : A)
| RaiseHTTP (h : HTTPException).

Arguments Respond {A} a.
Arguments RaiseHTTP {A} h.

(** [getattr(e, 'diagnostics', {})]: only [NoSolutionError.__init__]
    sets the attribute; the other classes keep their arguments in
    [e.args]. *)
Definition getattr_diagnostics (e : exn) : diagnostics :=
  if isinstance (exn_kind e) NoSolutionError then exn_diagnostics e
  else diag_empty.

(** The [except] clauses of [generate_schedule], in order, for the
    exceptions of the scheduler and of its dictionaries. *)
Definition handle_exception (e : exn) : HTTPException :=
  if isinstance (exn_kind e) InsufficientSlotsError then
    mkHTTPException 422 (detail_error Insufficient_slots e (exn_diagnostics e))
  else if isinstance (exn_kind e) InsufficientHallCapacityError then
    mkHTTPException 422 (detail_error Insufficient_hall_capacity e
                                      (getattr_diagnostics e))
  else if isinstance (exn_kind e) NoSolutionError then
    mkHTTPException 422 (detail_error No_solution_found e (exn_diagnostics e))
  else if isinstance (exn_kind e) SchedulerError then
    mkHTTPException 400 (detail_str e)
  else mkHTTPException 500 (detail_internal e).

(** [config_store]; the key ["last_result"] is absent until a solve
    succeeds.  A stored group is the dictionary of its three fields. *)
Record ConfigStore := mkConfigStore {
  store_subjects : list Subject;
  store_groups : list StudentGroup;
  store_days : nat;
  store_slots_per_day : nat;
  store_halls : list Hall;
  store_per_subject_limit : Z;
  store_random_seed : option Z;
  store_last_result : option HallAllocationResult }.

Definition initial_store : ConfigStore :=
  mkConfigStore [] [] 5 2 [] 30 None None.

Definition set_groups (gs : list StudentGroup) (st : ConfigStore)
  : ConfigStore :=
  mkConfigStore (store_subjects st) gs (store_days st)
                (store_slots_per_day st) (store_halls st)
                (store_per_subject_limit st) (store_random_seed st)
                (store_last_result st).

Definition set_last_result (r : HallAllocationResult) (st : ConfigStore)
  : ConfigStore :=
  mkConfigStore (store_subjects st) (store_groups st) (store_days st)
                (store_slots_per_day st) (store_halls st)
                (store_per_subject_limit st) (store_random_seed st)
                (Some r).

(** [add_group]: the response carries the message and the groups. *)
Definition add_group (request : StudentGroup) (st : ConfigStore)
  : response (string * list StudentGroup) * ConfigStore :=
  if existsb (fun group => String.eqb (group_name group) (group_name request))
             (store_groups st)
  then (RaiseHTTP (mkHTTPException
                     400 (detail_group_exists (group_name request))), st)
  else
    let st := set_groups (store_groups st ++ [request]) st in
    (Respond (group_name request, store_groups st), st).

(** [delete_group]: the filtered list is stored before the lengths are
    compared. *)
Definition delete_group (group_name_ : string) (st : ConfigStore)
  : response (string * list StudentGroup) * ConfigStore :=
  let initial_count := length (store_groups st) in
  let st :=
    set_groups (filter (fun g => negb (String.eqb (group_name g) group_name_))
                       (store_groups st)) st in
  if length (store_groups st) =? initial_count
  then (RaiseHTTP (mkHTTPException
                     404 (detail_group_not_found group_name_)), st)
  else (Respond (group_name_, store_groups st), st).

Section Routes.
Variable RNG : Type.
Variable seed : Z -> RNG.
Variable shuffle : RNG -> list Slot -> list Slot * RNG.
Variable iter_set : list Subject -> list Subject.

(** [generate_schedule] on a validated request. *)
Definition generate_schedule_route (request : GenerateRequest)
    (st : ConfigStore) (g : RNG)
  : response HallAllocationView * ConfigStore :=
  match build_objects request with
  | Some e => (RaiseHTTP (mkHTTPException 422 (detail_value_error e)), st)
  | None =>
      match fst (generate_timetable seed shuffle iter_set
                                    (req_timetable_config request) g) with
      | Raise e => (RaiseHTTP (handle_exception e), st)
      | Ok timetable =>
          match allocate_halls timetable (req_hall_config request) with
          | Raise e => (RaiseHTTP (handle_exception e), st)
          | Ok hall_allocation =>
              (Respond (HallAllocationResult_to_dict hall_allocation),
               set_last_result hall_allocation st)
          end
      end
  end.
End Routes.

(** ** A generator to run the model

    A small deterministic generator: the state is an integer, a shuffle
    rotates the list by an amount read from the state and steps the state.
    Two orders in which sets are walked: the order of insertion and its
    reverse. *)

Definition demo_seed (n : Z) : Z := n.

Definition demo_shuffle (g : Z) (l : list Slot) : list Slot * Z :=
  let k := Z.to_nat (g mod (Z.of_nat (length l) + 1)) in
  (skipn k l ++ firstn k l, ((g * 5 + 3) mod 17)%Z).

Definition demo_iter_set (l : list Subject) : list Subject := l.

Definition reversed_iter_set (l : list Subject) : list Subject := rev l.

(** * Properties *)

(** ** Stable descending sort *)

Section SortedFacts.
Variable A : Type.
Variable key : A -> Z.

(** Descending by key. *)
Definition descending (l : list A) : Prop :=
  StronglySorted (fun a b => (key b <= key a)%Z) l.

Lemma insert_desc_perm (x : A) (l : list A) :
  Permutation (insert_desc key x l) (x :: l).
Proof.
  induction l as [|y l IH]; simpl.
  - apply Permutation_refl.
  - destruct (key x <? key y)%Z.
    + eapply perm_trans; [apply perm_skip, IH | apply perm_swap].
    + apply Permutation_refl.
Qed.

Lemma sorted_reverse_perm (l : list A) :
  Permutation (sorted_reverse key l) l.
Proof.
  induction l as [|x l IH]; simpl.
  - constructor.
  - eapply perm_trans; [apply insert_desc_perm | now apply perm_skip].
Qed.

Lemma insert_desc_descending (x : A) (l : list A) :
  descending l -> descending (insert_desc key x l).
Proof.
  unfold descending.
  induction l as [|y l IH]; simpl; intros Hs.
  - repeat constructor.
  - apply StronglySorted_inv in Hs. destruct Hs as [Hs Hy].
    destruct (key x <? key y)%Z eqn:E.
    + apply Z.ltb_lt in E. constructor; [now apply IH|].
      rewrite Forall_forall in *. intros z Hz.
      apply (Permutation_in _ (insert_desc_perm x l)) in Hz.
      destruct Hz as [<-|Hz]; [lia | now apply Hy].
    + apply Z.ltb_ge in E. constructor.
      * now constructor.
      * constructor; [exact E|].
        rewrite Forall_forall in *. intros z Hz.
        specialize (Hy z Hz). lia.
Qed.

Lemma sorted_reverse_descending (l : list A) :
  descending (sorted_reverse key l).
Proof.
  induction l as [|x l IH]; simpl.
  - constructor.
  - now apply insert_desc_descending.
Qed.

(** Stability: the elements of any one key come out in input order. *)
Lemma insert_desc_stable (v : Z) (x : A) (l : list A) :
  filter (fun a => (key a =? v)%Z) (insert_desc key x l)
  = filter (fun a => (key a =? v)%Z) (x :: l).
Proof.
  induction l as [|y l IH]; [reflexivity|].
  simpl insert_desc. destruct (key x <? key y)%Z eqn:E; [|reflexivity].
  apply Z.ltb_lt in E. simpl in *. rewrite IH.
  destruct (key x =? v)%Z eqn:Ex, (key y =? v)%Z eqn:Ey; try reflexivity.
  apply Z.eqb_eq in Ex, Ey. lia.
Qed.

Lemma sorted_reverse_stable (v : Z) (l : list A) :
  filter (fun a => (key a =? v)%Z) (sorted_reverse key l)
  = filter (fun a => (key a =? v)%Z) l.
Proof.
  induction l as [|x l IH]; [reflexivity|].
  simpl sorted_reverse. rewrite insert_desc_stable.
  simpl. now rewrite IH.
Qed.

Lemma sorted_reverse_In (x : A) (l : list A) :
  In x (sorted_reverse key l) <-> In x l.
Proof.
  split; apply Permutation_in;
    [apply sorted_reverse_perm | apply Permutation_sym, sorted_reverse_perm].
Qed.

Lemma sorted_reverse_length (l : list A) :
  length (sorted_reverse key l) = length l.
Proof. apply Permutation_length, sorted_reverse_perm. Qed.
End SortedFacts.

(** ** Dictionaries *)

Lemma mem_In (x : Subject) (s : list Subject) : mem x s = true <-> In x s.
Proof.
  unfold mem. rewrite existsb_exists. split.
  - intros [y [Hy E]]. apply String.eqb_eq in E. now subst.
  - intros H. exists x. split; [exact H | apply String.eqb_refl].
Qed.

Lemma mem_false (x : Subject) (s : list Subject) :
  mem x s = false <-> ~ In x s.
Proof.
  rewrite <- mem_In. destruct (mem x s); split; congruence.
Qed.

Lemma slot_eqb_eq (a b : Slot) : slot_eqb a b = true <-> a = b.
Proof.
  destruct a as [a1 a2], b as [b1 b2]. unfold slot_eqb. simpl.
  rewrite andb_true_iff, !Nat.eqb_eq. split.
  - intros [-> ->]. reflexivity.
  - intros E. inversion E. auto.
Qed.

Lemma slot_eqb_refl (a : Slot) : slot_eqb a a = true.
Proof. now apply slot_eqb_eq. Qed.

Section DictFacts.
Variable V : Type.
Implicit Types (d : list (Subject * V)) (k : Subject) (v : V).

Lemma dict_get_In k v d : dict_get k d = Some v -> In (k, v) d.
Proof.
  induction d as [|[k' v'] d IH]; simpl; [discriminate|].
  destruct (String.eqb k k') eqn:E.
  - apply String.eqb_eq in E. intros [= ->]. subst. now left.
  - intros H. right. now apply IH.
Qed.

Lemma dict_get_None k d : dict_get k d = None <-> ~ In k (keys d).
Proof.
  induction d as [|[k' v'] d IH]; simpl.
  - tauto.
  - destruct (String.eqb k k') eqn:E.
    + apply String.eqb_eq in E. subst. split; [discriminate | tauto].
    + apply String.eqb_neq in E. rewrite IH. split.
      * intros H [H'|H']; [congruence | tauto].
      * tauto.
Qed.

Lemma dict_get_Some_key k v d : dict_get k d = Some v -> In k (keys d).
Proof.
  intros H. apply dict_get_In in H.
  unfold keys. apply in_map_iff. now exists (k, v).
Qed.

Lemma In_dict_get k v d :
  NoDup (keys d) -> In (k, v) d -> dict_get k d = Some v.
Proof.
  induction d as [|[k' v'] d IH]; simpl; [tauto|].
  intros Hnd [H|H].
  - inversion H. subst. now rewrite String.eqb_refl.
  - inversion Hnd as [|? ? Hk Hnd']. subst.
    destruct (String.eqb k k') eqn:E.
    + apply String.eqb_eq in E. subst. exfalso. apply Hk.
      unfold keys. apply in_map_iff. now exists (k', v).
    + now apply IH.
Qed.

Lemma dict_mem_In k d : dict_mem k d = true <-> In k (keys d).
Proof.
  unfold dict_mem. destruct (dict_get k d) eqn:E.
  - apply dict_get_Some_key in E. tauto.
  - apply dict_get_None in E. split; [discriminate | tauto].
Qed.

Lemma dict_get_set_eq k v d : dict_get k (dict_set k v d) = Some v.
Proof.
  induction d as [|[k' v'] d IH]; simpl.
  - now rewrite String.eqb_refl.
  - destruct (String.eqb k k') eqn:E; simpl.
    + now rewrite String.eqb_refl.
    + now rewrite E.
Qed.

Lemma dict_get_set_neq k k' v d :
  k <> k' -> dict_get k (dict_set k' v d) = dict_get k d.
Proof.
  intros Hne. induction d as [|[k0 v0] d IH]; simpl.
  - apply String.eqb_neq in Hne. now rewrite Hne.
  - destruct (String.eqb k' k0) eqn:E; simpl.
    + apply String.eqb_eq in E. subst.
      apply String.eqb_neq in Hne. now rewrite Hne.
    + now rewrite IH.
Qed.

Lemma keys_dict_set_present k v d :
  In k (keys d) -> keys (dict_set k v d) = keys d.
Proof.
  induction d as [|[k' v'] d IH]; simpl; [tauto|].
  intros H. destruct (String.eqb k k') eqn:E; simpl.
  - apply String.eqb_eq in E. now subst.
  - apply String.eqb_neq in E. f_equal. apply IH.
    destruct H; [congruence | assumption].
Qed.

Lemma dict_set_absent k v d :
  ~ In k (keys d) -> dict_set k v d = d ++ [(k, v)].
Proof.
  induction d as [|[k' v'] d IH]; simpl; [reflexivity|].
  intros H. destruct (String.eqb k k') eqn:E.
  - apply String.eqb_eq in E. subst. tauto.
  - f_equal. apply IH. tauto.
Qed.

Lemma keys_dict_set_absent k v d :
  ~ In k (keys d) -> keys (dict_set k v d) = keys d ++ [k].
Proof.
  intros H. rewrite dict_set_absent by assumption. unfold keys.
  now rewrite map_app.
Qed.

Lemma keys_dict_set_NoDup k v d :
  NoDup (keys d) -> NoDup (keys (dict_set k v d)).
Proof.
  intros H. destruct (in_dec string_dec k (keys d)) as [Hin|Hin].
  - now rewrite keys_dict_set_present.
  - rewrite keys_dict_set_absent by assumption.
    apply NoDup_rev in H. rewrite <- (rev_involutive (keys d ++ [k])).
    apply NoDup_rev. rewrite rev_app_distr. simpl. constructor.
    + now rewrite <- in_rev.
    + exact H.
Qed.

Lemma dict_del_app_last k v d :
  ~ In k (keys d) -> dict_del k (d ++ [(k, v)]) = Some d.
Proof.
  induction d as [|[k' v'] d IH]; simpl.
  - now rewrite String.eqb_refl.
  - intros H. destruct (String.eqb k k') eqn:E.
    + apply String.eqb_eq in E. subst. tauto.
    + rewrite IH by tauto. reflexivity.
Qed.

Lemma dict_del_set_absent k v d :
  ~ In k (keys d) -> dict_del k (dict_set k v d) = Some d.
Proof.
  intros H. rewrite dict_set_absent by assumption.
  now apply dict_del_app_last.
Qed.

Lemma In_dict_set k v k' v' d :
  In (k', v') (dict_set k v d) -> (k', v') = (k, v) \/ In (k', v') d.
Proof.
  induction d as [|[k0 v0] d IH]; simpl.
  - intros [H|[]]. now left.
  - destruct (String.eqb k k0); simpl; intros [H|H]; auto.
    apply IH in H. tauto.
Qed.
End DictFacts.

(** ** The conflict graph *)

Lemma In_set_add x y s : In x (set_add y s) <-> x = y \/ In x s.
Proof.
  unfold set_add. destruct (mem y s) eqn:E.
  - apply mem_In in E. split; [tauto|]. intros [->|H]; auto.
  - rewrite in_app_iff. simpl. split.
    + intros [H|[H|[]]]; auto.
    + intros [->|H]; auto.
Qed.

Lemma NoDup_set_add y s : NoDup s -> NoDup (set_add y s).
Proof.
  intros H. unfold set_add. destruct (mem y s) eqn:E; [exact H|].
  apply mem_false in E. apply NoDup_rev in H.
  rewrite <- (rev_involutive (s ++ [y])). apply NoDup_rev.
  rewrite rev_app_distr. simpl. constructor; [now rewrite <- in_rev | exact H].
Qed.

Lemma conflicts_get_set a k v (c : list (Subject * list Subject)) :
  conflicts_get a (dict_set k v c)
  = if String.eqb a k then v else conflicts_get a c.
Proof.
  unfold conflicts_get. destruct (String.eqb a k) eqn:E.
  - apply String.eqb_eq in E. subst. now rewrite dict_get_set_eq.
  - apply String.eqb_neq in E. now rewrite dict_get_set_neq.
Qed.

Section ConflictGraph.
Variable a : Subject.

(** The innermost loop: the other subjects [os] of the group are added to
    the set of [s], which is already a key. *)
Lemma add_others s os :
  forall c,
    dict_mem s c = true ->
    let c' :=
      fold_left
        (fun conflicts other_subject =>
           if negb (String.eqb other_subject s) then
             match dict_get s conflicts with
             | Some st => dict_set s (set_add other_subject st) conflicts
             | None => conflicts
             end
           else conflicts) os c in
    dict_mem s c' = true
    /\ (forall b, In b (conflicts_get a c')
                  <-> In b (conflicts_get a c)
                      \/ (a = s /\ In b os /\ b <> s))
    /\ (NoDup (conflicts_get a c) -> NoDup (conflicts_get a c')).
Proof.
  induction os as [|o os IH]; intros c Hm; simpl.
  - split; [exact Hm|]. split; [intros b; tauto | auto].
  - destruct (String.eqb o s) eqn:Eo; simpl.
    + apply String.eqb_eq in Eo. subst o.
      destruct (IH c Hm) as (H1 & H2 & H3).
      split; [exact H1|]. split; [|exact H3].
      intros b. rewrite H2. split; [tauto|].
      intros [H|(Ha & [Hb|Hb] & Hn)]; auto. congruence.
    + apply String.eqb_neq in Eo.
      destruct (dict_get s c) as [st|] eqn:Eg;
        [|unfold dict_mem in Hm; rewrite Eg in Hm; discriminate].
      assert (Hm' : dict_mem s (dict_set s (set_add o st) c) = true)
        by (unfold dict_mem; now rewrite dict_get_set_eq).
      destruct (IH _ Hm') as (H1 & H2 & H3).
      split; [exact H1|].
      assert (Hst : a = s -> conflicts_get a c = st)
        by (intros ->; unfold conflicts_get; now rewrite Eg).
      split.
      * intros b. rewrite H2, conflicts_get_set.
        destruct (String.eqb a s) eqn:Ea.
        -- apply String.eqb_eq in Ea. rewrite In_set_add, (Hst Ea).
           split.
           ++ intros [[->|H]|(_ & H & Hn)]; auto 6.
           ++ intros [H|(_ & [->|H] & Hn)]; auto 6.
        -- apply String.eqb_neq in Ea. tauto.
      * intros Hnd. apply H3. rewrite conflicts_get_set.
        destruct (String.eqb a s) eqn:Ea; [|exact Hnd].
        apply String.eqb_eq in Ea. apply NoDup_set_add.
        now rewrite <- (Hst Ea).
Qed.

Lemma add_conflicts_spec grp c s :
  let c' := add_conflicts grp c s in
  (forall b, In b (conflicts_get a c')
             <-> In b (conflicts_get a c)
                 \/ (a = s /\ In b (group_subjects grp) /\ b <> s))
  /\ (NoDup (conflicts_get a c) -> NoDup (conflicts_get a c')).
Proof.
  unfold add_conflicts.
  set (c1 := if dict_mem s c then c else dict_set s [] c).
  assert (Hm : dict_mem s c1 = true).
  { unfold c1. destruct (dict_mem s c) eqn:E; [exact E|].
    unfold dict_mem. now rewrite dict_get_set_eq. }
  assert (Hc1 : conflicts_get a c1 = conflicts_get a c).
  { unfold c1. destruct (dict_mem s c) eqn:E; [reflexivity|].
    rewrite conflicts_get_set. destruct (String.eqb a s) eqn:Ea; auto.
    apply String.eqb_eq in Ea. subst. unfold conflicts_get.
    unfold dict_mem in E. now destruct (dict_get s c). }
  destruct (add_others s (group_subjects grp) c1 Hm) as (_ & H2 & H3).
  rewrite Hc1 in H2, H3. split; assumption.
Qed.

Lemma add_group_spec grp :
  forall ss c,
    let c' := fold_left (add_conflicts grp) ss c in
    (forall b, In b (conflicts_get a c')
               <-> In b (conflicts_get a c)
                   \/ (In a ss /\ In b (group_subjects grp) /\ b <> a))
    /\ (NoDup (conflicts_get a c) -> NoDup (conflicts_get a c')).
Proof.
  induction ss as [|s ss IH]; intros c; simpl.
  - split; [intros b; tauto | auto].
  - destruct (IH (add_conflicts grp c s)) as [H1 H2].
    destruct (add_conflicts_spec grp c s) as [H3 H4].
    split.
    + intros b. rewrite H1, H3. split.
      * intros [[H|(-> & Hb & Hn)]|(Hin & Hb & Hn)]; auto 6.
      * intros [H|([->|Hin] & Hb & Hn)]; auto 6.
    + auto.
Qed.

(** Two subjects are adjacent when they differ and some group lists both;
    an adjacency set lists each neighbour once, so its length is the
    degree. *)
Lemma build_conflict_graph_spec grps :
  (forall b, In b (conflicts_get a (build_conflict_graph grps))
             <-> a <> b
                 /\ exists grp, In grp grps /\ In a (group_subjects grp)
                                /\ In b (group_subjects grp))
  /\ NoDup (conflicts_get a (build_conflict_graph grps)).
Proof.
  unfold build_conflict_graph.
  assert (G : forall gs c,
             let c' :=
               fold_left
                 (fun conflicts group =>
                    fold_left (add_conflicts group) (group_subjects group)
                              conflicts) gs c in
             (forall b, In b (conflicts_get a c')
                        <-> In b (conflicts_get a c)
                            \/ (a <> b
                                /\ exists grp,
                                    In grp gs /\ In a (group_subjects grp)
                                    /\ In b (group_subjects grp)))
             /\ (NoDup (conflicts_get a c) -> NoDup (conflicts_get a c'))).
  { induction gs as [|g gs IH]; intros c; simpl.
    - split; [|auto]. intros b. split; [tauto|].
      intros [H|(_ & grp & [] & _)]. exact H.
    - destruct (IH (fold_left (add_conflicts g) (group_subjects g) c))
        as [H1 H2].
      destruct (add_group_spec g (group_subjects g) c) as [H3 H4].
      split; [|auto].
      intros b. rewrite H1, H3. split.
      + intros [[H|(Ha & Hb & Hn)]|(Hn & grp & Hg & Ha & Hb)]; auto.
        * right. split; [congruence|]. exists g. auto.
        * right. split; [exact Hn|]. exists grp. auto.
      + intros [H|(Hn & grp & Hgrp & Ha & Hb)]; [auto|].
        destruct Hgrp as [E|Hg].
        * subst grp. left. right. repeat split; auto.
        * right. split; [exact Hn|]. exists grp. auto. }
  destruct (G grps []) as [H1 H2]. split.
  - intros b. rewrite H1.
    change (conflicts_get a []) with (@nil Subject). simpl. tauto.
  - apply H2. constructor.
Qed.
End ConflictGraph.

(** ** The backtracking search *)

Section SchedulerFacts.
Variable RNG : Type.
Variable seed : Z -> RNG.
Variable shuffle : RNG -> list Slot -> list Slot * RNG.
Variable iter_set : list Subject -> list Subject.
Hypothesis iter_set_perm : forall l, Permutation (iter_set l) l.

Local Abbreviation Scheduler := (TimetableScheduler RNG).

(** Every domain holds slots of the grid only. *)
Definition domains_within (grid : list Slot)
    (d : list (Subject * list Slot)) : Prop :=
  Forall (fun kv => incl (snd kv) grid) d.

Lemma domains_within_set grid k v d :
  domains_within grid d -> incl v grid ->
  domains_within grid (dict_set k v d).
Proof.
  unfold domains_within. rewrite !Forall_forall.
  intros Hd Hv [k' v'] Hin. apply In_dict_set in Hin.
  destruct Hin as [E|Hin]; [inversion E; now subst | now apply Hd].
Qed.

Lemma domains_within_get grid k v d :
  domains_within grid d -> dict_get k d = Some v -> incl v grid.
Proof.
  unfold domains_within. rewrite Forall_forall.
  intros Hd Hg. apply dict_get_In in Hg. exact (Hd _ Hg).
Qed.

Lemma domain_remove_incl x dom : incl (domain_remove x dom) dom.
Proof. intros y Hy. unfold domain_remove in Hy. now apply filter_In in Hy. Qed.

(** Forward checking touches the domains only. *)
Lemma forward_check_loop_frame cs d s (self self' : Scheduler) r :
  forward_check_loop cs d s self = (r, self') ->
  config self' = config self /\ conflicts self' = conflicts self
  /\ assignment self' = assignment self
  /\ backtrack_count self' = backtrack_count self
  /\ rng self' = rng self
  /\ keys (domains self') = keys (domains self)
  /\ forall grid, domains_within grid (domains self) ->
                  domains_within grid (domains self').
Proof.
  revert self. induction cs as [|c cs IH]; simpl; intros self H.
  - inversion H. subst. repeat split; auto.
  - destruct (dict_mem c (assignment self)); [now apply IH|].
    destruct (dict_get c (domains self)) as [dom|] eqn:Eg.
    + set (dom' := if existsb (slot_eqb (d, s)) dom
                   then domain_remove (d, s) dom else dom) in *.
      assert (Hdom' : incl dom' dom).
      { unfold dom'. destruct (existsb _ dom);
          [apply domain_remove_incl | apply incl_refl]. }
      assert (Hk : keys (dict_set c dom' (domains self))
                   = keys (domains self)).
      { apply keys_dict_set_present. eapply dict_get_Some_key; eauto. }
      assert (Hw : forall grid, domains_within grid (domains self) ->
                   domains_within grid (dict_set c dom' (domains self))).
      { intros grid Hg. apply domains_within_set; [exact Hg|].
        eapply incl_tran; [exact Hdom'|].
        eapply domains_within_get; eauto. }
      destruct (is_empty dom').
      * inversion H. subst. simpl. repeat split; auto.
      * apply IH in H. simpl in H.
        destruct H as (H1 & H2 & H3 & H4 & H5 & H6 & H7).
        repeat split; auto; try congruence.
    + inversion H. subst. repeat split; auto.
Qed.

Lemma forward_check_loop_raise cs d s (self self' : Scheduler) e :
  forward_check_loop cs d s self = (Raise e, self') ->
  exn_kind e = KeyError.
Proof.
  revert self. induction cs as [|c cs IH]; simpl; intros self H.
  - discriminate.
  - destruct (dict_mem c (assignment self)); [now apply IH in H|].
    destruct (dict_get c (domains self)) as [dom|].
    + destruct (is_empty _); [discriminate | now apply IH in H].
    + inversion H. reflexivity.
Qed.

(** Forward checking walks the neighbours in the order [iter_set] gives,
    which is the interpreter's own.  The order does not matter: on any two
    orders forward checking returns the same value and, when it succeeds,
    leaves the same domains.  (When it fails the caller restores the
    domains it saved.) *)
Definition same_check (o1 o2 : result bool * Scheduler) : Prop :=
  fst o1 = fst o2 /\ (fst o1 = Ok true -> snd o1 = snd o2).

Lemma same_check_refl o : same_check o o.
Proof. split; auto. Qed.

Lemma same_check_trans o1 o2 o3 :
  same_check o1 o2 -> same_check o2 o3 -> same_check o1 o3.
Proof.
  intros [H1 H2] [H3 H4]. split; [congruence|].
  intros H. rewrite (H2 H). apply H4. congruence.
Qed.

Lemma dict_set_comm {V} k k' (v v' : V) d :
  k <> k' -> In k (keys d) -> In k' (keys d) ->
  dict_set k v (dict_set k' v' d) = dict_set k' v' (dict_set k v d).
Proof.
  intros Hne. induction d as [|[k0 v0] d IH]; simpl; [tauto|].
  intros Hk Hk'.
  destruct (String.eqb k' k0) eqn:E1, (String.eqb k k0) eqn:E2; simpl.
  - apply String.eqb_eq in E1, E2. congruence.
  - apply String.eqb_eq in E1. subst k0. rewrite E2, String.eqb_refl.
    reflexivity.
  - apply String.eqb_eq in E2. subst k0. rewrite E1, String.eqb_refl.
    reflexivity.
  - rewrite E1, E2. f_equal.
    apply String.eqb_neq in E1, E2.
    apply IH; [destruct Hk | destruct Hk']; congruence.
Qed.

Lemma forward_check_order d s cs cs' :
  Permutation cs cs' ->
  forall self : Scheduler,
    (forall c, In c cs -> In c (keys (domains self))) ->
    same_check (forward_check_loop cs d s self)
               (forward_check_loop cs' d s self).
Proof.
  induction 1 as [|x l l' Hp IH|x y l|l l' l'' Hp1 IH1 Hp2 IH2];
    intros self Hkeys.
  - apply same_check_refl.
  - simpl. destruct (dict_mem x (assignment self)).
    + apply IH. intros c Hc. apply Hkeys. now right.
    + destruct (dict_get x (domains self)) as [dom|] eqn:Eg;
        [|apply same_check_refl].
      destruct (is_empty _); [apply same_check_refl|].
      apply IH. intros c Hc. simpl.
      rewrite keys_dict_set_present;
        [apply Hkeys; now right | eapply dict_get_Some_key; eauto].
  - destruct (string_dec x y) as [->|Hne]; [apply same_check_refl|].
    simpl.
    destruct (dict_mem x (assignment self)) eqn:Ax,
             (dict_mem y (assignment self)) eqn:Ay;
      simpl; rewrite ?Ax, ?Ay; try apply same_check_refl.
    destruct (dict_get x (domains self)) as [dx|] eqn:Ex;
      [|apply dict_get_None in Ex; exfalso; apply Ex, Hkeys; simpl; auto].
    destruct (dict_get y (domains self)) as [dy|] eqn:Ey;
      [|apply dict_get_None in Ey; exfalso; apply Ey, Hkeys; simpl; auto].
    set (dx' := if existsb (slot_eqb (d, s)) dx
                then domain_remove (d, s) dx else dx).
    set (dy' := if existsb (slot_eqb (d, s)) dy
                then domain_remove (d, s) dy else dy).
    rewrite !dict_get_set_neq by congruence. rewrite Ex, Ey.
    fold dx' dy'.
    rewrite (@dict_set_comm _ x y dx' dy' (domains self) Hne
               (dict_get_Some_key _ _ Ex) (dict_get_Some_key _ _ Ey)).
    destruct (is_empty dx'), (is_empty dy'); simpl;
      try (split; [reflexivity | discriminate]).
    apply same_check_refl.
  - eapply same_check_trans; [apply IH1, Hkeys|].
    apply IH2. intros c Hc. apply Hkeys.
    eapply Permutation_in; [apply Permutation_sym, Hp1 | exact Hc].
Qed.

(** What [_is_consistent] guarantees: the slot is free. *)
Lemma _is_consistent_free (self : Scheduler) subject d s :
  _is_consistent self subject d s = true ->
  ~ In (d, s) (map snd (assignment self)).
Proof.
  unfold _is_consistent.
  destruct (existsb _ (assignment self)) eqn:E; [discriminate|].
  intros _ Hin. apply in_map_iff in Hin. destruct Hin as [kv [Hkv Hin]].
  assert (existsb (fun kv => slot_eqb (snd kv) (d, s)) (assignment self)
          = true); [|congruence].
  apply existsb_exists. exists kv. split; [exact Hin|].
  now apply slot_eqb_eq.
Qed.

(** With a domain for every neighbour, forward checking raises nothing. *)
Lemma forward_check_loop_total cs d s :
  forall self : Scheduler,
    (forall c, In c cs -> In c (keys (domains self))) ->
    exists checked self',
      forward_check_loop cs d s self = (Ok checked, self').
Proof.
  induction cs as [|c cs IH]; intros self Hkeys; simpl.
  - eauto.
  - destruct (dict_mem c (assignment self)).
    + apply IH. intros c' Hc'. apply Hkeys. now right.
    + destruct (dict_get c (domains self)) as [dom|] eqn:Eg.
      * destruct (is_empty _); [eauto|].
        apply IH. intros c' Hc'. simpl.
        rewrite keys_dict_set_present;
          [apply Hkeys; now right | eapply dict_get_Some_key; eauto].
      * apply dict_get_None in Eg. exfalso. apply Eg, Hkeys. now left.
Qed.

(** State of the search before a call of [_backtrack]: the subjects taken
    so far and the pending ones are distinct, no slot is used twice,
    assigned slots and domains lie in the grid, and every pending subject
    and every neighbour in the conflict graph has a domain. *)
Record search_inv (grid : list Slot) (pending : list Subject)
    (self : Scheduler) : Prop := {
  inv_subjects : NoDup (keys (assignment self) ++ pending);
  inv_slots : NoDup (map snd (assignment self));
  inv_grid : incl (map snd (assignment self)) grid;
  inv_domains : domains_within grid (domains self);
  inv_pending : forall c, In c pending -> In c (keys (domains self));
  inv_neighbours :
    forall a c, In c (conflicts_get a (conflicts self)) ->
                In c (keys (domains self)) }.

(** Outcome of a call of [_backtrack] started in [self]: it raises
    nothing; on [True] the pending subjects have been added, in order, to
    the assignment; on [False] assignment and domains are as before. *)
Definition search_post (grid : list Slot) (pending : list Subject)
    (self : Scheduler) (out : result bool * Scheduler) : Prop :=
  config (snd out) = config self /\ conflicts (snd out) = conflicts self
  /\ match fst out with
     | Ok true =>
         keys (assignment (snd out)) = keys (assignment self) ++ pending
         /\ NoDup (map snd (assignment (snd out)))
         /\ incl (map snd (assignment (snd out))) grid
     | Ok false =>
         assignment (snd out) = assignment self
         /\ domains (snd out) = domains self
     | Raise e => False
     end.

Hypothesis shuffle_perm : forall g l, Permutation (fst (shuffle g l)) l.

Lemma walked_neighbours grid pending (self : Scheduler) subject :
  search_inv grid pending self ->
  forall c, In c (iter_set (conflicts_get subject (conflicts self))) ->
            In c (keys (domains self)).
Proof.
  intros Hinv c Hc. apply (inv_neighbours Hinv subject).
  eapply Permutation_in; [apply iter_set_perm | exact Hc].
Qed.

Lemma search_post_stay grid pending (self : Scheduler) :
  search_post grid pending self (Ok false, self).
Proof. unfold search_post. simpl. auto. Qed.

Lemma try_slots_spec grid next subject pending :
  (forall self : Scheduler,
      search_inv grid pending self ->
      search_post grid pending self (next self)) ->
  forall possible_slots (self : Scheduler),
    incl possible_slots grid ->
    search_inv grid (subject :: pending) self ->
    search_post grid (subject :: pending) self
                (try_slots iter_set next subject possible_slots self).
Proof.
  intros Hnext.
  induction possible_slots as [|[d s] rest IH]; intros self Hincl Hinv.
  - apply search_post_stay.
  - assert (Hrest : incl rest grid) by (intros x Hx; apply Hincl; now right).
    simpl. destruct (_is_consistent self subject d s) eqn:Ec;
      [|now apply IH].
    assert (Hfresh : ~ In subject (keys (assignment self))).
    { intros Hin. pose proof (inv_subjects Hinv) as Hnd.
      apply NoDup_remove_2 in Hnd. apply Hnd. apply in_or_app. now left. }
    set (self1 := set_assignment
                    (dict_set subject (d, s) (assignment self)) self).
    assert (Ha1 : assignment self1 = assignment self ++ [(subject, (d, s))]).
    { unfold self1. simpl. now apply dict_set_absent. }
    unfold _forward_check.
    destruct (@forward_check_loop_total
                (iter_set (conflicts_get subject (conflicts self1)))
                d s self1
                (@walked_neighbours grid (subject :: pending) self subject
                                    Hinv))
      as (checked & self2 & Efc).
    rewrite Efc. apply forward_check_loop_frame in Efc.
    destruct Efc as (Hc2 & Hg2 & Ha2 & _ & _ & Hk2 & Hd2).
    assert (Hinv2 : search_inv grid pending self2).
    { destruct Hinv as [I1 I2 I3 I4 I5 I6]. split.
      - rewrite Ha2, Ha1. unfold keys. rewrite map_app. simpl.
        now rewrite <- app_assoc.
      - rewrite Ha2, Ha1, map_app. simpl.
        apply NoDup_rev in I2. rewrite <- (rev_involutive (_ ++ _)).
        apply NoDup_rev. rewrite rev_app_distr. simpl. constructor; [|exact I2].
        rewrite <- in_rev. eapply _is_consistent_free; eauto.
      - rewrite Ha2, Ha1, map_app. simpl. apply incl_app; [exact I3|].
        intros x [<-|[]]. apply Hincl. now left.
      - apply Hd2. exact I4.
      - intros c Hin. rewrite Hk2. apply I5. now right.
      - intros a c Hin. rewrite Hk2. rewrite Hg2 in Hin. exact (I6 a c Hin). }
    destruct (if checked then next self2 else (Ok false, self2))
      as [r3 self3] eqn:E3.
    assert (H3 : search_post grid pending self2 (r3, self3)).
    { destruct checked.
      - rewrite <- E3. now apply Hnext.
      - inversion E3. subst. apply search_post_stay. }
    destruct H3 as (Hc3 & Hg3 & H3). simpl in Hc3, Hg3, H3.
    assert (Hc : config self3 = config self) by (rewrite Hc3, Hc2; reflexivity).
    assert (Hg : conflicts self3 = conflicts self)
      by (rewrite Hg3, Hg2; reflexivity).
    destruct r3 as [[|]|e]; [| |destruct H3].
    + destruct H3 as (Hk & Hn & Hi). repeat split; simpl; auto.
      rewrite Hk, Ha2, Ha1. unfold keys. rewrite map_app. simpl.
      now rewrite <- app_assoc.
    + destruct H3 as (Ha3 & Hd3).
      rewrite Ha3, Ha2. unfold self1 at 1. simpl.
      rewrite dict_del_set_absent by assumption.
      set (self4 := set_domains (domains self1) (set_assignment
                                                   (assignment self) self3)).
      assert (Hinv4 : search_inv grid (subject :: pending) self4).
      { destruct Hinv as [I1 I2 I3 I4 I5 I6]. split; simpl; try assumption.
        intros a c Hin. rewrite Hg in Hin. exact (I6 a c Hin). }
      specialize (IH self4 Hrest Hinv4).
      destruct IH as (Hc4 & Hg4 & H4). simpl in Hc4, Hg4, H4.
      change (_restore_domains (set_assignment (assignment self) self3)
                               (domains self)) with self4.
      split; [congruence|]. split; [congruence|]. exact H4.
Qed.

Lemma backtrack_from_spec grid pending :
  forall self : Scheduler,
    search_inv grid pending self ->
    search_post grid pending self (_backtrack_from shuffle iter_set pending
        self).
Proof.
  induction pending as [|subject pending IH]; intros self Hinv.
  - simpl. unfold search_post. simpl. rewrite app_nil_r.
    destruct Hinv. repeat split; auto.
  - simpl.
    destruct (dict_get subject (domains self)) as [dom|] eqn:Eg.
    + destruct (shuffle (rng self) dom) as [possible_slots g] eqn:Es.
      assert (Hincl : incl possible_slots grid).
      { assert (Hd : incl dom grid)
          by (eapply domains_within_get; [apply (inv_domains Hinv) | exact Eg]).
        intros x Hx. apply Hd.
        eapply Permutation_in; [apply shuffle_perm|].
        rewrite Es. exact Hx. }
      assert (Hinv' : search_inv grid (subject :: pending)
                                 (set_rng g (count_backtrack self))).
      { destruct Hinv. split; simpl; assumption. }
      exact (try_slots_spec (_backtrack_from shuffle iter_set pending) IH
          Hincl Hinv').
    + apply dict_get_None in Eg. exfalso. apply Eg.
      apply (inv_pending Hinv). now left.
Qed.

(** *** Configurations *)

Lemma nodup_length_le (l : list Subject) :
  length (nodup string_dec l) <= length l.
Proof.
  induction l as [|x l IH]; simpl; [lia|].
  destruct (in_dec string_dec x l); simpl; lia.
Qed.

Lemma nodup_length_NoDup (l : list Subject) :
  length l = length (nodup string_dec l) -> NoDup l.
Proof.
  induction l as [|x l IH]; simpl; intros H; [constructor|].
  destruct (in_dec string_dec x l) as [Hin|Hin].
  - pose proof (nodup_length_le l). lia.
  - simpl in H. constructor; [exact Hin | apply IH; lia].
Qed.

Lemma valid_config_NoDup cfg :
  valid_TimetableConfig cfg = true -> NoDup (subjects cfg).
Proof.
  unfold valid_TimetableConfig, TimetableConfig_post_init.
  rewrite !andb_true_iff. intros [[_ H] _].
  apply nodup_length_NoDup. now apply Nat.eqb_eq.
Qed.

Lemma valid_config_sizes cfg :
  valid_TimetableConfig cfg = true ->
  Forall (fun grp => (0 < group_size grp)%Z) (groups cfg).
Proof.
  unfold valid_TimetableConfig. rewrite andb_true_iff. intros [_ H].
  rewrite forallb_forall in H. apply Forall_forall. intros grp Hin.
  specialize (H grp Hin). unfold StudentGroup_post_init in H.
  apply andb_true_iff in H. now apply Z.ltb_lt.
Qed.

Lemma all_slots_In cfg d s :
  In (d, s) (all_slots cfg) <-> d < days cfg /\ s < slots_per_day cfg.
Proof.
  unfold all_slots. rewrite in_flat_map. split.
  - intros [d' [Hd Hs]]. apply in_seq in Hd. apply in_map_iff in Hs.
    destruct Hs as [s' [E Hs]]. apply in_seq in Hs. inversion E. subst. lia.
  - intros [Hd Hs]. exists d. split; [apply in_seq; lia|].
    apply in_map_iff. exists s. split; [reflexivity | apply in_seq; lia].
Qed.

Lemma In_fold_set_add (x : Subject) (l acc : list Subject) :
  In x (fold_left (fun acc s => set_add s acc) l acc) <-> In x acc \/ In x l.
Proof.
  revert acc. induction l as [|y l IH]; intros acc; simpl; [tauto|].
  rewrite IH. unfold set_add. destruct (mem y acc) eqn:E.
  - apply mem_In in E. split; [tauto|]. intros [H|[->|H]]; auto.
  - rewrite in_app_iff. simpl. split; [tauto|].
    intros [H|[->|H]]; auto.
Qed.

Lemma all_group_subjects_In (x : Subject) (grps : list StudentGroup) :
  In x (all_group_subjects grps)
  <-> exists grp, In grp grps /\ In x (group_subjects grp).
Proof.
  unfold all_group_subjects.
  assert (G : forall acc,
             In x (fold_left
                     (fun acc group =>
                        fold_left (fun acc s => set_add s acc)
                                  (group_subjects group) acc) grps acc)
             <-> In x acc
                 \/ exists grp, In grp grps /\ In x (group_subjects grp)).
  { induction grps as [|grp grps IH]; intros acc; simpl.
    - split; [tauto|]. intros [H|[grp [[] _]]]. exact H.
    - rewrite IH, In_fold_set_add. split.
      + intros [[H|H]|[grp' [H1 H2]]]; eauto 6.
      + intros [H|[grp' [[->|H1] H2]]]; eauto 6. }
  rewrite G. simpl. tauto.
Qed.

Lemma In_iter_set (x : Subject) (l : list Subject) :
  In x (iter_set l) <-> In x l.
Proof.
  split; apply Permutation_in;
    [apply iter_set_perm | apply Permutation_sym, iter_set_perm].
Qed.

(** [validate_config] rejects exactly the three defects it lists. *)
Lemma validate_config_false cfg :
  fst (validate_config iter_set cfg) = false
  <-> snd (validate_config iter_set cfg) <> [].
Proof.
  unfold validate_config. simpl.
  destruct (_ ++ _) as [|e l]; simpl; split; congruence.
Qed.

Lemma validate_config_errors cfg e :
  In e (snd (validate_config iter_set cfg)) <->
  (e = err_insufficient_slots (length (subjects cfg)) (total_slots cfg)
   /\ total_slots cfg < length (subjects cfg))
  \/ (exists s, e = err_not_in_any_group s /\ In s (subjects cfg)
                /\ ~ In s (all_group_subjects (groups cfg)))
  \/ (exists s, e = err_not_in_subject_list s
                /\ In s (all_group_subjects (groups cfg))
                /\ ~ In s (subjects cfg)).
Proof.
  unfold validate_config. simpl. rewrite !in_app_iff, !in_map_iff.
  split.
  - intros [[H|H]|H].
    + left. destruct (total_slots cfg <? length (subjects cfg)) eqn:E;
        [|destruct H]. apply Nat.ltb_lt in E.
      destruct H as [<-|[]]. auto.
    + right. left. destruct H as [s [<- H]]. apply filter_In in H.
      destruct H as [H1 H2]. apply negb_true_iff, mem_false in H2. eauto.
    + right. right. destruct H as [s [<- H]]. apply filter_In in H.
      destruct H as [H1 H2]. apply negb_true_iff, mem_false in H2.
      exists s. split; [reflexivity|]. split; [|exact H2].
      exact (proj1 (In_iter_set s _) H1).
  - intros [[-> H]|[[s [-> [H1 H2]]]|[s [-> [H1 H2]]]]].
    + left. left. apply Nat.ltb_lt in H. rewrite H. now left.
    + left. right. exists s. split; [reflexivity|]. apply filter_In.
      split; [exact H1|]. now apply negb_true_iff, mem_false.
    + right. exists s. split; [reflexivity|]. apply filter_In.
      split; [now apply In_iter_set|]. now apply negb_true_iff, mem_false.
Qed.

(** An invalid configuration stops [generate_timetable] at its first
    statement, with the scheduler as [__init__] left it. *)
Lemma generate_timetable_invalid cfg g :
  fst (validate_config iter_set cfg) = false ->
  generate_timetable seed shuffle iter_set cfg g
  = (Raise (mkExn NoSolutionError msg_invalid_configuration
                  (diag_validation (snd (validate_config iter_set cfg)))),
     TimetableScheduler_init seed cfg g).
Proof.
  intros H. unfold generate_timetable, TimetableScheduler_generate_timetable.
  simpl config. destruct (validate_config iter_set cfg) as [v errs].
  simpl in H. subst v. reflexivity.
Qed.

(** The [InsufficientSlotsError] branch of [generate_timetable] is dead:
    [validate_config] reports the same condition first. *)
Lemma insufficient_slots_branch_dead cfg g e self' :
  generate_timetable seed shuffle iter_set cfg g = (Raise e, self') ->
  exn_kind e <> InsufficientSlotsError.
Proof.
  unfold generate_timetable, TimetableScheduler_generate_timetable.
  simpl config.
  destruct (validate_config iter_set cfg) as [v errs] eqn:Ev.
  destruct v; simpl negb; cbv iota.
  - destruct (total_slots cfg <? length (subjects cfg)) eqn:E.
    + exfalso. apply Nat.ltb_lt in E.
      assert (In (err_insufficient_slots (length (subjects cfg))
                                         (total_slots cfg))
                 (snd (validate_config iter_set cfg)))
        by (apply validate_config_errors; auto).
      assert (fst (validate_config iter_set cfg) = false)
        by (apply validate_config_false; intros E'; rewrite E' in *; auto).
      rewrite Ev in *. discriminate.
    + unfold _backtrack. simpl skipn.
      match goal with
      | |- context [_backtrack_from shuffle iter_set ?p ?s] =>
          destruct (_backtrack_from shuffle iter_set p s) as [r s'] eqn:Eb
      end.
      destruct r as [[|]|e'].
      * discriminate.
      * intros [= <- _]. discriminate.
      * intros [= <- _].
        assert (K : forall pending (s0 : Scheduler) e0 s1,
                   _backtrack_from shuffle iter_set pending s0 = (Raise e0,
                       s1) ->
                   exn_kind e0 = KeyError).
        { clear. induction pending as [|x pending IH]; simpl; intros s0 e0 s1.
          - discriminate.
          - destruct (dict_get x (domains s0)); [|intros [= <- _]; reflexivity].
            destruct (shuffle (rng s0) l) as [ps g0].
            generalize (set_rng g0 (count_backtrack s0)).
            induction ps as [|[d s] ps IHp]; simpl; intros s2; [discriminate|].
            destruct (_is_consistent s2 x d s); [|apply IHp].
            destruct (_forward_check iter_set _ x d s) as [r s3] eqn:Ef.
            destruct r as [c|e1].
            + destruct (if c then _backtrack_from shuffle iter_set pending s3
                        else (Ok false, s3)) as [r4 s4] eqn:E4.
              destruct r4 as [[|]|e4].
              * discriminate.
              * destruct (dict_del x (assignment s4));
                  [apply IHp | intros [= <- _]; reflexivity].
              * intros [= <- _]. destruct c; [|discriminate].
                eapply IH; eauto.
            + intros [= <- _]. unfold _forward_check in Ef.
              eapply forward_check_loop_raise; eauto. }
        rewrite (K _ _ _ _ Eb). discriminate.
  - intros [= <- _]. discriminate.
Qed.

(** *** A successful solve *)

Lemma initial_domains_within grid (subjs : list Subject) d :
  domains_within grid d ->
  domains_within grid
    (fold_left (fun d subject => dict_set subject grid d) subjs d).
Proof.
  revert d. induction subjs as [|x subjs IH]; intros d Hd; simpl; [exact Hd|].
  apply IH. apply domains_within_set; [exact Hd | apply incl_refl].
Qed.

Lemma exam_slots_subject a : map subject (exam_slots a) = keys a.
Proof. unfold exam_slots, keys. rewrite map_map. reflexivity. Qed.

Lemma exam_slots_slot a :
  map (fun e => (day e, slot e)) (exam_slots a) = map snd a.
Proof.
  unfold exam_slots. rewrite map_map. apply map_ext.
  intros [k [d s]]. reflexivity.
Qed.

Lemma variable_order_init cfg g :
  variable_order (TimetableScheduler_init seed cfg g)
  = sorted_reverse
      (fun s => Z.of_nat (count_conflicts s (build_conflict_graph (groups
          cfg))))
      (subjects cfg).
Proof. reflexivity. Qed.

Lemma initial_domains_keys (grid : list Slot) (subjs : list Subject) c :
  forall d : list (Subject * list Slot),
    In c subjs \/ In c (keys d) ->
    In c (keys (fold_left (fun d subject => dict_set subject grid d)
                          subjs d)).
Proof.
  induction subjs as [|x subjs IH]; intros d; simpl; [tauto|].
  intros H. apply IH.
  destruct (string_dec c x) as [->|Hne].
  - right. eapply dict_get_Some_key. apply dict_get_set_eq.
  - destruct H as [[H|H]|H]; [congruence | now left | right].
    apply dict_mem_In. apply dict_mem_In in H. unfold dict_mem in *.
    now rewrite dict_get_set_neq.
Qed.

(** After validation every subject of every group is a configured one. *)
Lemma validate_config_groups cfg s :
  fst (validate_config iter_set cfg) = true ->
  In s (all_group_subjects (groups cfg)) -> In s (subjects cfg).
Proof.
  intros Hv Hs.
  destruct (in_dec string_dec s (subjects cfg)) as [Hin|Hn]; [exact Hin|].
  assert (In (err_not_in_subject_list s) (snd (validate_config iter_set cfg)))
    by (apply validate_config_errors; right; right; eauto).
  assert (fst (validate_config iter_set cfg) = false)
    by (apply validate_config_false; intros E; rewrite E in *; auto).
  congruence.
Qed.

(** The state in which [generate_timetable] starts the search, on a
    configuration that passed validation. *)
Lemma initial_inv cfg g :
  valid_TimetableConfig cfg = true ->
  fst (validate_config iter_set cfg) = true ->
  search_inv (all_slots cfg)
             (variable_order (TimetableScheduler_init seed cfg g))
             (set_domains
                (fold_left
                   (fun d subject => dict_set subject (all_slots cfg) d)
                   (subjects cfg) [])
                (TimetableScheduler_init seed cfg g)).
Proof.
  intros Hv Hval. split; simpl.
  - eapply Permutation_NoDup;
      [apply Permutation_sym, sorted_reverse_perm
      | now apply valid_config_NoDup].
  - constructor.
  - intros x [].
  - apply initial_domains_within. constructor.
  - intros c Hc. apply initial_domains_keys. left.
    exact (proj1 (sorted_reverse_In _ c (subjects cfg)) Hc).
  - intros a c Hc. apply initial_domains_keys. left.
    apply validate_config_groups; [exact Hval|].
    apply all_group_subjects_In.
    apply (build_conflict_graph_spec a (groups cfg)) in Hc.
    destruct Hc as (_ & grp & Hg & _ & Hc). eauto.
Qed.

Lemma validate_config_slots cfg :
  fst (validate_config iter_set cfg) = true ->
  (total_slots cfg <? length (subjects cfg)) = false.
Proof.
  intros Hval. destruct (total_slots cfg <? _) eqn:E; [|reflexivity].
  apply Nat.ltb_lt in E.
  assert (In (err_insufficient_slots (length (subjects cfg))
                                     (total_slots cfg))
             (snd (validate_config iter_set cfg)))
    by (apply validate_config_errors; auto).
  assert (fst (validate_config iter_set cfg) = false)
    by (apply validate_config_false; intros E'; rewrite E' in *; auto).
  congruence.
Qed.

Lemma generate_timetable_success cfg g tt (self' : Scheduler) :
  valid_TimetableConfig cfg = true ->
  generate_timetable seed shuffle iter_set cfg g = (Ok tt, self') ->
  tt = mkTimetableResult (exam_slots (assignment self')) cfg
  /\ keys (assignment self')
     = variable_order (TimetableScheduler_init seed cfg g)
  /\ NoDup (map snd (assignment self'))
  /\ incl (map snd (assignment self')) (all_slots cfg).
Proof.
  intros Hv. unfold generate_timetable, TimetableScheduler_generate_timetable.
  simpl config. destruct (validate_config iter_set cfg) as [v errs] eqn:Ev.
  destruct v; simpl negb; cbv iota; [|discriminate].
  assert (Hval : fst (validate_config iter_set cfg) = true) by now rewrite Ev.
  destruct (total_slots cfg <? length (subjects cfg)); [discriminate|].
  unfold _backtrack. simpl skipn.
  match goal with
  | |- context [_backtrack_from shuffle iter_set ?p ?s] =>
      pose proof (@backtrack_from_spec (all_slots cfg) p s
                    (initial_inv cfg g Hv Hval)) as Hspec;
      destruct (_backtrack_from shuffle iter_set p s) as [r s'] eqn:Eb
  end.
  destruct Hspec as (Hc & _ & Hpost). simpl in Hc, Hpost.
  destruct r as [[|]|e]; try discriminate.
  intros [= <- <-]. destruct Hpost as (Hk & Hn & Hi).
  rewrite Hc. auto.
Qed.

(** On a configuration the constructors accept, the only exception
    [generate_timetable] raises is [NoSolutionError] itself: neither a
    subclass of it nor a [KeyError] of the dictionaries. *)
Lemma generate_timetable_failure cfg g e (self' : Scheduler) :
  valid_TimetableConfig cfg = true ->
  generate_timetable seed shuffle iter_set cfg g = (Raise e, self') ->
  exn_kind e = NoSolutionError.
Proof.
  intros Hv. unfold generate_timetable, TimetableScheduler_generate_timetable.
  simpl config. destruct (validate_config iter_set cfg) as [v errs] eqn:Ev.
  destruct v; simpl negb; cbv iota; [|intros [= <- _]; reflexivity].
  assert (Hval : fst (validate_config iter_set cfg) = true) by now rewrite Ev.
  rewrite (validate_config_slots cfg Hval).
  unfold _backtrack. simpl skipn.
  match goal with
  | |- context [_backtrack_from shuffle iter_set ?p ?s] =>
      pose proof (@backtrack_from_spec (all_slots cfg) p s
                    (initial_inv cfg g Hv Hval)) as Hspec;
      destruct (_backtrack_from shuffle iter_set p s) as [r s'] eqn:Eb
  end.
  destruct Hspec as (_ & _ & Hpost). simpl in Hpost.
  destruct r as [[|]|e']; [discriminate | | destruct Hpost].
  intros [= <- _]. reflexivity.
Qed.

Lemma NoDup_map_inj {A B} (f : A -> B) (l : list A) (a b : A) :
  NoDup (map f l) -> In a l -> In b l -> f a = f b -> a = b.
Proof.
  induction l as [|x l IH]; simpl; [tauto|].
  intros Hnd Ha Hb E. inversion Hnd as [|? ? Hx Hnd']. subst.
  destruct Ha as [->|Ha], Hb as [->|Hb]; auto.
  - exfalso. apply Hx. rewrite E. now apply in_map.
  - exfalso. apply Hx. rewrite <- E. now apply in_map.
Qed.

(** C1. Whenever [generate_timetable] returns a timetable for a
    configuration the constructors accept, every configured subject has
    exactly one entry, each entry lies in the grid
    ([day < days], [slot < slots_per_day]), no two entries share a
    (day, slot), and two different subjects of one group never sit in the
    same (day, slot). *)
Theorem generate_timetable_sound cfg g tt (self' : Scheduler) :
  valid_TimetableConfig cfg = true ->
  generate_timetable seed shuffle iter_set cfg g = (Ok tt, self') ->
  NoDup (map subject (assignments tt))
  /\ Permutation (map subject (assignments tt)) (subjects cfg)
  /\ Forall (fun a => day a < days cfg /\ slot a < slots_per_day cfg)
            (assignments tt)
  /\ NoDup (map (fun a => (day a, slot a)) (assignments tt))
  /\ forall grp a b,
       In grp (groups cfg) ->
       In a (assignments tt) -> In b (assignments tt) ->
       In (subject a) (group_subjects grp) ->
       In (subject b) (group_subjects grp) ->
       subject a <> subject b ->
       (day a, slot a) <> (day b, slot b).
Proof.
  intros Hv Hg.
  destruct (generate_timetable_success _ _ Hv Hg) as (-> & Hk & Hn & Hi).
  simpl assignments.
  assert (Hp : Permutation (keys (assignment self')) (subjects cfg)).
  { rewrite Hk. apply sorted_reverse_perm. }
  rewrite exam_slots_subject, exam_slots_slot.
  split; [|split; [exact Hp|split; [|split; [exact Hn|]]]].
  - eapply Permutation_NoDup;
      [apply Permutation_sym, Hp | now apply valid_config_NoDup].
  - apply Forall_forall. intros a Ha. apply all_slots_In. apply Hi.
    pose proof (in_map (fun e => (day e, slot e)) _ _ Ha) as Hm.
    rewrite exam_slots_slot in Hm. exact Hm.
  - intros grp a b _ Ha Hb _ _ Hne E. apply Hne. f_equal.
    rewrite <- exam_slots_slot in Hn.
    exact (NoDup_map_inj (fun e => (day e, slot e)) _ _ _ Hn Ha Hb E).
Qed.

(** *** The order of the variables *)

(** C9. The order in which the search takes the subjects is fixed before
    the search starts: it is the input list of subjects sorted by
    descending degree in the conflict graph, subjects of equal degree in
    input order.  The degree of a subject is the number of other subjects
    that share a group with it.  The order is the same whatever the seed,
    the generator and its state, and a timetable that the solve returns
    lists the subjects in exactly that order. *)
Theorem variable_order_static cfg g tt (self' : Scheduler) :
  valid_TimetableConfig cfg = true ->
  let order := variable_order (TimetableScheduler_init seed cfg g) in
  let neighbours :=
    fun s => conflicts_get s (build_conflict_graph (groups cfg)) in
  let degree := fun s => Z.of_nat (length (neighbours s)) in
  Permutation order (subjects cfg)
  /\ descending degree order
  /\ (forall v, filter (fun s => (degree s =? v)%Z) order
                = filter (fun s => (degree s =? v)%Z) (subjects cfg))
  /\ (forall a, NoDup (neighbours a)
                /\ forall b, In b (neighbours a)
                             <-> a <> b
                                 /\ exists grp,
                                     In grp (groups cfg)
                                     /\ In a (group_subjects grp)
                                     /\ In b (group_subjects grp))
  /\ (forall (RNG' : Type) (seed' : Z -> RNG') n (g' : RNG'),
         variable_order
           (TimetableScheduler_init seed' (with_random_seed cfg n) g')
         = order)
  /\ (generate_timetable seed shuffle iter_set cfg g = (Ok tt, self') ->
      map subject (assignments tt) = order).
Proof.
  intros Hv order neighbours degree. unfold order.
  rewrite variable_order_init.
  change (fun s => Z.of_nat (count_conflicts
                               s (build_conflict_graph (groups cfg))))
    with degree.
  split; [apply sorted_reverse_perm|].
  split; [apply sorted_reverse_descending|].
  split; [intros v; apply sorted_reverse_stable|].
  split.
  { intros a. destruct (build_conflict_graph_spec a (groups cfg)) as [H1 H2].
    split; [exact H2 | exact H1]. }
  split; [reflexivity|].
  intros Hg.
  destruct (generate_timetable_success _ _ Hv Hg) as (-> & Hk & _).
  simpl assignments. rewrite exam_slots_subject, Hk. reflexivity.
Qed.

(** *** Incoherent configurations *)

(** C8, as the code has it.  When a subject of the configuration is
    claimed by no group, or a group declares a subject that the
    configuration does not list, [generate_timetable] raises
    [NoSolutionError] itself, with the message "Invalid configuration" and
    the non-empty list of validation errors, one for each such subject, as
    diagnostics; the scheduler is left as [__init__] built it, so no search
    has run. *)
Theorem incoherent_config_rejected cfg g :
  (exists s, In s (subjects cfg)
             /\ forall grp, In grp (groups cfg) -> ~ In s (group_subjects grp))
  \/ (exists grp s, In grp (groups cfg) /\ In s (group_subjects grp)
                    /\ ~ In s (subjects cfg)) ->
  exists errors,
    generate_timetable seed shuffle iter_set cfg g
    = (Raise (mkExn NoSolutionError msg_invalid_configuration
                    (diag_validation errors)),
       TimetableScheduler_init seed cfg g)
    /\ errors <> []
    /\ (forall s, In s (subjects cfg) ->
                  (forall grp, In grp (groups cfg) ->
                               ~ In s (group_subjects grp)) ->
                  In (err_not_in_any_group s) errors)
    /\ (forall grp s, In grp (groups cfg) -> In s (group_subjects grp) ->
                      ~ In s (subjects cfg) ->
                      In (err_not_in_subject_list s) errors).
Proof.
  intros H. exists (snd (validate_config iter_set cfg)).
  assert (H1 : forall s, In s (subjects cfg) ->
                 (forall grp, In grp (groups cfg) ->
                              ~ In s (group_subjects grp)) ->
                 In (err_not_in_any_group s) (snd (validate_config iter_set
                     cfg))).
  { intros s Hs Hg. apply validate_config_errors. right. left.
    exists s. split; [reflexivity|]. split; [exact Hs|].
    rewrite all_group_subjects_In. intros [grp [Hin Hin']].
    exact (Hg grp Hin Hin'). }
  assert (H2 : forall grp s, In grp (groups cfg) ->
                 In s (group_subjects grp) -> ~ In s (subjects cfg) ->
                 In (err_not_in_subject_list s) (snd (validate_config iter_set
                     cfg))).
  { intros grp s Hgrp Hs Hn. apply validate_config_errors. right. right.
    exists s. split; [reflexivity|]. split; [|exact Hn].
    rewrite all_group_subjects_In. eauto. }
  assert (Hne : snd (validate_config iter_set cfg) <> []).
  { destruct H as [[s [Hs Hg]]|[grp [s [Hgrp [Hs Hn]]]]].
    - intros E. specialize (H1 s Hs Hg). rewrite E in H1. destruct H1.
    - intros E. specialize (H2 grp s Hgrp Hs Hn). rewrite E in H2.
      destruct H2. }
  split; [|auto].
  apply generate_timetable_invalid. now apply validate_config_false.
Qed.
End SchedulerFacts.

(** ** Runs of the same input *)

(** Two diagnostics that differ at most in the order of the lists which
    the code builds by walking a set. *)
Inductive same_diagnostics : diagnostics -> diagnostics -> Prop :=
| same_validation errors1 errors2 :
    Permutation errors1 errors2 ->
    same_diagnostics (diag_validation errors1) (diag_validation errors2)
| same_search attempts n conflicts1 conflicts2 :
    Forall2 (fun kv1 kv2 : Subject * list Subject =>
               fst kv1 = fst kv2 /\ Permutation (snd kv1) (snd kv2))
            conflicts1 conflicts2 ->
    same_diagnostics (diag_search attempts n conflicts1)
                     (diag_search attempts n conflicts2)
| same_other d : same_diagnostics d d.

(** Two outcomes that are the same value, or the same exception up to
    the order of such lists. *)
Definition same_outcome {A} (o1 o2 : result A) : Prop :=
  match o1, o2 with
  | Ok a1, Ok a2 => a1 = a2
  | Raise e1, Raise e2 =>
      exn_kind e1 = exn_kind e2 /\ exn_message e1 = exn_message e2
      /\ same_diagnostics (exn_diagnostics e1) (exn_diagnostics e2)
  | _, _ => False
  end.

Lemma Permutation_filter_same {A} (p : A -> bool) (l l' : list A) :
  Permutation l l' -> Permutation (filter p l) (filter p l').
Proof.
  induction 1 as [|x l l' _ IH|x y l|l l' l'' _ IH1 _ IH2]; simpl.
  - constructor.
  - destruct (p x); [now constructor | exact IH].
  - destruct (p x), (p y); try apply Permutation_refl. apply perm_swap.
  - eapply perm_trans; eauto.
Qed.

Lemma dict_set_walked k (v1 v2 : list Subject)
    (d1 d2 : list (Subject * list Subject)) :
  Permutation v1 v2 ->
  Forall2 (fun kv1 kv2 => fst kv1 = fst kv2
                          /\ Permutation (snd kv1) (snd kv2)) d1 d2 ->
  Forall2 (fun kv1 kv2 => fst kv1 = fst kv2
                          /\ Permutation (snd kv1) (snd kv2))
          (dict_set k v1 d1) (dict_set k v2 d2).
Proof.
  intros Hv. induction 1 as [|[k1 w1] [k2 w2] d1 d2 [Hk Hw] Hd IH]; simpl.
  - constructor; [split; [reflexivity | exact Hv] | constructor].
  - simpl in Hk, Hw. subst k2. destruct (String.eqb k k1).
    + constructor; [split; [reflexivity | exact Hv] | assumption].
    + constructor; [split; [reflexivity | exact Hw] | exact IH].
Qed.

Section Determinism.
Variable RNG : Type.
Variable seed : Z -> RNG.
Variable shuffle : RNG -> list Slot -> list Slot * RNG.
Hypothesis shuffle_perm : forall g l, Permutation (fst (shuffle g l)) l.

(** The orders in which two runs walk their sets. *)
Variable iter_set iter_set' : list Subject -> list Subject.
Hypothesis iter_set_perm : forall l, Permutation (iter_set l) l.
Hypothesis iter_set_perm' : forall l, Permutation (iter_set' l) l.

Local Abbreviation Scheduler := (TimetableScheduler RNG).

Lemma validate_config_walk cfg :
  fst (validate_config iter_set cfg) = fst (validate_config iter_set' cfg)
  /\ Permutation (snd (validate_config iter_set cfg))
                 (snd (validate_config iter_set' cfg)).
Proof.
  assert (Hp : Permutation (snd (validate_config iter_set cfg))
                           (snd (validate_config iter_set' cfg))).
  { unfold validate_config. simpl. apply Permutation_app_head.
    apply Permutation_map, Permutation_filter_same.
    eapply perm_trans; [apply iter_set_perm|].
    apply Permutation_sym, iter_set_perm'. }
  split; [|exact Hp]. apply Permutation_length in Hp.
  unfold validate_config in *. simpl in *. now rewrite Hp.
Qed.

Lemma search_inv_same grid pending (self self0 : Scheduler) :
  search_inv grid pending self ->
  conflicts self0 = conflicts self ->
  assignment self0 = assignment self ->
  domains self0 = domains self ->
  search_inv grid pending self0.
Proof.
  intros [I1 I2 I3 I4 I5 I6] Hg Ha Hd.
  split; rewrite ?Hg, ?Ha, ?Hd; assumption.
Qed.

Lemma search_inv_step grid subject pending (self self2 : Scheduler) d s :
  search_inv grid (subject :: pending) self ->
  _is_consistent self subject d s = true ->
  In (d, s) grid ->
  conflicts self2 = conflicts self ->
  assignment self2 = dict_set subject (d, s) (assignment self) ->
  keys (domains self2) = keys (domains self) ->
  domains_within grid (domains self2) ->
  search_inv grid pending self2.
Proof.
  intros Hinv Ec Hgrid Hg Ha Hk Hd.
  assert (Hfresh : ~ In subject (keys (assignment self))).
  { intros Hin. pose proof (inv_subjects Hinv) as Hnd.
    apply NoDup_remove_2 in Hnd. apply Hnd. apply in_or_app. now left. }
  rewrite dict_set_absent in Ha by assumption.
  destruct Hinv as [I1 I2 I3 I4 I5 I6]. split.
  - rewrite Ha. unfold keys. rewrite map_app. simpl.
    now rewrite <- app_assoc.
  - rewrite Ha, map_app. simpl.
    apply NoDup_rev in I2. rewrite <- (rev_involutive (_ ++ _)).
    apply NoDup_rev. rewrite rev_app_distr. simpl. constructor; [|exact I2].
    rewrite <- in_rev. eapply _is_consistent_free; eauto.
  - rewrite Ha, map_app. simpl. apply incl_app; [exact I3|].
    intros x [<-|[]]. exact Hgrid.
  - exact Hd.
  - intros c Hin. rewrite Hk. apply I5. now right.
  - intros a c Hin. rewrite Hk. rewrite Hg in Hin. exact (I6 a c Hin).
Qed.

(** The search does not depend on the order in which [_forward_check]
    walks the neighbours: a failed check leaves other domains behind,
    but the caller restores the domains it saved. *)
Lemma try_slots_walk grid next next' subject pending :
  (forall self : Scheduler,
      search_inv grid pending self -> next self = next' self) ->
  (forall self : Scheduler,
      search_inv grid pending self ->
      search_post grid pending self (next self)) ->
  forall possible_slots (self : Scheduler),
    incl possible_slots grid ->
    search_inv grid (subject :: pending) self ->
    try_slots iter_set next subject possible_slots self
    = try_slots iter_set' next' subject possible_slots self.
Proof.
  intros Hsame Hspec.
  induction possible_slots as [|[d s] rest IH]; intros self Hincl Hinv.
  - reflexivity.
  - assert (Hrest : incl rest grid) by (intros x Hx; apply Hincl; now right).
    simpl. destruct (_is_consistent self subject d s) eqn:Ec;
      [|now apply IH].
    assert (Hfresh : ~ In subject (keys (assignment self))).
    { intros Hin. pose proof (inv_subjects Hinv) as Hnd.
      apply NoDup_remove_2 in Hnd. apply Hnd. apply in_or_app. now left. }
    set (self1 := set_assignment
                    (dict_set subject (d, s) (assignment self)) self).
    assert (Hkeys : forall c,
               In c (iter_set (conflicts_get subject (conflicts self1))) ->
               In c (keys (domains self1))).
    { intros c Hc. apply (inv_neighbours Hinv subject).
      eapply Permutation_in; [apply iter_set_perm | exact Hc]. }
    assert (Hwalk : Permutation
                      (iter_set (conflicts_get subject (conflicts self1)))
                      (iter_set' (conflicts_get subject (conflicts self1)))).
    { eapply perm_trans; [apply iter_set_perm|].
      apply Permutation_sym, iter_set_perm'. }
    destruct (@forward_check_order _ d s _ _ Hwalk self1 Hkeys)
      as [Hfst Hsnd].
    unfold _forward_check.
    destruct (@forward_check_loop_total _
                (iter_set (conflicts_get subject (conflicts self1)))
                d s self1 Hkeys) as (checked & self2 & Efc).
    rewrite Efc in Hfst, Hsnd |- *.
    destruct (forward_check_loop
                (iter_set' (conflicts_get subject (conflicts self1)))
                d s self1) as [r2 self2'] eqn:Efc'.
    cbn [fst snd] in Hfst, Hsnd. subst r2.
    apply forward_check_loop_frame in Efc, Efc'.
    destruct Efc as (Hc2 & Hg2 & Ha2 & Hn2 & Hr2 & Hk2 & Hd2).
    destruct Efc' as (Hc2' & Hg2' & Ha2' & Hn2' & Hr2' & _ & _).
    assert (Hinv_self : forall self0 : Scheduler,
               conflicts self0 = conflicts self ->
               assignment self0 = assignment self ->
               domains self0 = domains self ->
               try_slots iter_set next subject rest self0
               = try_slots iter_set' next' subject rest self0).
    { intros self0 Hg0 Ha0 Hd0. apply IH; [exact Hrest|].
      exact (@search_inv_same grid (subject :: pending) self self0
                              Hinv Hg0 Ha0 Hd0). }
    destruct checked.
    + rewrite <- (Hsnd eq_refl).
      assert (Hinv2 : search_inv grid pending self2).
      { apply (@search_inv_step grid subject pending self self2 d s);
          auto; [apply Hincl; now left | apply Hd2, (inv_domains Hinv)]. }
      rewrite <- (Hsame self2 Hinv2).
      destruct (Hspec self2 Hinv2) as (_ & Hg3 & H3).
      destruct (next self2) as [r3 self3]. simpl in Hg3, H3.
      destruct r3 as [[|]|e]; try reflexivity.
      destruct H3 as (Ha3 & Hd3).
      assert (Ea : assignment self3
                   = dict_set subject (d, s) (assignment self))
        by (rewrite Ha3, Ha2; reflexivity).
      rewrite Ea, dict_del_set_absent by assumption.
      apply Hinv_self; simpl; auto.
      rewrite Hg3, Hg2. reflexivity.
    + assert (Ea : assignment self2
                   = dict_set subject (d, s) (assignment self))
        by (rewrite Ha2; reflexivity).
      assert (Ea' : assignment self2'
                    = dict_set subject (d, s) (assignment self))
        by (rewrite Ha2'; reflexivity).
      rewrite Ea, Ea', dict_del_set_absent by assumption.
      assert (E : _restore_domains (set_assignment (assignment self) self2)
                                   (domains self)
                  = _restore_domains (set_assignment (assignment self) self2')
                                     (domains self)).
      { unfold _restore_domains, set_domains, set_assignment. simpl.
        congruence. }
      unfold _save_domains. simpl domains.
      rewrite <- E. apply Hinv_self; simpl; auto.
Qed.

Lemma backtrack_from_walk grid pending :
  forall self : Scheduler,
    search_inv grid pending self ->
    _backtrack_from shuffle iter_set pending self
    = _backtrack_from shuffle iter_set' pending self.
Proof.
  induction pending as [|subject pending IH]; intros self Hinv.
  - reflexivity.
  - simpl. destruct (dict_get subject (domains self)) as [dom|] eqn:Eg;
      [|reflexivity].
    destruct (shuffle (rng self) dom) as [possible_slots g] eqn:Es.
    apply (@try_slots_walk grid _ _ subject pending IH
             (@backtrack_from_spec _ shuffle iter_set iter_set_perm
                                   shuffle_perm grid pending)).
    + assert (Hd : incl dom grid)
        by (eapply domains_within_get; [apply (inv_domains Hinv) | exact Eg]).
      intros x Hx. apply Hd.
      eapply Permutation_in; [apply shuffle_perm|].
      rewrite Es. exact Hx.
    + destruct Hinv. split; simpl; assumption.
Qed.

Lemma conflicts_walked (graph : list (Subject * list Subject))
    (subjs : list Subject) :
  forall d1 d2,
    Forall2 (fun kv1 kv2 => fst kv1 = fst kv2
                            /\ Permutation (snd kv1) (snd kv2)) d1 d2 ->
    Forall2 (fun kv1 kv2 => fst kv1 = fst kv2
                            /\ Permutation (snd kv1) (snd kv2))
            (fold_left (fun d s => dict_set s (iter_set (conflicts_get s graph))
                                            d) subjs d1)
            (fold_left (fun d s => dict_set s (iter_set' (conflicts_get s
                graph))
                                            d) subjs d2).
Proof.
  induction subjs as [|x subjs IH]; intros d1 d2 H; simpl; [exact H|].
  apply IH. apply dict_set_walked; [|exact H].
  eapply perm_trans; [apply iter_set_perm|].
  apply Permutation_sym, iter_set_perm'.
Qed.

Lemma generate_timetable_walk cfg g :
  valid_TimetableConfig cfg = true ->
  same_outcome (fst (generate_timetable seed shuffle iter_set cfg g))
               (fst (generate_timetable seed shuffle iter_set' cfg g)).
Proof.
  intros Hv.
  unfold generate_timetable, TimetableScheduler_generate_timetable.
  simpl config.
  destruct (validate_config_walk cfg) as [Hfst Hperm].
  destruct (validate_config iter_set cfg) as [v errs] eqn:Ev.
  destruct (validate_config iter_set' cfg) as [v' errs'] eqn:Ev'.
  simpl in Hfst, Hperm. subst v'.
  destruct v; simpl negb; cbv iota.
  - assert (Hval : fst (validate_config iter_set cfg) = true)
      by now rewrite Ev.
    destruct (total_slots cfg <? length (subjects cfg));
      [simpl; repeat split; apply same_other|].
    unfold _backtrack. simpl skipn.
    match goal with
    | |- context [_backtrack_from shuffle iter_set ?p ?s] =>
        rewrite <- (@backtrack_from_walk (all_slots cfg) p s
                      (@initial_inv _ seed iter_set iter_set_perm
                                    cfg g Hv Hval));
        destruct (_backtrack_from shuffle iter_set p s) as [r self']
    end.
    destruct r as [[|]|e]; simpl.
    + reflexivity.
    + repeat split. constructor. apply conflicts_walked. constructor.
    + repeat split. apply same_other.
  - simpl. repeat split. now constructor.
Qed.

(** C6, as the code has it.  Take a configuration with [random_seed]
    set and two runs on it, each finding the generator in some state.
    Within one run of the interpreter, where sets are walked in one
    order, the outcomes are equal, final scheduler included.  Two runs
    that walk their sets of strings in different orders agree as
    follows, when the constructors accept the configuration.  If one run
    returns a timetable, so does the other, and it is the same timetable;
    the hall allocation and the external result of the two runs are the
    same as well.  If one run raises, the other raises an exception of
    the same class with the same message, and the diagnostics of the two
    differ at most in the order of the validation errors and of the
    conflicts listed for a subject. *)
Theorem determinism_under_seed cfg hc n (g1 g2 : RNG) :
  random_seed cfg = Some n ->
  (generate_timetable seed shuffle iter_set cfg g1
   = generate_timetable seed shuffle iter_set cfg g2
   /\ generate_schedule seed shuffle iter_set cfg hc g1
      = generate_schedule seed shuffle iter_set cfg hc g2)
  /\ (valid_TimetableConfig cfg = true ->
      same_outcome (fst (generate_timetable seed shuffle iter_set cfg g1))
                   (fst (generate_timetable seed shuffle iter_set' cfg g2))
      /\ same_outcome (generate_schedule seed shuffle iter_set cfg hc g1)
                      (generate_schedule seed shuffle iter_set' cfg hc g2)).
Proof.
  intros Hs.
  assert (E : forall o,
             generate_timetable seed shuffle o cfg g1
             = generate_timetable seed shuffle o cfg g2).
  { intros o. unfold generate_timetable, TimetableScheduler_init.
    now rewrite Hs. }
  split.
  { split; [apply E|]. unfold generate_schedule. now rewrite E. }
  intros Hv.
  assert (H1 : same_outcome
                 (fst (generate_timetable seed shuffle iter_set cfg g1))
                 (fst (generate_timetable seed shuffle iter_set' cfg g2))).
  { rewrite <- (E iter_set'). now apply generate_timetable_walk. }
  split; [exact H1|].
  unfold generate_schedule.
  destruct (fst (generate_timetable seed shuffle iter_set cfg g1))
    as [tt1|e1],
    (fst (generate_timetable seed shuffle iter_set' cfg g2)) as [tt2|e2];
    simpl in H1; try contradiction.
  - subst tt2. destruct (allocate_halls tt1 hc) as [res|e]; simpl.
    + reflexivity.
    + repeat split. apply same_other.
  - exact H1.
Qed.
End Determinism.

(** ** The greedy hall allocation *)

(** [remaining] after the allocations [entries] have been subtracted from
    it, in order. *)
Definition replay (entries remaining : list (Subject * Z))
  : list (Subject * Z) :=
  fold_left (fun d kv => dict_sub (fst kv) (snd kv) d) entries remaining.

(** The seats that [entries] give to [subject]. *)
Definition seats_of (subject : Subject) (entries : list (Subject * Z)) : Z :=
  sum_values (filter (fun kv => String.eqb (fst kv) subject) entries).

(** *** Demand

    The demand of a subject as the specification defines it: the sum of
    [size] over the groups enrolled in the subject.  [subject_students_of]
    is the dictionary the code computes; the lemmas below relate the two. *)

Definition enrolled (k : Subject) (grp : StudentGroup) : bool :=
  mem k (group_subjects grp).

Definition demand (groups : list StudentGroup) (k : Subject) : Z :=
  fold_right Z.add 0%Z (map group_size (filter (enrolled k) groups)).

(** The demand of all subjects scheduled in a slot. *)
Definition slot_demand (timetable : TimetableResult) (d s : nat) : Z :=
  fold_right Z.add 0%Z
    (map (demand (groups (tt_config timetable)))
         (subjects_in_slot_of timetable d s)).

(** The assignments of one slot in a result, and the seats a subject gets
    there. *)
Definition in_slot (d s : nat) (a : HallAssignment) : bool :=
  (ha_day a =? d) && (ha_slot a =? s).

Definition seated (res : HallAllocationResult) (d s : nat) (k : Subject)
  : Z :=
  seats_of k (concat (map allocations
                          (filter (in_slot d s) (hall_assignments res)))).

(** Day-major order of slots. *)
Definition slot_lt (a b : Slot) : Prop :=
  fst a < fst b \/ (fst a = fst b /\ snd a < snd b).

Definition slot_le (a b : Slot) : Prop := a = b \/ slot_lt a b.

Definition slot_of (a : HallAssignment) : Slot := (ha_day a, ha_slot a).

(** [Subseq l1 l2]: [l1] is [l2] with some elements left out. *)
Inductive Subseq {A : Type} : list A -> list A -> Prop :=
| Subseq_nil : Subseq [] []
| Subseq_skip x l1 l2 : Subseq l1 l2 -> Subseq l1 (x :: l2)
| Subseq_take x l1 l2 : Subseq l1 l2 -> Subseq (x :: l1) (x :: l2).

(** All entries of a list of assignments, in order. *)
Definition all_entries (l : list HallAssignment) : list (Subject * Z) :=
  concat (map allocations l).

Section AllocatorFacts.
Variable self : HallAllocator.

(** The entries a hall receives, in the order the loop records them, from
    the moment [remaining] is the demand left and [used] seats of the hall
    are taken: each amount is the one [allocate_amount_of] computes at that
    moment from the subject's remaining demand. *)
Inductive hall_entries (hall : Hall)
  : list (Subject * Z) -> Z -> list (Subject * Z) -> Prop :=
| hall_entries_nil remaining used : hall_entries hall remaining used []
| hall_entries_cons remaining used k count n entries :
    dict_get k remaining = Some count ->
    n = allocate_amount_of self remaining hall used count ->
    (0 < n)%Z ->
    (used < capacity hall)%Z ->
    hall_entries hall (dict_sub k n remaining) (used + n)%Z entries ->
    hall_entries hall remaining used ((k, n) :: entries).

(** The assignments of one slot, hall after hall, from the demand
    [remaining] down to the demand [final] that is left when the loop
    stops. *)
Inductive packed (d s : nat)
  : list Hall -> list (Subject * Z) -> list HallAssignment
    -> list (Subject * Z) -> Prop :=
| packed_done pending remaining :
    existsb has_students remaining = false ->
    packed d s pending remaining [] remaining
| packed_skip hall pending remaining new final :
    existsb has_students remaining = true ->
    packed d s pending remaining new final ->
    packed d s (hall :: pending) remaining new final
| packed_fill hall pending remaining entries new final :
    existsb has_students remaining = true ->
    entries <> [] ->
    hall_entries hall remaining 0%Z entries ->
    packed d s pending (replay entries remaining) new final ->
    packed d s (hall :: pending) remaining
           (mkHallAssignment (name hall) d s entries :: new) final.

(** The snapshot [subjects_with_students] agrees with [remaining] on the
    subjects still to come. *)
Definition in_sync (snapshot remaining : list (Subject * Z)) : Prop :=
  NoDup (map fst snapshot)
  /\ forall k c, In (k, c) snapshot -> dict_get k remaining = Some c.

Lemma dict_get_sub_neq k k' n (d : list (Subject * Z)) :
  k <> k' -> dict_get k (dict_sub k' n d) = dict_get k d.
Proof.
  intros Hne. unfold dict_sub. destruct (dict_get k' d); [|reflexivity].
  now apply dict_get_set_neq.
Qed.

Lemma keys_dict_sub k n (d : list (Subject * Z)) :
  keys (dict_sub k n d) = keys d.
Proof.
  unfold dict_sub. destruct (dict_get k d) eqn:E; [|reflexivity].
  apply keys_dict_set_present. eapply dict_get_Some_key; eauto.
Qed.

Lemma keys_replay entries (d : list (Subject * Z)) :
  keys (replay entries d) = keys d.
Proof.
  revert d. induction entries as [|[k n] entries IH]; intros d; simpl.
  - reflexivity.
  - unfold replay in *. simpl. rewrite IH. apply keys_dict_sub.
Qed.

Lemma fill_hall_entries hall snapshot :
  forall remaining hall_allocation used,
    in_sync snapshot remaining ->
    exists entries,
      fill_hall self hall snapshot remaining hall_allocation used
      = (hall_allocation ++ entries, replay entries remaining)
      /\ hall_entries hall remaining used entries.
Proof.
  induction snapshot as [|[k c] rest IH];
    intros remaining hall_allocation used [Hnd Hget]; simpl.
  - exists []. rewrite app_nil_r. split; [reflexivity | constructor].
  - destruct (capacity hall <=? used)%Z eqn:Ecap.
    + exists []. rewrite app_nil_r. split; [reflexivity | constructor].
    + apply Z.leb_gt in Ecap. inversion Hnd as [|? ? Hk Hnd']. subst.
      destruct (0 <? allocate_amount_of self remaining hall used c)%Z eqn:En.
      * apply Z.ltb_lt in En.
        set (n := allocate_amount_of self remaining hall used c) in *.
        destruct (IH (dict_sub k n remaining)
                     (hall_allocation ++ [(k, n)]) (used + n)%Z)
          as [entries [E He]].
        { split; [exact Hnd'|]. intros k' c' Hin.
          rewrite dict_get_sub_neq; [apply Hget; now right|].
          intros ->. apply Hk. simpl. apply in_map_iff.
          now exists (k, c'). }
        exists ((k, n) :: entries). rewrite E, <- app_assoc. simpl.
        split; [reflexivity|].
        apply hall_entries_cons with (count := c); auto.
        apply Hget. now left.
      * destruct (IH remaining hall_allocation used) as [entries [E He]].
        { split; [exact Hnd'|]. intros k' c' Hin. apply Hget. now right. }
        exists entries. auto.
Qed.

Lemma in_sync_snapshot (remaining : list (Subject * Z)) :
  NoDup (keys remaining) ->
  in_sync (subjects_with_students_of remaining) remaining.
Proof.
  intros Hnd. unfold subjects_with_students_of.
  assert (Hp : Permutation (sorted_reverse snd (filter has_students remaining))
                           (filter has_students remaining))
    by apply sorted_reverse_perm.
  split.
  - eapply Permutation_NoDup;
      [apply Permutation_map, Permutation_sym, Hp|].
    clear Hp. unfold keys in Hnd.
    induction remaining as [|[k c] l IH]; simpl; [constructor|].
    inversion Hnd as [|? ? Hk Hnd']. subst.
    destruct (has_students (k, c)); simpl; [|now apply IH].
    constructor; [|now apply IH].
    intros Hin. apply Hk. apply in_map_iff in Hin.
    destruct Hin as [kv [E Hin]]. apply filter_In in Hin.
    apply in_map_iff. exists kv. tauto.
  - intros k c Hin. apply (Permutation_in _ Hp) in Hin.
    apply filter_In in Hin. apply In_dict_get; tauto.
Qed.

Lemma greedy_loop_acc d s pending :
  forall remaining acc,
    greedy_loop self d s pending remaining acc
    = match greedy_loop self d s pending remaining [] with
      | Ok new => Ok (acc ++ new)
      | Raise e => Raise e
      end.
Proof.
  induction pending as [|hall pending IH]; intros remaining acc; simpl.
  - destruct (existsb has_students remaining);
      [reflexivity | now rewrite app_nil_r].
  - destruct (existsb has_students remaining); [|now rewrite app_nil_r].
    destruct (fill_hall self hall _ remaining [] 0%Z) as [ha rem'].
    rewrite IH. rewrite (IH rem' (if is_empty ha then [] else _)).
    destruct (greedy_loop self d s pending rem' []) as [new|e];
      [|reflexivity].
    destruct (is_empty ha); simpl; [reflexivity|].
    now rewrite <- app_assoc.
Qed.

Lemma greedy_loop_packed d s pending :
  forall remaining new,
    NoDup (keys remaining) ->
    greedy_loop self d s pending remaining [] = Ok new ->
    exists final, packed d s pending remaining new final.
Proof.
  induction pending as [|hall pending IH]; intros remaining new Hnd; simpl.
  - destruct (existsb has_students remaining) eqn:E; [discriminate|].
    intros [= <-]. exists remaining. now constructor.
  - destruct (existsb has_students remaining) eqn:E.
    + destruct (@fill_hall_entries hall _ _ [] 0%Z
                                   (@in_sync_snapshot remaining Hnd))
        as [entries [Ef He]].
      rewrite Ef. simpl app. rewrite greedy_loop_acc.
      destruct (greedy_loop self d s pending (replay entries remaining) [])
        as [new'|e] eqn:Eg; [|discriminate].
      apply IH in Eg; [|rewrite keys_replay; exact Hnd].
      destruct Eg as [final Hp].
      destruct entries as [|e0 entries]; simpl.
      * intros [= <-]. exists final. apply packed_skip; assumption.
      * intros [= <-]. exists final. apply packed_fill; try assumption.
        discriminate.
    + intros [= <-]. exists remaining. now constructor.
Qed.

(** *** One hall *)

Lemma allocate_amount_of_le remaining hall used count :
  (allocate_amount_of self remaining hall used count <= count)%Z
  /\ (allocate_amount_of self remaining hall used count
      <= capacity hall - used)%Z.
Proof.
  unfold allocate_amount_of.
  destruct (length (filter has_students remaining) =? 1); lia.
Qed.

Lemma sum_values_app (a b : list (Subject * Z)) :
  sum_values (a ++ b) = (sum_values a + sum_values b)%Z.
Proof.
  unfold sum_values. rewrite map_app.
  induction (map snd a) as [|x l IH]; simpl; lia.
Qed.

Lemma sum_values_dict_set k v c (d : list (Subject * Z)) :
  dict_get k d = Some c ->
  sum_values (dict_set k v d) = (sum_values d - c + v)%Z.
Proof.
  induction d as [|[k' v'] d IH]; simpl; [discriminate|].
  destruct (String.eqb k k') eqn:E.
  - intros [= ->]. unfold sum_values. simpl. lia.
  - intros H. apply IH in H. unfold sum_values in *. simpl. lia.
Qed.

Lemma sum_values_dict_sub k n c (d : list (Subject * Z)) :
  dict_get k d = Some c ->
  sum_values (dict_sub k n d) = (sum_values d - n)%Z.
Proof.
  intros H. unfold dict_sub. rewrite H.
  rewrite (@sum_values_dict_set k (c - n)%Z c d H). lia.
Qed.

(** No value of the dictionary is negative. *)
Definition nonneg (d : list (Subject * Z)) : Prop :=
  Forall (fun kv => (0 <= snd kv)%Z) d.

Lemma nonneg_dict_sub k n c (d : list (Subject * Z)) :
  dict_get k d = Some c -> (n <= c)%Z -> nonneg d -> nonneg (dict_sub k n d).
Proof.
  intros Hg Hn Hd. unfold dict_sub. rewrite Hg. unfold nonneg in *.
  rewrite Forall_forall in *. intros [k' v'] Hin.
  apply In_dict_set in Hin. destruct Hin as [E|Hin].
  - inversion E. subst. simpl. lia.
  - now apply Hd.
Qed.

Lemma replay_app a b (d : list (Subject * Z)) :
  replay (a ++ b) d = replay b (replay a d).
Proof. unfold replay. apply fold_left_app. Qed.

Lemma hall_entries_positive hall remaining used entries :
  hall_entries hall remaining used entries ->
  Forall (fun kv => (0 < snd kv)%Z) entries.
Proof. induction 1; constructor; auto. Qed.

Lemma hall_entries_keys hall remaining used entries :
  hall_entries hall remaining used entries ->
  Forall (fun kv => In (fst kv) (keys remaining)) entries.
Proof.
  induction 1 as [|remaining used k count n entries Hg Hn Hp Hu _ IH];
    constructor.
  - simpl. eapply dict_get_Some_key; eauto.
  - now rewrite keys_dict_sub in IH.
Qed.

Lemma hall_entries_capacity hall remaining used entries :
  hall_entries hall remaining used entries ->
  entries = [] \/ (used + sum_values entries <= capacity hall)%Z.
Proof.
  induction 1 as [|remaining used k count n entries Hg Hn Hp Hu _ IH];
    [now left|right].
  pose proof (allocate_amount_of_le remaining hall used count) as [_ Hle].
  rewrite <- Hn in Hle.
  change (sum_values ((k, n) :: entries)) with (n + sum_values entries)%Z.
  destruct IH as [->|IH]; [unfold sum_values; simpl|]; lia.
Qed.

Lemma hall_entries_sum hall remaining used entries :
  hall_entries hall remaining used entries ->
  sum_values (replay entries remaining)
  = (sum_values remaining - sum_values entries)%Z.
Proof.
  induction 1 as [|remaining used k count n entries Hg Hn Hp Hu _ IH].
  - unfold sum_values at 3. simpl. lia.
  - change (replay ((k, n) :: entries) remaining)
      with (replay entries (dict_sub k n remaining)).
    rewrite IH, (@sum_values_dict_sub k n count remaining Hg).
    change (sum_values ((k, n) :: entries)) with (n + sum_values entries)%Z.
    lia.
Qed.

Lemma hall_entries_nonneg hall remaining used entries :
  hall_entries hall remaining used entries ->
  nonneg remaining -> nonneg (replay entries remaining).
Proof.
  induction 1 as [|remaining used k count n entries Hg Hn Hp Hu _ IH];
    intros Hd; [exact Hd|].
  apply IH. apply nonneg_dict_sub with (c := count); auto.
  rewrite Hn. apply allocate_amount_of_le.
Qed.

Lemma hall_entries_inv hall remaining used k n entries :
  hall_entries hall remaining used ((k, n) :: entries) ->
  exists count,
    dict_get k remaining = Some count
    /\ n = allocate_amount_of self remaining hall used count
    /\ (0 < n)%Z /\ (used < capacity hall)%Z
    /\ hall_entries hall (dict_sub k n remaining) (used + n)%Z entries.
Proof.
  intros H. inversion H as [|? ? ? count ? ? Hg Hn Hp Hu He].
  exists count. auto.
Qed.

(** The state at the moment an entry is recorded is the state after the
    entries before it. *)
Lemma hall_entries_split hall remaining used before k n after :
  hall_entries hall remaining used (before ++ (k, n) :: after) ->
  exists count,
    dict_get k (replay before remaining) = Some count
    /\ n = allocate_amount_of self (replay before remaining) hall
                              (used + sum_values before)%Z count.
Proof.
  revert remaining used.
  induction before as [|[k0 n0] before IH]; intros remaining used H;
    apply hall_entries_inv in H;
    destruct H as (count & Hg & Hn & Hp & Hu & He).
  - exists count. unfold sum_values. simpl. rewrite Z.add_0_r. auto.
  - destruct (IH _ _ He) as [c [Hc Hn']].
    exists c.
    change (replay ((k0, n0) :: before) remaining)
      with (replay before (dict_sub k0 n0 remaining)).
    change (sum_values ((k0, n0) :: before))
      with (n0 + sum_values before)%Z.
    rewrite Z.add_assoc. auto.
Qed.

Lemma dict_get_replay k v entries (d : list (Subject * Z)) :
  dict_get k d = Some v ->
  dict_get k (replay entries d) = Some (v - seats_of k entries)%Z.
Proof.
  revert d v. induction entries as [|[k0 n0] entries IH]; intros d v Hg.
  - unfold seats_of, sum_values. simpl. rewrite Hg. f_equal. lia.
  - change (replay ((k0, n0) :: entries) d)
      with (replay entries (dict_sub k0 n0 d)).
    unfold seats_of. simpl filter.
    destruct (String.eqb k0 k) eqn:E.
    + apply String.eqb_eq in E. subst k0.
      rewrite (IH _ (v - n0)%Z).
      * change (sum_values ((k, n0) :: ?l)) with (n0 + sum_values l)%Z.
        unfold seats_of. f_equal. unfold sum_values. simpl. lia.
      * unfold dict_sub. rewrite Hg. apply dict_get_set_eq.
    + apply String.eqb_neq in E. rewrite (IH _ v); [reflexivity|].
      rewrite dict_get_sub_neq; auto.
Qed.

Lemma seats_of_absent k entries :
  ~ In k (map fst entries) -> seats_of k entries = 0%Z.
Proof.
  unfold seats_of. induction entries as [|[k0 n0] entries IH]; simpl.
  - reflexivity.
  - intros H. destruct (String.eqb k0 k) eqn:E.
    + apply String.eqb_eq in E. tauto.
    + apply IH. tauto.
Qed.

Lemma seats_of_app k a b :
  seats_of k (a ++ b) = (seats_of k a + seats_of k b)%Z.
Proof. unfold seats_of. rewrite filter_app. apply sum_values_app. Qed.

(** *** One slot *)

Lemma Subseq_nil_l {A} (l : list A) : Subseq [] l.
Proof. induction l; constructor; auto. Qed.

Lemma Subseq_In {A} (l1 l2 : list A) x : Subseq l1 l2 -> In x l1 -> In x l2.
Proof.
  induction 1; simpl; auto.
  - intros [->|H']; auto.
Qed.

Lemma packed_final d s pending remaining new final :
  packed d s pending remaining new final ->
  final = replay (all_entries new) remaining
  /\ existsb has_students final = false.
Proof.
  induction 1 as [| |hall pending remaining entries new final _ _ _ _ IH];
    auto.
  destruct IH as [-> IH]. split; [|exact IH].
  unfold all_entries. simpl. now rewrite replay_app.
Qed.

Lemma packed_tags d s pending remaining new final :
  packed d s pending remaining new final ->
  Forall (fun a => ha_day a = d /\ ha_slot a = s) new.
Proof. induction 1; auto. Qed.

(** The halls that received students, in the order of [pending], each with
    the assignment it received. *)
Lemma packed_halls d s pending remaining new final :
  packed d s pending remaining new final ->
  exists used_halls,
    Subseq used_halls pending
    /\ Forall2 (fun a hall =>
                  hall_name a = name hall
                  /\ (sum_values (allocations a) <= capacity hall)%Z)
               new used_halls.
Proof.
  induction 1 as [pending remaining _
                 |hall pending remaining new final _ _ IH
                 |hall pending remaining entries new final _ Hne He _ IH].
  - exists []. split; [apply Subseq_nil_l | constructor].
  - destruct IH as [hs [Hs Hf]]. exists hs. split; [now constructor | exact Hf].
  - destruct IH as [hs [Hs Hf]]. exists (hall :: hs).
    split; [now constructor|]. constructor; [|exact Hf]. simpl.
    split; [reflexivity|].
    destruct (hall_entries_capacity He) as [->|Hc]; [tauto | lia].
Qed.

Lemma packed_entries d s pending remaining new final :
  packed d s pending remaining new final ->
  Forall (fun a => allocations a <> []
                   /\ Forall (fun kv => (0 < snd kv)%Z) (allocations a)) new.
Proof.
  induction 1 as [| |hall pending remaining entries new final _ Hne He _ IH];
    auto.
  constructor; [|exact IH]. simpl. split; [exact Hne|].
  eapply hall_entries_positive; eauto.
Qed.

Lemma packed_keys d s pending remaining new final :
  packed d s pending remaining new final ->
  Forall (fun kv => In (fst kv) (keys remaining)) (all_entries new).
Proof.
  induction 1 as [| |hall pending remaining entries new final _ Hne He _ IH].
  - constructor.
  - assumption.
  - unfold all_entries. simpl. apply Forall_app. split.
    + eapply hall_entries_keys; eauto.
    + now rewrite keys_replay in IH.
Qed.

Lemma packed_nonneg d s pending remaining new final :
  packed d s pending remaining new final ->
  nonneg remaining -> nonneg final.
Proof.
  induction 1 as [| |hall pending remaining entries new final _ Hne He _ IH];
    auto.
  intros Hd. apply IH. eapply hall_entries_nonneg; eauto.
Qed.

(** C4 for one slot: the amount of an entry is the one computed from the
    demand left after all earlier entries of the slot. *)
Lemma packed_moment d s pending remaining new final :
  packed d s pending remaining new final ->
  forall earlier a later before k n after,
    new = earlier ++ a :: later ->
    allocations a = before ++ (k, n) :: after ->
    exists hall count,
      In hall pending /\ name hall = hall_name a
      /\ dict_get k (replay (all_entries earlier ++ before) remaining)
         = Some count
      /\ n = allocate_amount_of
               self (replay (all_entries earlier ++ before) remaining)
               hall (sum_values before) count.
Proof.
  induction 1 as [pending remaining _
                 |hall pending remaining new final _ _ IH
                 |hall pending remaining entries new final _ Hne He _ IH];
    intros earlier a later before k n after Hnew Ha.
  - destruct earlier; discriminate.
  - destruct (IH _ _ _ _ _ _ _ Hnew Ha) as (h & c & Hin & H').
    exists h, c. split; [now right | exact H'].
  - destruct earlier as [|a0 earlier]; simpl in Hnew.
    + inversion Hnew. subst a later. simpl in Ha. subst entries.
      destruct (hall_entries_split _ _ _ _ He) as [c [Hc Hn]].
      exists hall, c. simpl. split; [now left|]. split; [reflexivity|].
      auto.
    + inversion Hnew. subst a0 new.
      destruct (IH _ _ _ _ _ _ _ eq_refl Ha) as (h & c & Hin & Hname & Hc & Hn).
      exists h, c. split; [now right|]. split; [exact Hname|].
      unfold all_entries in *. simpl.
      rewrite <- app_assoc, replay_app. auto.
Qed.
End AllocatorFacts.

(** *** The demand dictionary of a slot *)

Definition default0 (o : option Z) : Z :=
  match o with Some v => v | None => 0%Z end.

Lemma dict_get_defaultdict_add k k' n (d : list (Subject * Z)) :
  dict_get k (defaultdict_add k' n d)
  = if String.eqb k k' then Some (default0 (dict_get k d) + n)%Z
    else dict_get k d.
Proof.
  unfold defaultdict_add. destruct (String.eqb k k') eqn:E.
  - apply String.eqb_eq in E. subst k'.
    destruct (dict_get k d); simpl; apply dict_get_set_eq.
  - apply String.eqb_neq in E.
    destruct (dict_get k' d); now apply dict_get_set_neq.
Qed.

Lemma keys_defaultdict_add_NoDup k n (d : list (Subject * Z)) :
  NoDup (keys d) -> NoDup (keys (defaultdict_add k n d)).
Proof.
  intros H. unfold defaultdict_add.
  destruct (dict_get k d); now apply keys_dict_set_NoDup.
Qed.

Lemma sum_values_defaultdict_add k n (d : list (Subject * Z)) :
  sum_values (defaultdict_add k n d) = (sum_values d + n)%Z.
Proof.
  unfold defaultdict_add. destruct (dict_get k d) as [v|] eqn:E.
  - rewrite (@sum_values_dict_set k (v + n)%Z v d E). lia.
  - apply dict_get_None in E. rewrite dict_set_absent by assumption.
    rewrite sum_values_app. unfold sum_values at 2. simpl. lia.
Qed.

Lemma In_keys_defaultdict_add k k' n (d : list (Subject * Z)) :
  In k (keys (defaultdict_add k' n d)) -> k = k' \/ In k (keys d).
Proof.
  intros H. destruct (string_dec k k') as [|Hne]; [now left|right].
  apply dict_mem_In. apply dict_mem_In in H. unfold dict_mem in *.
  rewrite dict_get_defaultdict_add in H.
  apply String.eqb_neq in Hne. now rewrite Hne in H.
Qed.

Section Demand.
Variable grps : list StudentGroup.
Variable sis : list Subject.

(** The inner loop of [_allocate_slot] for one group. *)
Definition count_group (acc : list (Subject * Z)) (group : StudentGroup)
  : list (Subject * Z) :=
  fold_left
    (fun acc subject =>
       if mem subject (group_subjects group)
       then defaultdict_add subject (group_size group) acc
       else acc)
    sis acc.

Lemma subject_students_of_fold :
  subject_students_of grps sis = fold_left count_group grps [].
Proof. reflexivity. Qed.

Lemma count_group_get group k :
  NoDup sis ->
  forall acc,
    dict_get k (count_group acc group)
    = if mem k sis && enrolled k group
      then Some (default0 (dict_get k acc) + group_size group)%Z
      else dict_get k acc.
Proof.
  unfold count_group, enrolled.
  induction sis as [|x l IH]; intros Hnd acc; simpl; [reflexivity|].
  inversion Hnd as [|? ? Hx Hnd']. subst.
  rewrite (IH Hnd'). unfold mem at 2. simpl.
  destruct (String.eqb k x) eqn:E.
  - apply String.eqb_eq in E. subst x.
    assert (Hm : mem k l = false) by now apply mem_false.
    rewrite Hm. simpl.
    destruct (mem k (group_subjects group)); [|reflexivity].
    rewrite dict_get_defaultdict_add, String.eqb_refl. reflexivity.
  - change (existsb (String.eqb k) l) with (mem k l). simpl.
    assert (Hg : dict_get k (if mem x (group_subjects group)
                             then defaultdict_add x (group_size group) acc
                             else acc) = dict_get k acc).
    { destruct (mem x (group_subjects group)); [|reflexivity].
      rewrite dict_get_defaultdict_add. now rewrite E. }
    now rewrite Hg.
Qed.

Lemma demand_cons group gs k :
  demand (group :: gs) k
  = ((if enrolled k group then group_size group else 0) + demand gs k)%Z.
Proof.
  unfold demand. simpl. destruct (enrolled k group); reflexivity.
Qed.

Lemma demand_none gs k :
  existsb (enrolled k) gs = false -> demand gs k = 0%Z.
Proof.
  induction gs as [|g gs IH]; [reflexivity|]. simpl.
  intros H. apply orb_false_iff in H. destruct H as [H1 H2].
  rewrite demand_cons, H1, IH by assumption. reflexivity.
Qed.

Lemma fold_count_group_get k :
  NoDup sis ->
  forall gs acc,
    dict_get k (fold_left count_group gs acc)
    = if mem k sis && existsb (enrolled k) gs
      then Some (default0 (dict_get k acc) + demand gs k)%Z
      else dict_get k acc.
Proof.
  intros Hnd. induction gs as [|g gs IH]; intros acc; simpl.
  - now rewrite andb_false_r.
  - rewrite IH, (count_group_get g k Hnd), demand_cons.
    destruct (mem k sis); simpl; [|reflexivity].
    destruct (enrolled k g) eqn:Eg, (existsb (enrolled k) gs) eqn:Ee; simpl;
      try reflexivity.
    + f_equal. lia.
    + rewrite demand_none by assumption. f_equal. lia.
Qed.

(** With each subject listed once in the slot, the dictionary holds the
    demand of every subject of the slot in which some group is enrolled,
    and nothing else. *)
Lemma subject_students_of_get k :
  NoDup sis ->
  dict_get k (subject_students_of grps sis)
  = if mem k sis && existsb (enrolled k) grps
    then Some (demand grps k) else None.
Proof.
  intros Hnd. rewrite subject_students_of_fold, fold_count_group_get by auto.
  simpl. destruct (_ && _); reflexivity.
Qed.

Lemma count_group_keys group acc :
  NoDup (keys acc) -> NoDup (keys (count_group acc group)).
Proof.
  unfold count_group. revert acc.
  induction sis as [|x l IH]; intros acc H; simpl; [exact H|].
  apply IH. destruct (mem x (group_subjects group)); [|exact H].
  now apply keys_defaultdict_add_NoDup.
Qed.

Lemma subject_students_of_keys : NoDup (keys (subject_students_of grps sis)).
Proof.
  rewrite subject_students_of_fold.
  assert (G : forall gs acc, NoDup (keys acc) ->
                             NoDup (keys (fold_left count_group gs acc))).
  { induction gs as [|g gs IH]; intros acc H; simpl; [exact H|].
    apply IH. now apply count_group_keys. }
  apply G. constructor.
Qed.

Lemma count_group_In group k acc :
  In k (keys (count_group acc group)) -> In k sis \/ In k (keys acc).
Proof.
  unfold count_group. revert acc.
  induction sis as [|x l IH]; intros acc; simpl; [tauto|].
  intros H. apply IH in H. destruct H as [H|H]; [tauto|].
  destruct (mem x (group_subjects group)); [|tauto].
  apply In_keys_defaultdict_add in H. destruct H as [->|H]; tauto.
Qed.

Lemma subject_students_of_In k :
  In k (keys (subject_students_of grps sis)) -> In k sis.
Proof.
  rewrite subject_students_of_fold.
  assert (G : forall gs acc, In k (keys (fold_left count_group gs acc)) ->
                             In k sis \/ In k (keys acc)).
  { induction gs as [|g gs IH]; intros acc; simpl; [tauto|].
    intros H. apply IH in H. destruct H as [H|H]; [tauto|].
    now apply count_group_In in H. }
  intros H. apply G in H. destruct H as [H|[]]. exact H.
Qed.

(** The values of the dictionary add up to the demand of the slot. *)
Lemma count_group_sum group acc :
  sum_values (count_group acc group)
  = (sum_values acc
     + fold_right Z.add 0
         (map (fun k => if enrolled k group then group_size group else 0)
              sis))%Z.
Proof.
  unfold count_group, enrolled. revert acc.
  induction sis as [|x l IH]; intros acc; simpl; [lia|].
  rewrite IH. destruct (mem x (group_subjects group)); [|lia].
  rewrite sum_values_defaultdict_add. lia.
Qed.

Lemma subject_students_of_sum :
  sum_values (subject_students_of grps sis)
  = fold_right Z.add 0%Z (map (demand grps) sis).
Proof.
  rewrite subject_students_of_fold.
  assert (G : forall gs acc,
             sum_values (fold_left count_group gs acc)
             = (sum_values acc + fold_right Z.add 0 (map (demand gs) sis))%Z).
  { induction gs as [|g gs IH]; intros acc; simpl.
    - assert (Z0 : fold_right Z.add 0%Z (map (demand []) sis) = 0%Z)
        by (clear; induction sis; simpl; auto).
      rewrite Z0. lia.
    - rewrite IH, count_group_sum.
      assert (Hs : fold_right Z.add 0%Z (map (demand (g :: gs)) sis)
                   = (fold_right Z.add 0
                        (map (fun k => if enrolled k g then group_size g
                                       else 0) sis)
                      + fold_right Z.add 0 (map (demand gs) sis))%Z).
      { clear. induction sis as [|x l IHl]; simpl; [reflexivity|].
        rewrite IHl, demand_cons. lia. }
      rewrite Hs. lia. }
  rewrite G. unfold sum_values. simpl. lia.
Qed.
End Demand.

(** *** All slots *)

Lemma StronglySorted_app {A} (R : A -> A -> Prop) (l1 l2 : list A) :
  StronglySorted R l1 -> StronglySorted R l2 ->
  (forall x y, In x l1 -> In y l2 -> R x y) ->
  StronglySorted R (l1 ++ l2).
Proof.
  induction l1 as [|a l1 IH]; simpl; intros H1 H2 Hc; [exact H2|].
  apply StronglySorted_inv in H1. destruct H1 as [H1 Ha].
  constructor.
  - apply IH; auto.
  - apply Forall_app. split; [exact Ha|].
    apply Forall_forall. intros y Hy. apply Hc; auto.
Qed.

Lemma seq_sorted a n : StronglySorted lt (seq a n).
Proof.
  revert a. induction n as [|n IH]; intros a; simpl; constructor.
  - apply IH.
  - apply Forall_forall. intros x Hx. apply in_seq in Hx. lia.
Qed.

Lemma day_slots_sorted (d : nat) (l : list nat) :
  StronglySorted lt l ->
  StronglySorted slot_lt (map (fun slot => (d, slot)) l).
Proof.
  induction 1 as [|x l Hs IHs Hx]; simpl; constructor; auto.
  rewrite Forall_forall in *. intros y Hy. apply in_map_iff in Hy.
  destruct Hy as [z [<- Hz]]. right. simpl. split; [reflexivity|].
  now apply Hx.
Qed.

Lemma all_slots_sorted cfg : StronglySorted slot_lt (all_slots cfg).
Proof.
  unfold all_slots.
  assert (G : forall n a,
             StronglySorted slot_lt
               (flat_map (fun day => map (fun slot => (day, slot))
                                         (seq 0 (slots_per_day cfg)))
                         (seq a n))); [|apply G].
  induction n as [|n IH]; intros a; simpl; [constructor|].
  apply StronglySorted_app.
  - apply day_slots_sorted, seq_sorted.
  - apply IH.
  - intros x y Hx Hy. apply in_map_iff in Hx. destruct Hx as [sx [<- _]].
    apply in_flat_map in Hy. destruct Hy as [dy [Hdy Hy]].
    apply in_seq in Hdy. apply in_map_iff in Hy. destruct Hy as [sy [<- _]].
    left. simpl. lia.
Qed.

Lemma slot_lt_irrefl a : ~ slot_lt a a.
Proof. unfold slot_lt. lia. Qed.

Lemma sorted_slots_NoDup (l : list Slot) : StronglySorted slot_lt l -> NoDup l.
Proof.
  induction 1 as [|x l Hs IH Hx]; constructor; auto.
  intros Hin. rewrite Forall_forall in Hx.
  exact (slot_lt_irrefl (Hx x Hin)).
Qed.

Lemma all_slots_NoDup cfg : NoDup (all_slots cfg).
Proof. apply sorted_slots_NoDup, all_slots_sorted. Qed.

Lemma in_slot_true d s a : in_slot d s a = true <-> slot_of a = (d, s).
Proof.
  unfold in_slot, slot_of. rewrite andb_true_iff, !Nat.eqb_eq. split.
  - intros [-> ->]. reflexivity.
  - intros [= -> ->]. auto.
Qed.

Lemma filter_in_slot_same d s (l : list HallAssignment) :
  Forall (fun a => ha_day a = d /\ ha_slot a = s) l ->
  filter (in_slot d s) l = l.
Proof.
  induction 1 as [|a l [Hd Hs] _ IH]; simpl; [reflexivity|].
  unfold in_slot at 1. rewrite Hd, Hs, !Nat.eqb_refl. simpl. now rewrite IH.
Qed.

Lemma filter_in_slot_other d s d' s' (l : list HallAssignment) :
  (d, s) <> (d', s') ->
  Forall (fun a => ha_day a = d /\ ha_slot a = s) l ->
  filter (in_slot d' s') l = [].
Proof.
  intros Hne. induction 1 as [|a l [Hd Hs] _ IH]; simpl; [reflexivity|].
  destruct (in_slot d' s' a) eqn:E; [|exact IH].
  apply in_slot_true in E. unfold slot_of in E. congruence.
Qed.

Section SlotFacts.
Variable self : HallAllocator.

Lemma subject_students_of_nil grps : subject_students_of grps [] = [].
Proof.
  unfold subject_students_of. induction grps as [|g grps IH]; auto.
Qed.

(** What a slot's packing returns is described by [packed], from the
    demand dictionary of the slot and the halls in sorted order. *)
Lemma _allocate_slot_packed d s sa :
  _allocate_slot self d s = Ok sa ->
  exists final,
    packed self d s (sorted_halls self)
           (subject_students_of (alloc_groups self)
              (subjects_in_slot_of (alloc_timetable self) d s))
           sa final.
Proof.
  unfold _allocate_slot.
  destruct (subjects_in_slot_of (alloc_timetable self) d s) as [|x l] eqn:E;
    simpl is_empty; cbv iota.
  - intros [= <-]. rewrite subject_students_of_nil. exists [].
    now constructor.
  - unfold _greedy_allocate. apply greedy_loop_packed.
    apply subject_students_of_keys.
Qed.

Lemma _allocate_slot_tags d s sa :
  _allocate_slot self d s = Ok sa ->
  Forall (fun a => ha_day a = d /\ ha_slot a = s) sa.
Proof.
  intros H. apply _allocate_slot_packed in H. destruct H as [final H].
  eapply packed_tags; eauto.
Qed.

(** The assignments of one slot in the result of the two loops. *)
Lemma allocate_loop_slot slots :
  NoDup slots ->
  forall acc res,
    allocate_loop self slots acc = Ok res ->
    forall d s,
      (In (d, s) slots ->
       exists sa, _allocate_slot self d s = Ok sa
                  /\ filter (in_slot d s) res
                     = filter (in_slot d s) acc ++ sa)
      /\ (~ In (d, s) slots ->
          filter (in_slot d s) res = filter (in_slot d s) acc).
Proof.
  induction 1 as [|[d0 s0] slots Hx Hnd IH]; intros acc res; simpl.
  - intros [= <-] d s. split; [tauto | reflexivity].
  - destruct (_allocate_slot self d0 s0) as [sa0|e] eqn:E0; [|discriminate].
    intros Hl d s. pose proof (_allocate_slot_tags _ _ E0) as Ht.
    destruct (IH _ _ Hl d s) as [IH1 IH2]. split.
    + intros [[= -> ->]|Hin].
      * exists sa0. split; [exact E0|].
        now rewrite (IH2 Hx), filter_app, (@filter_in_slot_same d s sa0 Ht).
      * destruct (IH1 Hin) as [sa [Hsa Hf]]. exists sa. split; [exact Hsa|].
        rewrite Hf, filter_app.
        rewrite (@filter_in_slot_other d0 s0 d s sa0);
          [now rewrite app_nil_r | intros [= -> ->]; tauto | exact Ht].
    + intros Hn. rewrite IH2 by tauto. rewrite filter_app.
      rewrite (@filter_in_slot_other d0 s0 d s sa0);
        [now rewrite app_nil_r | intros [= -> ->]; simpl in Hn; tauto
        | exact Ht].
Qed.

Lemma allocate_loop_In slots :
  forall acc res a,
    allocate_loop self slots acc = Ok res ->
    In a res ->
    In a acc
    \/ exists d s sa, In (d, s) slots /\ _allocate_slot self d s = Ok sa
                      /\ In a sa.
Proof.
  induction slots as [|[d0 s0] slots IH]; intros acc res a; simpl.
  - intros [= <-]. auto.
  - destruct (_allocate_slot self d0 s0) as [sa0|e] eqn:E0; [|discriminate].
    intros Hl Hin. destruct (IH _ _ _ Hl Hin) as [H|(d & s & sa & H1 & H2)].
    + apply in_app_or in H. destruct H as [H|H]; [now left|].
      right. exists d0, s0, sa0. auto.
    + right. exists d, s, sa. tauto.
Qed.

Lemma allocate_loop_sorted slots :
  StronglySorted slot_lt slots ->
  forall acc res,
    allocate_loop self slots acc = Ok res ->
    StronglySorted slot_le (map slot_of acc) ->
    (forall a sl, In a acc -> In sl slots -> slot_lt (slot_of a) sl) ->
    StronglySorted slot_le (map slot_of res).
Proof.
  induction 1 as [|[d0 s0] slots Hs IH Hx]; intros acc res; simpl.
  - intros [= <-]. auto.
  - destruct (_allocate_slot self d0 s0) as [sa0|e] eqn:E0; [|discriminate].
    intros Hl Hacc Hlt. pose proof (_allocate_slot_tags _ _ E0) as Ht.
    rewrite Forall_forall in Ht, Hx.
    assert (Htag : forall a, In a sa0 -> slot_of a = (d0, s0)).
    { intros a Ha. destruct (Ht a Ha) as [<- <-]. reflexivity. }
    apply (IH _ _ Hl).
    + rewrite map_app. apply StronglySorted_app; [exact Hacc| |].
      * clear - Htag. induction sa0 as [|a l IHl]; simpl; constructor.
        -- apply IHl. intros b Hb. apply Htag. now right.
        -- apply Forall_forall. intros y Hy. apply in_map_iff in Hy.
           destruct Hy as [b [<- Hb]]. left.
           rewrite (Htag a), (Htag b); simpl; auto.
      * intros x y Hx' Hy. apply in_map_iff in Hx', Hy.
        destruct Hx' as [a [<- Ha]], Hy as [b [<- Hb]].
        right. rewrite (Htag b Hb). apply Hlt; auto.
    + intros a sl Ha Hsl. apply in_app_or in Ha. destruct Ha as [Ha|Ha].
      * apply Hlt; auto.
      * rewrite (Htag a Ha). now apply Hx.
Qed.
End SlotFacts.

(** *** The result of [allocate_halls] *)

Lemma allocate_halls_ok tt hc res :
  allocate_halls tt hc = Ok res ->
  allocate_loop (HallAllocator_init tt hc) (all_slots (tt_config tt)) []
  = Ok (hall_assignments res)
  /\ timetable res = tt /\ hall_config res = hc.
Proof.
  unfold allocate_halls, HallAllocator_allocate_halls. simpl.
  destruct (allocate_loop _ _ []) as [l|e]; [|discriminate].
  intros [= <-]. auto.
Qed.

(** The assignments of a slot of the grid are a packing of the slot's
    demand dictionary into the sorted halls; outside the grid there are
    none. *)
Lemma allocate_halls_slot tt hc res d s :
  allocate_halls tt hc = Ok res ->
  (d < days (tt_config tt) /\ s < slots_per_day (tt_config tt) ->
   exists final,
     packed (HallAllocator_init tt hc) d s
            (sorted_reverse capacity (halls hc))
            (subject_students_of (groups (tt_config tt))
                                 (subjects_in_slot_of tt d s))
            (filter (in_slot d s) (hall_assignments res)) final)
  /\ (~ (d < days (tt_config tt) /\ s < slots_per_day (tt_config tt)) ->
      filter (in_slot d s) (hall_assignments res) = []).
Proof.
  intros H. apply allocate_halls_ok in H. destruct H as [H _].
  destruct (@allocate_loop_slot (HallAllocator_init tt hc) _
                                (all_slots_NoDup (tt_config tt)) _ _ H d s)
    as [H1 H2].
  rewrite <- all_slots_In. split.
  - intros Hin. destruct (H1 Hin) as [sa [Hsa ->]]. simpl.
    now apply _allocate_slot_packed in Hsa.
  - intros Hn. now rewrite (H2 Hn).
Qed.

Lemma Forall2_In_l {A B} (R : A -> B -> Prop) l1 l2 a :
  Forall2 R l1 l2 -> In a l1 -> exists b, In b l2 /\ R a b.
Proof.
  induction 1 as [|x y l1 l2 Hxy _ IH]; simpl; [tauto|].
  intros [<-|Hin]; [exists y; auto|].
  destruct (IH Hin) as [b [Hb Hr]]. exists b. auto.
Qed.

Lemma Forall2_names (new : list HallAssignment) (used : list Hall) :
  Forall2 (fun a hall => hall_name a = name hall
                         /\ (sum_values (allocations a) <= capacity hall)%Z)
          new used ->
  map hall_name new = map name used.
Proof. induction 1 as [|a h l1 l2 [E _] _ IH]; simpl; congruence. Qed.

(** Every assignment of a result was filled from a hall of the
    configuration, within its capacity, with positive counts. *)
Lemma assignment_filled tt hc res a :
  allocate_halls tt hc = Ok res ->
  In a (hall_assignments res) ->
  (exists hall, In hall (halls hc) /\ name hall = hall_name a
                /\ (sum_values (allocations a) <= capacity hall)%Z)
  /\ allocations a <> []
  /\ Forall (fun kv => (0 < snd kv)%Z) (allocations a).
Proof.
  intros H Ha. apply allocate_halls_ok in H. destruct H as [H _].
  destruct (@allocate_loop_In (HallAllocator_init tt hc) _ _ _ _ H Ha)
    as [[]|(d & s & sa & _ & Hsa & Hin)].
  apply _allocate_slot_packed in Hsa. destruct Hsa as [final Hp].
  destruct (packed_halls Hp) as [used [Hsub Hf]].
  destruct (Forall2_In_l _ Hf Hin) as [hall [Hh [Hn Hc]]].
  assert (Hhc : In hall (halls hc)).
  { apply (sorted_reverse_In capacity).
    eapply Subseq_In; [exact Hsub | exact Hh]. }
  pose proof (packed_entries Hp) as He. rewrite Forall_forall in He.
  destruct (He a Hin) as [He1 He2].
  split; [exists hall; auto | auto].
Qed.

(** C5. In every assignment of a result of [allocate_halls], the hall it
    names is a hall of the configuration that holds the assigned counts:
    their sum is at most its capacity (when hall names are distinct, that
    is the capacity of the one hall of that name); the assignment has at
    least one entry and every count is strictly positive. *)
Theorem hall_capacity_respected tt hc res :
  allocate_halls tt hc = Ok res ->
  Forall
    (fun a =>
       (exists hall, In hall (halls hc) /\ name hall = hall_name a
                     /\ (sum_values (allocations a) <= capacity hall)%Z)
       /\ (NoDup (map name (halls hc)) ->
           forall hall, In hall (halls hc) -> name hall = hall_name a ->
                        (sum_values (allocations a) <= capacity hall)%Z)
       /\ allocations a <> []
       /\ Forall (fun kv => (0 < snd kv)%Z) (allocations a))
    (hall_assignments res).
Proof.
  intros H. apply Forall_forall. intros a Ha.
  destruct (@assignment_filled tt hc res a H Ha)
    as ([hall (Hhc & Hn & Hc)] & He1 & He2).
  split; [exists hall; auto|]. split; [|auto].
  intros Hnd hall' Hin' Hn'.
  assert (hall' = hall); [|now subst].
  apply (NoDup_map_inj name (halls hc)); auto. congruence.
Qed.

(** C10. The assignments of a result are ordered by (day, slot),
    day first.  The assignments of one slot follow the halls in descending
    order of capacity, halls of equal capacity in input order: their hall
    names are those of a sub-sequence of that ordered list of halls, the
    halls left out being those that received nobody.  No assignment is
    empty. *)
Theorem allocation_order tt hc res :
  allocate_halls tt hc = Ok res ->
  StronglySorted slot_le (map slot_of (hall_assignments res))
  /\ (exists order,
         Permutation order (halls hc)
         /\ descending capacity order
         /\ (forall v, filter (fun h => (capacity h =? v)%Z) order
                       = filter (fun h => (capacity h =? v)%Z) (halls hc))
         /\ forall d s,
             exists used_halls,
               Subseq used_halls order
               /\ map hall_name (filter (in_slot d s) (hall_assignments res))
                  = map name used_halls)
  /\ Forall (fun a => allocations a <> []
                      /\ Forall (fun kv => (0 < snd kv)%Z) (allocations a))
            (hall_assignments res).
Proof.
  intros H. split; [|split].
  - pose proof (@allocate_halls_ok tt hc res H) as [Hl _].
    apply (@allocate_loop_sorted (HallAllocator_init tt hc) _
             (all_slots_sorted (tt_config tt)) _ _ Hl).
    + constructor.
    + intros a sl [].
  - exists (sorted_reverse capacity (halls hc)).
    split; [apply sorted_reverse_perm|].
    split; [apply sorted_reverse_descending|].
    split; [intros v; apply sorted_reverse_stable|].
    intros d s. destruct (@allocate_halls_slot tt hc res d s H) as [H1 H2].
    destruct (Nat.lt_ge_cases d (days (tt_config tt))) as [Hd|Hd];
      [destruct (Nat.lt_ge_cases s (slots_per_day (tt_config tt)))
        as [Hs|Hs]|].
    + destruct (H1 (conj Hd Hs)) as [final Hp].
      destruct (packed_halls Hp) as [used [Hsub Hf]].
      exists used. split; [exact Hsub | now apply Forall2_names].
    + rewrite H2 by lia. exists []. split; [apply Subseq_nil_l | reflexivity].
    + rewrite H2 by lia. exists []. split; [apply Subseq_nil_l | reflexivity].
  - apply Forall_forall. intros a Ha.
    destruct (@assignment_filled tt hc res a H Ha) as (_ & He1 & He2). auto.
Qed.

Lemma slot_in_grid_dec tt d s :
  {d < days (tt_config tt) /\ s < slots_per_day (tt_config tt)}
  + {~ (d < days (tt_config tt) /\ s < slots_per_day (tt_config tt))}.
Proof.
  destruct (lt_dec d (days (tt_config tt)));
    destruct (lt_dec s (slots_per_day (tt_config tt))); auto; right; tauto.
Qed.

(** C4. Take any entry [(k, n)] of any assignment of a slot, and let
    [remaining] be the demand of the slot less all entries recorded before
    it (in earlier halls of the slot, and earlier in its own hall): the
    demand left at the moment of that allocation.  If the number of
    subjects with positive remaining demand is not one, [n] is at most
    [per_subject_limit] (it is the least of the subject's remaining
    demand, the limit and the hall's residual capacity).  If it is one, [n]
    is the lesser of the subject's remaining demand and the hall's residual
    capacity, whatever the limit. *)
Theorem per_subject_cap tt hc res d s earlier a later before k n after :
  allocate_halls tt hc = Ok res ->
  filter (in_slot d s) (hall_assignments res) = earlier ++ a :: later ->
  allocations a = before ++ (k, n) :: after ->
  let remaining :=
    replay (all_entries earlier ++ before)
           (subject_students_of (groups (tt_config tt))
                                (subjects_in_slot_of tt d s)) in
  exists hall count,
    In hall (halls hc) /\ name hall = hall_name a
    /\ dict_get k remaining = Some count
    /\ (length (filter has_students remaining) <> 1 ->
        (n <= per_subject_limit hc)%Z
        /\ n = Z.min count
                     (Z.min (per_subject_limit hc)
                            (capacity hall - sum_values before)))
    /\ (length (filter has_students remaining) = 1 ->
        n = Z.min count (capacity hall - sum_values before)).
Proof.
  intros H Hf Ha remaining.
  destruct (@allocate_halls_slot tt hc res d s H) as [H1 H2].
  destruct (slot_in_grid_dec tt d s) as [Hin|Hout];
    [|rewrite (H2 Hout) in Hf; destruct earlier; discriminate].
  destruct (H1 Hin) as [final Hp].
  destruct (@packed_moment _ _ _ _ _ _ _ Hp earlier a later before k n after
                           Hf Ha)
    as (hall & count & Hh & Hn & Hc & Hv).
  exists hall, count.
  split; [exact (proj1 (sorted_reverse_In capacity hall (halls hc)) Hh)|].
  split; [exact Hn|]. split; [exact Hc|].
  fold remaining in Hv. unfold allocate_amount_of in Hv.
  simpl alloc_hall_config in Hv.
  split; intros Hl.
  - apply Nat.eqb_neq in Hl. rewrite Hl in Hv. split; [lia | exact Hv].
  - apply Nat.eqb_eq in Hl. rewrite Hl in Hv. exact Hv.
Qed.

Lemma demand_nonneg grps k :
  Forall (fun grp => (0 < group_size grp)%Z) grps -> (0 <= demand grps k)%Z.
Proof.
  induction 1 as [|g gs Hg _ IH]; [unfold demand; simpl; lia|].
  rewrite demand_cons. destruct (enrolled k g); lia.
Qed.

Lemma subject_students_of_nonneg grps sis :
  NoDup sis ->
  Forall (fun grp => (0 < group_size grp)%Z) grps ->
  nonneg (subject_students_of grps sis).
Proof.
  intros Hnd Hg. apply Forall_forall. intros [k v] Hin. simpl.
  apply In_dict_get in Hin; [|apply subject_students_of_keys].
  rewrite subject_students_of_get in Hin by assumption.
  destruct (_ && _); [|discriminate]. inversion Hin.
  now apply demand_nonneg.
Qed.

Lemma subjects_in_slot_of_In tt d s k :
  In k (subjects_in_slot_of tt d s) <-> In (mkExamSlot d s k) (assignments tt).
Proof.
  unfold subjects_in_slot_of. rewrite in_map_iff. split.
  - intros [a [<- Ha]]. apply filter_In in Ha. destruct Ha as [Ha E].
    apply andb_true_iff in E. destruct E as [E1 E2].
    apply Nat.eqb_eq in E1, E2. subst. now destruct a.
  - intros H. exists (mkExamSlot d s k). split; [reflexivity|].
    apply filter_In. split; [exact H|]. simpl. now rewrite !Nat.eqb_refl.
Qed.

Lemma subjects_in_slot_of_NoDup tt d s :
  NoDup (map subject (assignments tt)) -> NoDup (subjects_in_slot_of tt d s).
Proof.
  unfold subjects_in_slot_of. induction (assignments tt) as [|a l IH]; simpl.
  - constructor.
  - intros H. inversion H as [|? ? Ha Hl]. subst.
    destruct ((day a =? d) && (slot a =? s)); simpl; [|now apply IH].
    constructor; [|now apply IH].
    intros Hin. apply Ha. apply in_map_iff in Hin.
    destruct Hin as [b [E Hb]]. apply filter_In in Hb.
    apply in_map_iff. exists b. tauto.
Qed.

Lemma no_students_zero (d : list (Subject * Z)) k v :
  existsb has_students d = false -> nonneg d -> In (k, v) d -> v = 0%Z.
Proof.
  intros He Hn Hin. unfold nonneg in Hn. rewrite Forall_forall in Hn.
  specialize (Hn _ Hin). simpl in Hn.
  destruct (Z.eq_dec v 0) as [|Hne]; [assumption|exfalso].
  assert (existsb has_students d = true); [|congruence].
  apply existsb_exists. exists (k, v). split; [exact Hin|].
  unfold has_students. simpl. apply Z.ltb_lt. lia.
Qed.

(** C3. For a timetable that lists every subject once, inside the grid,
    over groups of positive size: in a result of [allocate_halls], the
    counts a scheduled subject receives over all assignments of its slot
    add up to its demand, the sum of the sizes of the groups enrolled in
    it; and a subject receives no seat in a slot where it is not
    scheduled. *)
Theorem demand_conservation tt hc res :
  valid_TimetableConfig (tt_config tt) = true ->
  NoDup (map subject (assignments tt)) ->
  Forall (fun a => day a < days (tt_config tt)
                   /\ slot a < slots_per_day (tt_config tt))
         (assignments tt) ->
  allocate_halls tt hc = Ok res ->
  (forall a, In a (assignments tt) ->
             seated res (day a) (slot a) (subject a)
             = demand (groups (tt_config tt)) (subject a))
  /\ (forall d s k, ~ In (mkExamSlot d s k) (assignments tt) ->
                    seated res d s k = 0%Z).
Proof.
  intros Hv Hnd Hgrid H.
  pose proof (valid_config_sizes _ Hv) as Hsz.
  assert (Hkeys :
            forall d s k,
              ~ In k (keys (subject_students_of
                              (groups (tt_config tt))
                              (subjects_in_slot_of tt d s))) ->
              seated res d s k = 0%Z).
  { intros d s k Hk. unfold seated.
    destruct (@allocate_halls_slot tt hc res d s H) as [H1 H2].
    destruct (slot_in_grid_dec tt d s) as [Hin|Hout];
      [|now rewrite (H2 Hout)].
    destruct (H1 Hin) as [final Hp]. apply packed_keys in Hp.
    apply seats_of_absent. intros Hm. apply Hk.
    apply in_map_iff in Hm. destruct Hm as [kv [<- Hkv]].
    rewrite Forall_forall in Hp. exact (Hp kv Hkv). }
  split.
  - intros a Ha. rewrite Forall_forall in Hgrid.
    set (d := day a). set (s := slot a). set (k := subject a).
    set (sis := subjects_in_slot_of tt d s).
    set (ss := subject_students_of (groups (tt_config tt)) sis).
    assert (Hsis : NoDup sis) by now apply subjects_in_slot_of_NoDup.
    assert (Hk : In k sis)
      by (apply subjects_in_slot_of_In; now destruct a).
    pose proof (subject_students_of_get (groups (tt_config tt)) k Hsis) as Hget.
    fold ss in Hget. apply mem_In in Hk. rewrite Hk in Hget. simpl in Hget.
    destruct (existsb (enrolled k) (groups (tt_config tt))) eqn:Een.
    + destruct (@allocate_halls_slot tt hc res d s H) as [H1 _].
      destruct (H1 (Hgrid a Ha)) as [final Hp].
      pose proof (packed_final Hp) as [Hfin Hnone].
      pose proof (packed_nonneg Hp
                    (subject_students_of_nonneg Hsis Hsz)) as Hnn.
      pose proof (@dict_get_replay k _
                    (all_entries (filter (in_slot d s) (hall_assignments res)))
                    _ Hget) as Hrep.
      fold sis ss in Hfin. rewrite <- Hfin in Hrep.
      apply dict_get_In in Hrep.
      pose proof (no_students_zero _ _ Hnone Hnn Hrep) as Hz.
      unfold seated. unfold all_entries in Hz. lia.
    + rewrite demand_none by assumption. apply Hkeys.
      fold sis ss. now apply dict_get_None.
  - intros d s k Hn. apply Hkeys. intros Hk. apply Hn.
    apply subjects_in_slot_of_In. eapply subject_students_of_In; eauto.
Qed.

(** *** Not enough seats *)

Lemma no_students_sum (d : list (Subject * Z)) :
  existsb has_students d = false -> (sum_values d <= 0)%Z.
Proof.
  unfold sum_values. induction d as [|[k v] d IH]; simpl; [lia|].
  intros H. apply orb_false_iff in H. destruct H as [H1 H2].
  unfold has_students in H1. simpl in H1. apply Z.ltb_ge in H1.
  specialize (IH H2). lia.
Qed.

Lemma sum_capacity_perm (l1 l2 : list Hall) :
  Permutation l1 l2 ->
  fold_right Z.add 0%Z (map capacity l1)
  = fold_right Z.add 0%Z (map capacity l2).
Proof. induction 1; simpl; lia. Qed.

Lemma sum_capacity_nonneg (l : list Hall) :
  Forall (fun h => (0 < capacity h)%Z) l ->
  (0 <= fold_right Z.add 0 (map capacity l))%Z.
Proof. induction 1; simpl; lia. Qed.

Lemma count_group_single k acc g :
  count_group [k] acc g
  = if enrolled k g then defaultdict_add k (group_size g) acc else acc.
Proof. reflexivity. Qed.

Lemma subject_students_of_single grps k :
  subject_students_of grps [k]
  = if existsb (enrolled k) grps then [(k, demand grps k)] else [].
Proof.
  rewrite subject_students_of_fold.
  assert (G1 : forall gs v,
             fold_left (count_group [k]) gs [(k, v)]
             = [(k, (v + demand gs k)%Z)]).
  { induction gs as [|g gs IH]; intros v; cbn [fold_left].
    - unfold demand. simpl. now rewrite Z.add_0_r.
    - rewrite demand_cons, count_group_single.
      destruct (enrolled k g).
      + unfold defaultdict_add. cbn [dict_get]. rewrite String.eqb_refl.
        cbn [dict_set]. rewrite String.eqb_refl. rewrite IH.
        do 2 f_equal. lia.
      + rewrite IH. do 2 f_equal. }
  induction grps as [|g gs IH]; cbn [fold_left existsb]; [reflexivity|].
  rewrite count_group_single, demand_cons.
  destruct (enrolled k g); cbn [orb].
  - unfold defaultdict_add. cbn [dict_get dict_set]. rewrite G1.
    reflexivity.
  - rewrite IH. destruct (existsb (enrolled k) gs); reflexivity.
Qed.

Section Shortage.
Variable self : HallAllocator.

Let shortage (d s : nat) (left : list (Subject * Z)) : exn :=
  mkExn InsufficientHallCapacityError (msg_hall_capacity (d + 1) (s + 1))
        (diag_halls (sum_values left)
                    (total_capacity (alloc_hall_config self)) left).

Lemma greedy_loop_raise d s pending :
  forall remaining acc e,
    greedy_loop self d s pending remaining acc = Raise e ->
    exn_kind e = InsufficientHallCapacityError.
Proof.
  induction pending as [|hall pending IH]; intros remaining acc e; simpl.
  - destruct (existsb has_students remaining); [|discriminate].
    intros [= <-]. reflexivity.
  - destruct (existsb has_students remaining); [|discriminate].
    destruct (fill_hall self hall _ remaining [] 0%Z) as [ha rem'].
    apply IH.
Qed.


(** When the demand left exceeds the capacity of the halls still to
    come, the loop fails, and what it reports as left is at least the
    excess. *)
Lemma greedy_loop_shortage d s pending :
  Forall (fun h => (0 < capacity h)%Z) pending ->
  forall remaining acc,
    NoDup (keys remaining) ->
    (fold_right Z.add 0 (map capacity pending) < sum_values remaining)%Z ->
    exists left,
      greedy_loop self d s pending remaining acc = Raise (shortage d s left)
      /\ (sum_values remaining - fold_right Z.add 0 (map capacity pending)
          <= sum_values left)%Z.
Proof.
  induction 1 as [|hall pending Hc Hcs IH]; intros remaining acc Hnd Hlt;
    simpl in *.
  - destruct (existsb has_students remaining) eqn:E.
    + exists remaining. split; [reflexivity | lia].
    + apply no_students_sum in E. lia.
  - pose proof (sum_capacity_nonneg Hcs) as Hpos.
    destruct (existsb has_students remaining) eqn:E;
      [|apply no_students_sum in E; lia].
    destruct (@fill_hall_entries self hall _ _ [] 0%Z
                                 (@in_sync_snapshot remaining Hnd))
      as [entries [Ef He]].
    rewrite Ef. simpl app.
    pose proof (hall_entries_sum He) as Hsum.
    assert (Hle : (sum_values entries <= capacity hall)%Z).
    { destruct (hall_entries_capacity He) as [->|Hle];
        [unfold sum_values; simpl|]; lia. }
    match goal with
    | |- context [greedy_loop self d s pending _ ?acc'] =>
        destruct (IH (replay entries remaining) acc') as [left [Hr Hb]]
    end.
    + now rewrite keys_replay.
    + lia.
    + exists left. split; [exact Hr | lia].
Qed.

(** With a single subject in the slot every hall is filled, and what is
    left is exactly the excess. *)
Lemma greedy_loop_single d s pending :
  Forall (fun h => (0 < capacity h)%Z) pending ->
  forall k D acc,
    (fold_right Z.add 0 (map capacity pending) < D)%Z ->
    greedy_loop self d s pending [(k, D)] acc
    = Raise (shortage d s
               [(k, (D - fold_right Z.add 0 (map capacity pending))%Z)]).
Proof.
  induction 1 as [|hall pending Hc Hcs IH]; intros k D acc Hlt.
  - simpl in *.
    assert (E : has_students (k, D) = true) by (apply Z.ltb_lt; simpl; lia).
    rewrite E. simpl. now rewrite Z.sub_0_r.
  - pose proof (sum_capacity_nonneg Hcs) as Hpos.
    simpl in Hlt. simpl map. simpl fold_right.
    assert (E : (0 <? D)%Z = true) by (apply Z.ltb_lt; lia).
    assert (Ec : (capacity hall <=? 0)%Z = false) by (apply Z.leb_gt; lia).
    assert (Ea : (0 <? Z.min D (capacity hall - 0))%Z = true)
      by (apply Z.ltb_lt; lia).
    assert (Em : Z.min D (capacity hall - 0) = capacity hall) by lia.
    assert (Hhs : has_students (k, D) = true) by exact E.
    cbn [greedy_loop existsb]. rewrite Hhs. cbn [orb].
    unfold subjects_with_students_of. cbn [filter]. rewrite Hhs.
    cbn [sorted_reverse fold_right insert_desc fill_hall].
    rewrite Ec. unfold allocate_amount_of. cbn [filter]. rewrite Hhs.
    cbn [length Nat.eqb]. rewrite Ea, Em. cbn [fill_hall app is_empty].
    unfold dict_sub. cbn [dict_get]. rewrite String.eqb_refl.
    cbn [dict_set]. rewrite String.eqb_refl.
    rewrite IH by lia. do 3 f_equal. f_equal. lia.
Qed.

Lemma allocate_loop_raise d s e0 slots :
  StronglySorted slot_lt slots ->
  In (d, s) slots ->
  _allocate_slot self d s = Raise e0 ->
  forall acc,
    exists d' s' e,
      allocate_loop self slots acc = Raise e
      /\ _allocate_slot self d' s' = Raise e
      /\ slot_le (d', s') (d, s).
Proof.
  induction 1 as [|[d0 s0] slots Hs IH Hx]; intros Hin H0 acc; simpl.
  - destruct Hin.
  - destruct (_allocate_slot self d0 s0) as [sa0|e] eqn:E0.
    + destruct Hin as [[= -> ->]|Hin]; [congruence|].
      apply IH; auto.
    + exists d0, s0, e. split; [reflexivity|]. split; [exact E0|].
      destruct Hin as [[= -> ->]|Hin]; [now left|].
      right. rewrite Forall_forall in Hx. now apply Hx.
Qed.

End Shortage.

Lemma _allocate_slot_raise self d s e :
  _allocate_slot self d s = Raise e ->
  exn_kind e = InsufficientHallCapacityError.
Proof.
  unfold _allocate_slot, _greedy_allocate.
  destruct (is_empty _); [discriminate|]. apply greedy_loop_raise.
Qed.


Lemma valid_hall_capacities hc :
  valid_HallConfig hc = true ->
  Forall (fun h => (0 < capacity h)%Z) (halls hc).
Proof.
  unfold valid_HallConfig. rewrite andb_true_iff. intros [_ H].
  rewrite forallb_forall in H. apply Forall_forall. intros h Hin.
  apply Z.ltb_lt. exact (H h Hin).
Qed.


(** * Worked examples *)

Lemma demo_iter_set_perm l : Permutation (demo_iter_set l) l.
Proof. apply Permutation_refl. Qed.

Lemma reversed_iter_set_perm l : Permutation (reversed_iter_set l) l.
Proof. apply Permutation_sym, Permutation_rev. Qed.

Lemma demo_shuffle_perm g l : Permutation (fst (demo_shuffle g l)) l.
Proof.
  unfold demo_shuffle. simpl.
  set (k := Z.to_nat (g mod (Z.of_nat (length l) + 1))).
  eapply perm_trans; [apply Permutation_app_comm|].
  rewrite firstn_skipn. apply Permutation_refl.
Qed.

Open Scope string_scope.

(** Four subjects over a 2 x 2 grid, three overlapping groups. *)
Definition four_subjects (random_seed : option Z) : TimetableConfig :=
  mkTimetableConfig 2 2 ["M"; "E"; "P"; "Q"]
    [mkStudentGroup "g" ["M"; "E"] 10;
     mkStudentGroup "h" ["E"; "P"; "Q"] 20;
     mkStudentGroup "k" ["Q"; "M"] 5]
    random_seed.

Definition four_subjects_run :=
  generate_timetable demo_seed demo_shuffle demo_iter_set (four_subjects (Some
      7%Z)) 0%Z.

Definition four_subjects_timetable : TimetableResult :=
  mkTimetableResult
    [mkExamSlot 1 0 "E"; mkExamSlot 0 0 "Q";
     mkExamSlot 0 1 "M"; mkExamSlot 1 1 "P"]
    (four_subjects (Some 7%Z)).

Example four_subjects_solved :
  four_subjects_run = (Ok four_subjects_timetable, snd four_subjects_run).
Proof. reflexivity. Qed.

(** Scenario S2: two subjects, one slot. *)
Definition two_subjects_one_slot : TimetableConfig :=
  mkTimetableConfig 1 1 ["M"; "E"] [mkStudentGroup "g" ["M"; "E"] 10] None.

(** A subject that no group claims. *)
Definition unclaimed_subject : TimetableConfig :=
  mkTimetableConfig 1 2 ["M"; "E"] [mkStudentGroup "g" ["M"] 10] None.

(** Scenario S4 with two halls: two subjects of 40 students in one slot. *)
Definition mixed_timetable : TimetableResult :=
  mkTimetableResult
    [mkExamSlot 0 0 "M"; mkExamSlot 0 0 "E"]
    (mkTimetableConfig 1 1 ["M"; "E"]
       [mkStudentGroup "g1" ["M"] 40; mkStudentGroup "g2" ["E"] 40] None).

Definition two_halls : HallConfig :=
  mkHallConfig [mkHall "A" 50; mkHall "B" 50] 30.

Definition mixed_result : HallAllocationResult :=
  mkHallAllocationResult
    [mkHallAssignment "A" 0 0 [("M", 30%Z); ("E", 20%Z)];
     mkHallAssignment "B" 0 0 [("E", 20%Z); ("M", 10%Z)]]
    mixed_timetable two_halls.

Example mixed_allocated :
  allocate_halls mixed_timetable two_halls = Ok mixed_result.
Proof. reflexivity. Qed.

(** Scenario S5: one subject of 50 students, one hall of 60 seats. *)
Definition lone_timetable : TimetableResult :=
  mkTimetableResult
    [mkExamSlot 0 0 "P"]
    (mkTimetableConfig 1 1 ["P"] [mkStudentGroup "g" ["P"] 50] None).

Definition one_hall : HallConfig := mkHallConfig [mkHall "A" 60] 30.

Definition lone_result : HallAllocationResult :=
  mkHallAllocationResult [mkHallAssignment "A" 0 0 [("P", 50%Z)]]
                         lone_timetable one_hall.

Example lone_allocated : allocate_halls lone_timetable one_hall = Ok
    lone_result.
Proof. reflexivity. Qed.




(** ** The scheduler on the examples *)

Lemma generate_timetable_sound_witness :
  NoDup (map subject (assignments four_subjects_timetable))
  /\ Permutation (map subject (assignments four_subjects_timetable))
                 ["M"; "E"; "P"; "Q"]
  /\ Forall (fun a => day a < 2 /\ slot a < 2)
            (assignments four_subjects_timetable)
  /\ NoDup (map (fun a => (day a, slot a))
                (assignments four_subjects_timetable))
  /\ forall grp a b,
       In grp (groups (four_subjects (Some 7%Z))) ->
       In a (assignments four_subjects_timetable) ->
       In b (assignments four_subjects_timetable) ->
       In (subject a) (group_subjects grp) ->
       In (subject b) (group_subjects grp) ->
       subject a <> subject b ->
       (day a, slot a) <> (day b, slot b).
Proof.
  apply (@generate_timetable_sound
           Z demo_seed demo_shuffle demo_iter_set demo_iter_set_perm
               demo_shuffle_perm
           (four_subjects (Some 7%Z)) 0%Z four_subjects_timetable
           (snd four_subjects_run)).
  - reflexivity.
  - reflexivity.
Defined.

Lemma variable_order_static_witness :
  let order :=
    variable_order
      (TimetableScheduler_init demo_seed (four_subjects (Some 7%Z)) 0%Z) in
  order = ["E"; "Q"; "M"; "P"]
  /\ map subject (assignments four_subjects_timetable) = order
  /\ variable_order (TimetableScheduler_init demo_seed (four_subjects None)
                                             5%Z) = order.
Proof.
  pose proof (@variable_order_static
                Z demo_seed demo_shuffle demo_iter_set demo_iter_set_perm
                    demo_shuffle_perm
                (four_subjects (Some 7%Z)) 0%Z four_subjects_timetable
                (snd four_subjects_run) eq_refl)
    as (_ & _ & _ & _ & Hseed & Hrun).
  split; [reflexivity|]. split; [exact (Hrun eq_refl)|].
  exact (Hseed Z demo_seed None 5%Z).
Defined.

(** A seeded configuration whose groups name two subjects, "X" and "Y",
    that the configuration does not list. *)
Definition foreign_subjects : TimetableConfig :=
  mkTimetableConfig 1 2 ["M"]
    [mkStudentGroup "g" ["M"; "X"; "Y"] 10] (Some 7%Z).

(** A seeded configuration that passes validation and cannot be solved:
    the group lists "M" twice. *)
Definition repeated_seeded : TimetableConfig :=
  mkTimetableConfig 1 3 ["M"; "E"; "P"]
    [mkStudentGroup "g" ["M"; "M"; "E"; "P"] 10] (Some 7%Z).

Lemma determinism_under_seed_witness :
  (generate_timetable demo_seed demo_shuffle demo_iter_set
                      (four_subjects (Some 7%Z)) 0%Z
   = generate_timetable demo_seed demo_shuffle demo_iter_set
                        (four_subjects (Some 7%Z)) 5%Z
   /\ generate_schedule demo_seed demo_shuffle demo_iter_set
                        (four_subjects (Some 7%Z)) two_halls 0%Z
      = generate_schedule demo_seed demo_shuffle demo_iter_set
                          (four_subjects (Some 7%Z)) two_halls 5%Z)
  /\ same_outcome
       (fst (generate_timetable demo_seed demo_shuffle demo_iter_set
                                (four_subjects (Some 7%Z)) 0%Z))
       (fst (generate_timetable demo_seed demo_shuffle reversed_iter_set
                                (four_subjects (Some 7%Z)) 5%Z))
  /\ same_outcome
       (generate_schedule demo_seed demo_shuffle demo_iter_set
                          (four_subjects (Some 7%Z)) two_halls 0%Z)
       (generate_schedule demo_seed demo_shuffle reversed_iter_set
                          (four_subjects (Some 7%Z)) two_halls 5%Z).
Proof.
  destruct (@determinism_under_seed
              Z demo_seed demo_shuffle demo_shuffle_perm
              demo_iter_set reversed_iter_set
              demo_iter_set_perm reversed_iter_set_perm
              (four_subjects (Some 7%Z)) two_halls 7%Z 0%Z 5%Z)
    as [Hsame Hacross].
  - reflexivity.
  - split; [exact Hsame|]. apply Hacross. reflexivity.
Defined.

(** C6 fails as stated: two runs on the same seeded configuration, from
    the same state of the generator, that walk their sets in different
    orders do not give identical results.  In the first configuration
    the validation errors come in another order; in the second one the
    conflicts listed in the diagnostics of the failed search do. *)
Lemma seeded_outcomes_differ :
  (valid_TimetableConfig foreign_subjects = true
   /\ random_seed foreign_subjects = Some 7%Z
   /\ fst (generate_timetable demo_seed demo_shuffle demo_iter_set
                              foreign_subjects 0%Z)
      = Raise (mkExn NoSolutionError msg_invalid_configuration
                     (diag_validation [err_not_in_subject_list "X";
                                       err_not_in_subject_list "Y"]))
   /\ fst (generate_timetable demo_seed demo_shuffle reversed_iter_set
                              foreign_subjects 0%Z)
      = Raise (mkExn NoSolutionError msg_invalid_configuration
                     (diag_validation [err_not_in_subject_list "Y";
                                       err_not_in_subject_list "X"]))
   /\ generate_schedule demo_seed demo_shuffle demo_iter_set
                        foreign_subjects two_halls 0%Z
      <> generate_schedule demo_seed demo_shuffle reversed_iter_set
                           foreign_subjects two_halls 0%Z)
  /\ (valid_TimetableConfig repeated_seeded = true
      /\ random_seed repeated_seeded = Some 7%Z
      /\ (exists attempts,
             fst (generate_timetable demo_seed demo_shuffle demo_iter_set
                                     repeated_seeded 0%Z)
             = Raise (mkExn NoSolutionError msg_exhaustive_search
                            (diag_search attempts 3
                               [("M", ["E"; "P"]); ("E", ["M"; "P"]);
                                ("P", ["M"; "E"])]))
             /\ fst (generate_timetable demo_seed demo_shuffle
                                        reversed_iter_set
                                        repeated_seeded 0%Z)
                = Raise (mkExn NoSolutionError msg_exhaustive_search
                               (diag_search attempts 3
                                  [("M", ["P"; "E"]); ("E", ["P"; "M"]);
                                   ("P", ["E"; "M"])])))
      /\ generate_schedule demo_seed demo_shuffle demo_iter_set
                           repeated_seeded two_halls 0%Z
         <> generate_schedule demo_seed demo_shuffle reversed_iter_set
                              repeated_seeded two_halls 0%Z).
Proof.
  split.
  - split; [reflexivity|]. split; [reflexivity|].
    split; [reflexivity|]. split; [reflexivity|].
    vm_compute. discriminate.
  - split; [reflexivity|]. split; [reflexivity|]. split.
    + eexists. split; vm_compute; reflexivity.
    + vm_compute. discriminate.
Qed.

(** Without a seed the timetable depends on the state the generator is
    found in: the hypothesis of C6 cannot be dropped. *)
Example unseeded_runs_differ :
  fst (generate_timetable demo_seed demo_shuffle demo_iter_set
                          (four_subjects None) 0%Z)
  <> fst (generate_timetable demo_seed demo_shuffle demo_iter_set
                             (four_subjects None) 7%Z).
Proof. vm_compute. discriminate. Qed.

(** C2.  On scenario S2 (two subjects, one slot) [generate_timetable]
    raises [NoSolutionError] "Invalid configuration" with the validation
    error as diagnostics, not [InsufficientSlotsError] with
    [subjects_count], [total_slots] and [deficit]: the validation that
    runs first reports the shortage of slots itself. *)
Theorem insufficient_slots_reported_as_invalid :
  generate_timetable demo_seed demo_shuffle demo_iter_set
      two_subjects_one_slot 0%Z
  = (Raise (mkExn NoSolutionError msg_invalid_configuration
                  (diag_validation [err_insufficient_slots 2 1])),
     TimetableScheduler_init demo_seed two_subjects_one_slot 0%Z).
Proof. reflexivity. Qed.

(** C8 as stated asks for an error that is not a [NoSolutionError]. *)
Definition fails_with_other_kind (out : result TimetableResult) : Prop :=
  exists e, out = Raise e /\ isinstance (exn_kind e) NoSolutionError = false.

(** C8 fails as stated: a configuration that the constructors accept and
    in which subject "E" is claimed by no group makes [generate_timetable]
    raise a [NoSolutionError]. *)
Lemma invalid_config_is_no_solution :
  valid_TimetableConfig unclaimed_subject = true
  /\ In "E" (subjects unclaimed_subject)
  /\ (forall grp, In grp (groups unclaimed_subject) ->
                  ~ In "E" (group_subjects grp))
  /\ ~ fails_with_other_kind
         (fst (generate_timetable demo_seed demo_shuffle demo_iter_set
                                  unclaimed_subject 0%Z)).
Proof.
  split; [reflexivity|]. split; [simpl; auto|]. split.
  - intros grp [<-|[]] [H|[]]. discriminate.
  - intros [e [H Hk]]. vm_compute in H. inversion H. subst e.
    discriminate.
Qed.

Lemma incoherent_config_rejected_witness :
  exists errors,
    generate_timetable demo_seed demo_shuffle demo_iter_set unclaimed_subject
        0%Z
    = (Raise (mkExn NoSolutionError msg_invalid_configuration
                    (diag_validation errors)),
       TimetableScheduler_init demo_seed unclaimed_subject 0%Z)
    /\ errors <> []
    /\ In (err_not_in_any_group "E") errors.
Proof.
  assert (Hs : In "E" (subjects unclaimed_subject)) by (simpl; auto).
  assert (Hg : forall grp, In grp (groups unclaimed_subject) ->
                           ~ In "E" (group_subjects grp)).
  { intros grp [<-|[]] [H|[]]. discriminate. }
  destruct (@incoherent_config_rejected
              Z demo_seed demo_shuffle demo_iter_set demo_iter_set_perm
              unclaimed_subject 0%Z
              (or_introl (ex_intro _ "E" (conj Hs Hg))))
    as (errors & Hrun & Hne & Hin & _).
  exists errors. split; [exact Hrun|]. split; [exact Hne|].
  exact (Hin "E" Hs Hg).
Defined.

(** ** The allocator on the examples *)

Lemma demand_conservation_witness :
  seated mixed_result 0 0 "M" = 40%Z
  /\ seated mixed_result 0 0 "E" = 40%Z
  /\ seated mixed_result 0 0 "P" = 0%Z.
Proof.
  destruct (@demand_conservation mixed_timetable two_halls mixed_result)
    as [Hin Hout].
  - reflexivity.
  - repeat constructor; simpl; intuition discriminate.
  - repeat constructor.
  - reflexivity.
  - split; [|split].
    + exact (Hin (mkExamSlot 0 0 "M") (or_introl eq_refl)).
    + exact (Hin (mkExamSlot 0 0 "E") (or_intror (or_introl eq_refl))).
    + apply Hout. simpl. intuition discriminate.
Defined.

Lemma per_subject_cap_witness :
  exists hall count,
    In hall (halls one_hall) /\ name hall = "A"
    /\ dict_get "P" [("P", 50%Z)] = Some count
    /\ 50%Z = Z.min count (capacity hall - 0).
Proof.
  destruct (@per_subject_cap lone_timetable one_hall lone_result 0 0
              [] (mkHallAssignment "A" 0 0 [("P", 50%Z)]) []
              [] "P" 50%Z [] eq_refl eq_refl eq_refl)
    as (hall & count & Hh & Hn & Hc & _ & Hone).
  exists hall, count. split; [exact Hh|]. split; [exact Hn|].
  split; [exact Hc|]. exact (Hone eq_refl).
Defined.

Lemma hall_capacity_respected_witness :
  Forall
    (fun a =>
       (exists hall, In hall (halls two_halls) /\ name hall = hall_name a
                     /\ (sum_values (allocations a) <= capacity hall)%Z)
       /\ (NoDup (map name (halls two_halls)) ->
           forall hall, In hall (halls two_halls) ->
                        name hall = hall_name a ->
                        (sum_values (allocations a) <= capacity hall)%Z)
       /\ allocations a <> []
       /\ Forall (fun kv => (0 < snd kv)%Z) (allocations a))
    (hall_assignments mixed_result).
Proof.
  apply (@hall_capacity_respected mixed_timetable two_halls mixed_result).
  reflexivity.
Defined.

Lemma allocation_order_witness :
  StronglySorted slot_le (map slot_of (hall_assignments mixed_result))
  /\ (exists order,
         Permutation order (halls two_halls)
         /\ descending capacity order
         /\ (forall v, filter (fun h => (capacity h =? v)%Z) order
                       = filter (fun h => (capacity h =? v)%Z)
                                (halls two_halls))
         /\ forall d s,
             exists used_halls,
               Subseq used_halls order
               /\ map hall_name
                      (filter (in_slot d s) (hall_assignments mixed_result))
                  = map name used_halls)
  /\ Forall (fun a => allocations a <> []
                      /\ Forall (fun kv => (0 < snd kv)%Z) (allocations a))
            (hall_assignments mixed_result).
Proof.
  apply (@allocation_order mixed_timetable two_halls mixed_result).
  reflexivity.
Defined.



(** * Further properties of the code *)

Close Scope string_scope.

(** ** utils.py *)

Lemma dict_mem_set {V} a k (v : V) c :
  dict_mem a (dict_set k v c) = String.eqb a k || dict_mem a c.
Proof.
  unfold dict_mem. destruct (String.eqb a k) eqn:E.
  - apply String.eqb_eq in E. subst. now rewrite dict_get_set_eq.
  - apply String.eqb_neq in E. now rewrite dict_get_set_neq.
Qed.

Lemma add_conflicts_keys a grp c s :
  dict_mem a (add_conflicts grp c s) = String.eqb a s || dict_mem a c.
Proof.
  unfold add_conflicts.
  set (c1 := if dict_mem s c then c else dict_set s [] c).
  assert (H1 : dict_mem a c1 = String.eqb a s || dict_mem a c).
  { unfold c1. destruct (dict_mem s c) eqn:E.
    - destruct (String.eqb a s) eqn:Ea; [|reflexivity].
      apply String.eqb_eq in Ea. subst. now rewrite E.
    - apply dict_mem_set. }
  rewrite <- H1. generalize c1. clear.
  induction (group_subjects grp) as [|o os IH]; intros c1; simpl;
    [reflexivity|].
  rewrite IH. destruct (negb (String.eqb o s)); [|reflexivity].
  destruct (dict_get s c1) as [st|] eqn:Eg; [|reflexivity].
  rewrite dict_mem_set. destruct (String.eqb a s) eqn:Ea; [|reflexivity].
  apply String.eqb_eq in Ea. subst. unfold dict_mem. now rewrite Eg.
Qed.

Lemma build_conflict_graph_keys a grps :
  dict_mem a (build_conflict_graph grps)
  = existsb (fun grp => mem a (group_subjects grp)) grps.
Proof.
  unfold build_conflict_graph.
  assert (G : forall gs c,
             dict_mem a
               (fold_left
                  (fun conflicts group =>
                     fold_left (add_conflicts group) (group_subjects group)
                               conflicts) gs c)
             = dict_mem a c
               || existsb (fun grp => mem a (group_subjects grp)) gs).
  { induction gs as [|g gs IH]; intros c; simpl.
    - now rewrite orb_false_r.
    - rewrite IH.
      assert (H : forall ss c0,
                 dict_mem a (fold_left (add_conflicts g) ss c0)
                 = dict_mem a c0 || mem a ss).
      { induction ss as [|s ss IHs]; intros c0; simpl.
        - now rewrite orb_false_r.
        - rewrite IHs, add_conflicts_keys. unfold mem. simpl.
          destruct (String.eqb a s), (dict_mem a c0); reflexivity. }
      rewrite H. now rewrite orb_assoc. }
  rewrite G. reflexivity.
Qed.

(** X1. The graph [build_conflict_graph] returns: its keys are the
    subjects that occur in some group; the set stored for a subject holds,
    once each, the other subjects that share a group with it; so adjacency
    is symmetric and no subject is its own neighbour. *)
Theorem conflict_graph_shape grps :
  let G := build_conflict_graph grps in
  (forall a, In a (keys G)
             <-> exists grp, In grp grps /\ In a (group_subjects grp))
  /\ (forall a b, In b (conflicts_get a G)
                  <-> a <> b
                      /\ exists grp, In grp grps
                                     /\ In a (group_subjects grp)
                                     /\ In b (group_subjects grp))
  /\ (forall a b, In b (conflicts_get a G) -> In a (conflicts_get b G))
  /\ (forall a, ~ In a (conflicts_get a G))
  /\ (forall a, NoDup (conflicts_get a G)).
Proof.
  intros G.
  assert (Hadj : forall a b,
             In b (conflicts_get a G)
             <-> a <> b
                 /\ exists grp, In grp grps /\ In a (group_subjects grp)
                                /\ In b (group_subjects grp))
    by (intros a b; apply (build_conflict_graph_spec a grps)).
  split; [|split; [exact Hadj|split; [|split]]].
  - intros a. rewrite <- dict_mem_In. unfold G.
    rewrite build_conflict_graph_keys, existsb_exists. split.
    + intros [grp [Hg Hm]]. apply mem_In in Hm. eauto.
    + intros [grp [Hg Hm]]. exists grp. split; [exact Hg|]. now apply mem_In.
  - intros a b H. apply Hadj in H. apply Hadj.
    destruct H as (Hn & grp & Hg & Ha & Hb). split; [congruence|]. eauto.
  - intros a H. apply Hadj in H. tauto.
  - intros a. apply (build_conflict_graph_spec a grps).
Qed.

Section ValidateFacts.
Variable iter_set : list Subject -> list Subject.
Hypothesis iter_set_perm : forall l, Permutation (iter_set l) l.

(** X2. [validate_config] accepts a configuration exactly when the
    subjects fit in the grid, every configured subject is claimed by some
    group and every subject a group claims is configured; it accepts
    exactly when its list of errors is empty. *)
Theorem validate_config_accepts cfg :
  (fst (validate_config iter_set cfg) = true
   <-> length (subjects cfg) <= total_slots cfg
       /\ (forall s, In s (subjects cfg) ->
                     exists grp, In grp (groups cfg)
                                 /\ In s (group_subjects grp))
       /\ (forall grp s, In grp (groups cfg) -> In s (group_subjects grp) ->
                         In s (subjects cfg)))
  /\ (fst (validate_config iter_set cfg) = true
      <-> snd (validate_config iter_set cfg) = []).
Proof.
  pose proof (@validate_config_errors iter_set iter_set_perm cfg) as Herr.
  assert (Hempty : fst (validate_config iter_set cfg) = true
                   <-> snd (validate_config iter_set cfg) = []).
  { pose proof (@validate_config_false iter_set cfg) as H.
    destruct (fst (validate_config iter_set cfg)),
             (snd (validate_config iter_set cfg)) eqn:E; split;
      try congruence.
    - intros _. destruct H as [_ H]. now discriminate H.
    - intros _. destruct H as [H _]. exfalso. now apply H. }
  split; [|exact Hempty]. rewrite Hempty. split.
  - intros Hnil.
    assert (Hno : forall e, ~ In e (snd (validate_config iter_set cfg)))
      by (intros e; rewrite Hnil; auto).
    split; [|split].
    + destruct (le_lt_dec (length (subjects cfg)) (total_slots cfg));
        [assumption|].
      exfalso. eapply Hno. apply Herr. left. eauto.
    + intros s Hs. apply all_group_subjects_In.
      destruct (in_dec string_dec s (all_group_subjects (groups cfg)));
        [assumption|].
      exfalso. eapply Hno. apply Herr. right. left. eauto.
    + intros grp s Hg Hs.
      destruct (in_dec string_dec s (subjects cfg)); [assumption|].
      exfalso. eapply Hno. apply Herr. right. right.
      exists s. split; [reflexivity|]. split; [|assumption].
      apply all_group_subjects_In. eauto.
  - intros (H1 & H2 & H3).
    destruct (snd (validate_config iter_set cfg)) as [|e l] eqn:E;
      [reflexivity|].
    assert (He : In e (e :: l)) by now left.
    apply Herr in He.
    destruct He as [[_ H]|[(s & _ & Hs & Hn)|(s & _ & Hs & Hn)]].
    + lia.
    + exfalso. apply Hn. apply all_group_subjects_In. auto.
    + exfalso. apply Hn. apply all_group_subjects_In in Hs.
      destruct Hs as (grp & Hg & Hs). eauto.
Qed.
End ValidateFacts.

Lemma validate_config_accepts_witness :
  (fst (validate_config reversed_iter_set (four_subjects None)) = true
   <-> length (subjects (four_subjects None))
       <= total_slots (four_subjects None)
       /\ (forall s, In s (subjects (four_subjects None)) ->
                     exists grp, In grp (groups (four_subjects None))
                                 /\ In s (group_subjects grp))
       /\ (forall grp s, In grp (groups (four_subjects None)) ->
                         In s (group_subjects grp) ->
                         In s (subjects (four_subjects None))))
  /\ (fst (validate_config reversed_iter_set (four_subjects None)) = true
      <-> snd (validate_config reversed_iter_set (four_subjects None)) = []).
Proof.
  apply (@validate_config_accepts reversed_iter_set reversed_iter_set_perm
           (four_subjects None)).
Defined.

(** ** scheduler.py: consistency and forward checking *)

Lemma get_subjects_in_slot_free grps subject d s (a : list (Subject * Slot)) :
  ~ In (d, s) (map snd a) ->
  get_subjects_in_slot grps subject d s a = [subject].
Proof.
  unfold get_subjects_in_slot. generalize [subject].
  induction a as [|kv a IH]; intros acc Hfree; simpl; [reflexivity|].
  destruct (slot_eqb (snd kv) (d, s)) eqn:E.
  - apply slot_eqb_eq in E. exfalso. apply Hfree. simpl. now left.
  - apply IH. intros H. apply Hfree. simpl. now right.
Qed.

Lemma filter_mem_single subject (l : list Subject) :
  length (filter (fun s => mem s [subject]) l)
  = count_occ string_dec l subject.
Proof.
  induction l as [|x l IH]; [reflexivity|]. cbn [filter count_occ].
  assert (Hm : mem x [subject] = String.eqb x subject)
    by (unfold mem; simpl; apply orb_false_r).
  rewrite Hm.
  destruct (string_dec x subject) as [->|Hne].
  - rewrite String.eqb_refl. cbn [length]. now rewrite IH.
  - apply String.eqb_neq in Hne. now rewrite Hne.
Qed.

Lemma slot_occupied_iff (a : list (Subject * Slot)) d s :
  existsb (fun kv => slot_eqb (snd kv) (d, s)) a = true
  <-> In (d, s) (map snd a).
Proof.
  rewrite existsb_exists, in_map_iff. split.
  - intros [kv [H E]]. apply slot_eqb_eq in E. eauto.
  - intros [kv [E H]]. exists kv. split; [exact H|]. now apply slot_eqb_eq.
Qed.

(** Alone in its slot, a subject clashes only with itself: some group
    lists it twice. *)
Lemma check_group_conflicts_single grps subject :
  check_group_conflicts grps [subject] = true
  <-> exists grp, In grp grps
                  /\ 1 < count_occ string_dec (group_subjects grp) subject.
Proof.
  unfold check_group_conflicts. rewrite existsb_exists.
  split; intros [grp [Hg H]]; exists grp; (split; [exact Hg|]).
  - apply Nat.ltb_lt in H. now rewrite filter_mem_single in H.
  - apply Nat.ltb_lt. now rewrite filter_mem_single.
Qed.

Section MoreSchedulerFacts.
Variable RNG : Type.
Variable seed : Z -> RNG.
Variable shuffle : RNG -> list Slot -> list Slot * RNG.
Variable iter_set : list Subject -> list Subject.
Hypothesis iter_set_perm : forall l, Permutation (iter_set l) l.

Local Abbreviation Scheduler := (TimetableScheduler RNG).

Lemma _is_consistent_occupied (self : Scheduler) subject d s :
  In (d, s) (map snd (assignment self)) ->
  _is_consistent self subject d s = false.
Proof.
  intros H. apply slot_occupied_iff in H. unfold _is_consistent.
  now rewrite H.
Qed.

Lemma _is_consistent_vacant (self : Scheduler) subject d s :
  ~ In (d, s) (map snd (assignment self)) ->
  _is_consistent self subject d s
  = negb (check_group_conflicts (groups (config self)) [subject]).
Proof.
  intros Hfree. unfold _is_consistent.
  destruct (existsb _ (assignment self)) eqn:E.
  - apply slot_occupied_iff in E. contradiction.
  - now rewrite (@get_subjects_in_slot_free (groups (config self)) subject d s
                   (assignment self) Hfree).
Qed.

(** X3. [_is_consistent] accepts a slot for a subject exactly when no
    assigned subject holds that slot and no group lists the subject more
    than once.  The other subjects of the subject's groups play no part:
    once the slot is known to be free, the set built by
    [get_subjects_in_slot] holds the subject alone. *)
Theorem _is_consistent_iff (self : Scheduler) subject d s :
  _is_consistent self subject d s = true
  <-> ~ In (d, s) (map snd (assignment self))
      /\ forall grp, In grp (groups (config self)) ->
                     count_occ string_dec (group_subjects grp) subject <= 1.
Proof.
  assert (Hdec : In (d, s) (map snd (assignment self))
                 \/ ~ In (d, s) (map snd (assignment self))).
  { destruct (existsb (fun kv => slot_eqb (snd kv) (d, s))
                      (assignment self)) eqn:E.
    - left. now apply slot_occupied_iff.
    - right. intros H. apply slot_occupied_iff in H. congruence. }
  destruct Hdec as [Hin|Hfree].
  - rewrite (@_is_consistent_occupied self subject d s Hin).
    split; [discriminate | tauto].
  - rewrite (@_is_consistent_vacant self subject d s Hfree), negb_true_iff.
    split.
    + intros Hc. split; [exact Hfree|]. intros grp Hg.
      destruct (le_lt_dec (count_occ string_dec (group_subjects grp) subject)
                          1) as [|Hlt]; [assumption|].
      assert (check_group_conflicts (groups (config self)) [subject] = true)
        by (apply check_group_conflicts_single; eauto).
      congruence.
    + intros [_ Hall].
      destruct (check_group_conflicts _ [subject]) eqn:Ex; [|reflexivity].
      apply check_group_conflicts_single in Ex.
      destruct Ex as [grp [Hg Hlt]]. specialize (Hall grp Hg). lia.
Qed.

Lemma domain_remove_step x (dom : list Slot) :
  (if existsb (slot_eqb x) dom then domain_remove x dom else dom)
  = domain_remove x dom.
Proof.
  destruct (existsb (slot_eqb x) dom) eqn:E; [reflexivity|].
  unfold domain_remove. induction dom as [|y dom IH]; [reflexivity|].
  simpl in *. apply orb_false_iff in E. destruct E as [E1 E2].
  assert (Hy : slot_eqb y x = false).
  { destruct (slot_eqb y x) eqn:Ey; [|reflexivity].
    apply slot_eqb_eq in Ey. subst. now rewrite slot_eqb_refl in E1. }
  rewrite Hy. simpl. f_equal. now apply IH.
Qed.

Lemma domain_remove_idem x (dom : list Slot) :
  domain_remove x (domain_remove x dom) = domain_remove x dom.
Proof.
  unfold domain_remove. induction dom as [|y dom IH]; [reflexivity|].
  simpl. destruct (slot_eqb y x) eqn:E; simpl; [exact IH|].
  rewrite E. simpl. now rewrite IH.
Qed.

(** The neighbours whose domain forward checking prunes. *)
Definition pruned (self : Scheduler) (cs : list Subject) (c : Subject)
  : bool :=
  mem c cs && negb (dict_mem c (assignment self)).

Lemma forward_check_loop_result cs d s :
  forall self : Scheduler,
    (forall c, In c cs -> In c (keys (domains self))) ->
    exists checked self',
      forward_check_loop cs d s self = (Ok checked, self')
      /\ (checked = true
          <-> forall c dom, pruned self cs c = true ->
                            dict_get c (domains self) = Some dom ->
                            domain_remove (d, s) dom <> [])
      /\ (checked = true ->
          forall c, dict_get c (domains self')
                    = if pruned self cs c
                      then option_map (domain_remove (d, s))
                                      (dict_get c (domains self))
                      else dict_get c (domains self)).
Proof.
  induction cs as [|c0 cs IH]; intros self Hkeys.
  - exists true, self. split; [reflexivity|]. split.
    + split; [|reflexivity]. intros _ c dom H. discriminate H.
    + intros _ c. reflexivity.
  - simpl forward_check_loop.
    assert (Htail : forall c, In c cs -> In c (keys (domains self)))
      by (intros c Hc; apply Hkeys; now right).
    destruct (dict_mem c0 (assignment self)) eqn:Ea.
    + destruct (IH self Htail) as (b & self' & Hrun & Hb & Hd).
      exists b, self'. split; [exact Hrun|].
      assert (Hp : forall c, pruned self (c0 :: cs) c = pruned self cs c).
      { intros c. unfold pruned, mem. simpl.
        destruct (String.eqb c c0) eqn:E; [|reflexivity].
        apply String.eqb_eq in E. subst. rewrite Ea. simpl.
        now rewrite andb_false_r. }
      split.
      * rewrite Hb. split; intros H c dom; [rewrite Hp | rewrite <- Hp];
          apply H.
      * intros Hc c. rewrite Hp. now apply Hd.
    + destruct (dict_get c0 (domains self)) as [dom0|] eqn:Eg;
        [|apply dict_get_None in Eg; exfalso; apply Eg, Hkeys; now left].
      rewrite domain_remove_step.
      set (self1 := set_domains
                      (dict_set c0 (domain_remove (d, s) dom0)
                                (domains self)) self).
      assert (Hp0 : pruned self (c0 :: cs) c0 = true).
      { unfold pruned, mem. simpl. now rewrite String.eqb_refl, Ea. }
      destruct (is_empty (domain_remove (d, s) dom0)) eqn:Ee.
      * exists false, self1. split; [reflexivity|]. split; [|discriminate].
        split; [discriminate|]. intros H. exfalso.
        apply (H c0 dom0 Hp0 Eg).
        destruct (domain_remove (d, s) dom0); [reflexivity | discriminate].
      * assert (Hne : domain_remove (d, s) dom0 <> [])
          by (intros E; rewrite E in Ee; discriminate).
        destruct (IH self1) as (b & self' & Hrun & Hb & Hd).
        { intros c Hc. simpl.
          rewrite keys_dict_set_present;
            [now apply Htail | eapply dict_get_Some_key; eauto]. }
        exists b, self'. split; [exact Hrun|].
        assert (Hp : forall c, c <> c0 ->
                       pruned self (c0 :: cs) c = pruned self1 cs c).
        { intros c Hc. unfold pruned, mem. simpl.
          apply String.eqb_neq in Hc. now rewrite Hc. }
        assert (Hg1 : forall c, c <> c0 ->
                        dict_get c (domains self1)
                        = dict_get c (domains self)).
        { intros c Hc. simpl. now apply dict_get_set_neq. }
        assert (Hg0 : dict_get c0 (domains self1)
                      = Some (domain_remove (d, s) dom0))
          by (simpl; apply dict_get_set_eq).
        split.
        -- rewrite Hb. split.
           ++ intros H c dom Hpc Hgc.
              destruct (string_dec c c0) as [->|Hc].
              ** rewrite Eg in Hgc. inversion Hgc. now subst.
              ** apply (H c dom); [now rewrite <- Hp | now rewrite Hg1].
           ++ intros H c dom Hpc Hgc.
              destruct (string_dec c c0) as [->|Hc].
              ** rewrite Hg0 in Hgc. inversion Hgc.
                 now rewrite domain_remove_idem.
              ** apply (H c dom); [now rewrite Hp | now rewrite <- Hg1].
        -- intros Hc c. rewrite (Hd Hc c).
           destruct (string_dec c c0) as [->|Hne0].
           ++ rewrite Hp0, Hg0, Eg. simpl.
              destruct (pruned self1 cs c0); simpl;
                [now rewrite domain_remove_idem | reflexivity].
           ++ now rewrite <- Hp, Hg1.
Qed.

(** X4. When every neighbour has a domain, [_forward_check] raises
    nothing and leaves the assignment alone.  It returns [True] exactly
    when no unassigned neighbour loses its last slot, and then the domain
    of every unassigned neighbour has lost the assigned slot and all other
    domains are unchanged.  Walking the neighbours in another order gives
    the same value and, on [True], the same scheduler. *)
Theorem forward_check_outcome cs cs' d s (self : Scheduler) :
  (forall c, In c cs -> In c (keys (domains self))) ->
  Permutation cs cs' ->
  exists checked self',
    forward_check_loop cs d s self = (Ok checked, self')
    /\ assignment self' = assignment self
    /\ (checked = true
        <-> forall c dom, pruned self cs c = true ->
                          dict_get c (domains self) = Some dom ->
                          domain_remove (d, s) dom <> [])
    /\ (checked = true ->
        forall c, dict_get c (domains self')
                  = if pruned self cs c
                    then option_map (domain_remove (d, s))
                                    (dict_get c (domains self))
                    else dict_get c (domains self))
    /\ fst (forward_check_loop cs' d s self) = Ok checked
    /\ (checked = true -> snd (forward_check_loop cs' d s self) = self').
Proof.
  intros Hkeys Hperm.
  destruct (forward_check_loop_result cs d s self Hkeys)
    as (b & self' & Hrun & Hb & Hd).
  exists b, self'. split; [exact Hrun|].
  pose proof (forward_check_loop_frame _ _ _ _ Hrun) as (_ & _ & Ha & _).
  split; [exact Ha|]. split; [exact Hb|]. split; [exact Hd|].
  destruct (forward_check_order d s Hperm self Hkeys) as [H1 H2].
  rewrite Hrun in H1, H2. simpl in H1, H2.
  split; [now rewrite <- H1|].
  intros ->. symmetry. now apply H2.
Qed.
End MoreSchedulerFacts.

(** The scheduler of the four-subject example after "E" has been put in
    slot (0, 0), before forward checking. *)
Definition four_subjects_after_E : TimetableScheduler Z :=
  let cfg := four_subjects None in
  mkScheduler cfg (build_conflict_graph (groups cfg))
              [("E"%string, (0, 0))]
              (map (fun s => (s, all_slots cfg)) (subjects cfg)) 1 0%Z.

Lemma forward_check_outcome_witness :
  exists checked self',
    forward_check_loop ["M"; "P"; "Q"]%string 0 0 four_subjects_after_E
    = (Ok checked, self')
    /\ assignment self' = assignment four_subjects_after_E
    /\ (checked = true
        <-> forall c dom,
              pruned four_subjects_after_E ["M"; "P"; "Q"]%string c = true ->
              dict_get c (domains four_subjects_after_E) = Some dom ->
              domain_remove (0, 0) dom <> [])
    /\ (checked = true ->
        forall c, dict_get c (domains self')
                  = if pruned four_subjects_after_E ["M"; "P"; "Q"]%string c
                    then option_map (domain_remove (0, 0))
                           (dict_get c (domains four_subjects_after_E))
                    else dict_get c (domains four_subjects_after_E))
    /\ fst (forward_check_loop ["Q"; "P"; "M"]%string 0 0
                               four_subjects_after_E) = Ok checked
    /\ (checked = true ->
        snd (forward_check_loop ["Q"; "P"; "M"]%string 0 0
                                four_subjects_after_E) = self').
Proof.
  apply (@forward_check_outcome Z ["M"; "P"; "Q"]%string
           ["Q"; "P"; "M"]%string 0 0 four_subjects_after_E).
  - intros c Hc. simpl in Hc. simpl.
    destruct Hc as [<-|[<-|[<-|[]]]]; tauto.
  - apply perm_trans with (["P"; "Q"; "M"]%string).
    + apply perm_trans with (["P"; "M"; "Q"]%string);
        [apply perm_swap | apply perm_skip, perm_swap].
    + apply perm_swap.
Defined.

(** ** scheduler.py: the search *)

Lemma free_slot_exists (grid used : list Slot) :
  NoDup grid -> length used < length grid ->
  exists x, In x grid /\ ~ In x used.
Proof.
  intros Hnd Hlen.
  destruct (existsb (fun x => negb (existsb (slot_eqb x) used)) grid) eqn:E.
  - apply existsb_exists in E. destruct E as [x [Hx Hn]].
    exists x. split; [exact Hx|]. intros Hin.
    apply negb_true_iff in Hn.
    assert (existsb (slot_eqb x) used = true); [|congruence].
    apply existsb_exists. exists x. split; [exact Hin | apply slot_eqb_refl].
  - exfalso.
    assert (Hincl : incl grid used).
    { intros x Hx. destruct (existsb (slot_eqb x) used) eqn:Ex.
      - apply existsb_exists in Ex. destruct Ex as [y [Hy Exy]].
        apply slot_eqb_eq in Exy. now subst.
      - assert (existsb (fun x => negb (existsb (slot_eqb x) used)) grid
                = true); [|congruence].
        apply existsb_exists. exists x. split; [exact Hx|]. now rewrite Ex. }
    pose proof (NoDup_incl_length Hnd Hincl). lia.
Qed.

Lemma slot_used_dec (a : list (Subject * Slot)) d s :
  In (d, s) (map snd a) \/ ~ In (d, s) (map snd a).
Proof.
  destruct (existsb (fun kv => slot_eqb (snd kv) (d, s)) a) eqn:E.
  - left. now apply slot_occupied_iff.
  - right. intros H. apply slot_occupied_iff in H. congruence.
Qed.

Lemma In_domain_remove (x y : Slot) dom :
  In y dom -> y <> x -> In y (domain_remove x dom).
Proof.
  intros Hin Hne. unfold domain_remove. apply filter_In.
  split; [exact Hin|]. apply negb_true_iff.
  destruct (slot_eqb y x) eqn:E; [|reflexivity].
  apply slot_eqb_eq in E. contradiction.
Qed.

Lemma all_slots_length cfg : length (all_slots cfg) = total_slots cfg.
Proof.
  unfold all_slots, total_slots.
  assert (G : forall l : list nat,
             length (flat_map (fun day => map (fun slot => (day, slot))
                                              (seq 0 (slots_per_day cfg))) l)
             = length l * slots_per_day cfg).
  { induction l as [|x l IH]; [reflexivity|].
    simpl. rewrite length_app, length_map, length_seq, IH. reflexivity. }
  rewrite G, length_seq. reflexivity.
Qed.

Lemma initial_domains_full (grid : list Slot) (subjs : list Subject) :
  forall d : list (Subject * list Slot),
    Forall (fun kv => snd kv = grid) d ->
    Forall (fun kv => snd kv = grid)
           (fold_left (fun d subject => dict_set subject grid d) subjs d).
Proof.
  induction subjs as [|x subjs IH]; intros d Hd; simpl; [exact Hd|].
  apply IH. rewrite Forall_forall in *. intros [k v] Hin.
  apply In_dict_set in Hin.
  destruct Hin as [E|Hin]; [inversion E; reflexivity | now apply Hd].
Qed.

Lemma repeated_subject (l : list Subject) :
  ~ NoDup l -> exists x, 1 < count_occ string_dec l x.
Proof.
  induction l as [|x l IH]; intros H.
  - exfalso. apply H. constructor.
  - destruct (in_dec string_dec x l) as [Hin|Hn].
    + exists x. simpl. destruct (string_dec x x); [|congruence].
      apply (count_occ_In string_dec) in Hin. lia.
    + destruct IH as [y Hy].
      { intros Hnd. apply H. now constructor. }
      exists y. simpl. destruct (string_dec x y); lia.
Qed.

Lemma NoDup_or_repeated (l : list Subject) :
  NoDup l \/ exists x, 1 < count_occ string_dec l x.
Proof.
  induction l as [|x l [IH|[y Hy]]].
  - left. constructor.
  - destruct (in_dec string_dec x l) as [Hin|Hn].
    + right. exists x. simpl. destruct (string_dec x x); [|congruence].
      apply (count_occ_In string_dec) in Hin. lia.
    + left. now constructor.
  - right. exists y. simpl. destruct (string_dec x y); lia.
Qed.

(** Some group lists the subject more than once. *)
Definition listed_twice (x : Subject) (cfg : TimetableConfig) : Prop :=
  exists grp, In grp (groups cfg)
              /\ 1 < count_occ string_dec (group_subjects grp) x.

Section SearchFacts.
Variable RNG : Type.
Variable seed : Z -> RNG.
Variable shuffle : RNG -> list Slot -> list Slot * RNG.
Variable iter_set : list Subject -> list Subject.
Hypothesis iter_set_perm : forall l, Permutation (iter_set l) l.

Local Abbreviation Scheduler := (TimetableScheduler RNG).

Lemma _is_consistent_twice (self : Scheduler) x d s :
  listed_twice x (config self) -> _is_consistent self x d s = false.
Proof.
  intros Ht. destruct (slot_used_dec (assignment self) d s) as [Hin|Hfree].
  - now apply _is_consistent_occupied.
  - rewrite (@_is_consistent_vacant _ self x d s Hfree).
    apply negb_false_iff. now apply check_group_conflicts_single.
Qed.

Lemma _is_consistent_once (self : Scheduler) x d s :
  (forall grp, In grp (groups (config self)) ->
               count_occ string_dec (group_subjects grp) x <= 1) ->
  ~ In (d, s) (map snd (assignment self)) ->
  _is_consistent self x d s = true.
Proof.
  intros Hg Hfree. rewrite (@_is_consistent_vacant _ self x d s Hfree).
  apply negb_true_iff.
  destruct (check_group_conflicts (groups (config self)) [x]) eqn:E;
    [|exact E].
  apply check_group_conflicts_single in E. destruct E as [grp [Hin Hlt]].
  specialize (Hg grp Hin). lia.
Qed.

(** *** The search keeps the configuration *)

Lemma try_slots_config next subject :
  (forall self : Scheduler, config (snd (next self)) = config self) ->
  forall possible_slots (self : Scheduler),
    config (snd (try_slots iter_set next subject possible_slots self)) =
        config self.
Proof.
  intros Hnext. induction possible_slots as [|[d s] rest IH]; intros self.
  - reflexivity.
  - simpl. destruct (_is_consistent self subject d s); [|apply IH].
    destruct (_forward_check iter_set _ subject d s) as [r self2] eqn:Ef.
    unfold _forward_check in Ef. apply forward_check_loop_frame in Ef.
    destruct Ef as (Hc2 & _). simpl in Hc2.
    destruct r as [checked|e]; [|exact Hc2].
    destruct (if checked then next self2 else (Ok false, self2))
      as [r3 self3] eqn:E3.
    assert (Hc3 : config self3 = config self).
    { rewrite <- Hc2. destruct checked.
      - rewrite <- (Hnext self2), E3. reflexivity.
      - inversion E3. reflexivity. }
    destruct r3 as [[|]|e]; try exact Hc3.
    destruct (dict_del subject (assignment self3)); [|exact Hc3].
    rewrite IH. exact Hc3.
Qed.

Lemma backtrack_from_config pending :
  forall self : Scheduler,
    config (snd (_backtrack_from shuffle iter_set pending self)) = config self.
Proof.
  induction pending as [|subject pending IH]; intros self; simpl.
  - reflexivity.
  - destruct (dict_get subject (domains self)); [|reflexivity].
    destruct (shuffle (rng self) l) as [possible_slots g].
    now rewrite (try_slots_config (_backtrack_from shuffle iter_set pending)
                                  subject IH).
Qed.

(** *** A subject that a group lists twice cannot be placed *)

Lemma try_slots_twice next subject x :
  (forall self : Scheduler, config (snd (next self)) = config self) ->
  subject = x
  \/ (forall self : Scheduler,
         listed_twice x (config self) -> fst (next self) <> Ok true) ->
  forall possible_slots (self : Scheduler),
    listed_twice x (config self) ->
    fst (try_slots iter_set next subject possible_slots self) <> Ok true.
Proof.
  intros Hcfg Hnext.
  induction possible_slots as [|[d s] rest IH]; intros self Ht.
  - discriminate.
  - simpl. destruct (_is_consistent self subject d s) eqn:Ec;
      [|now apply IH].
    destruct Hnext as [->|Hnext];
      [rewrite (_is_consistent_twice self d s Ht) in Ec; discriminate|].
    destruct (_forward_check iter_set _ subject d s) as [r self2] eqn:Ef.
    unfold _forward_check in Ef. apply forward_check_loop_frame in Ef.
    destruct Ef as (Hc2 & _). simpl in Hc2.
    destruct r as [checked|e]; [|discriminate].
    destruct (if checked then next self2 else (Ok false, self2))
      as [r3 self3] eqn:E3.
    assert (Hc3 : config self3 = config self).
    { rewrite <- Hc2. destruct checked.
      - rewrite <- (Hcfg self2), E3. reflexivity.
      - inversion E3. reflexivity. }
    assert (Hr3 : r3 <> Ok true).
    { destruct checked.
      - assert (Ht2 : listed_twice x (config self2)) by now rewrite Hc2.
        specialize (Hnext self2 Ht2). now rewrite E3 in Hnext.
      - inversion E3. discriminate. }
    destruct r3 as [[|]|e]; [congruence | | discriminate].
    destruct (dict_del subject (assignment self3)); [|discriminate].
    apply IH. simpl. now rewrite Hc3.
Qed.

Lemma backtrack_from_twice x pending :
  In x pending ->
  forall self : Scheduler,
    listed_twice x (config self) ->
    fst (_backtrack_from shuffle iter_set pending self) <> Ok true.
Proof.
  induction pending as [|subject pending IH]; intros Hin self Ht;
    [destruct Hin|].
  simpl. destruct (dict_get subject (domains self)); [|discriminate].
  destruct (shuffle (rng self) l) as [possible_slots g].
  apply try_slots_twice with (x := x).
  - apply backtrack_from_config.
  - destruct Hin as [->|Hin]; [now left | right; now apply IH].
  - exact Ht.
Qed.

(** *** A search that meets no dead end *)

(** A state in which every slot of the grid that is still free is in the
    domain of every pending subject, the grid has room for the pending
    subjects, and no group lists a subject twice. *)
Record roomy (grid : list Slot) (pending : list Subject)
    (self : Scheduler) : Prop := {
  roomy_inv : search_inv grid pending self;
  roomy_grid : NoDup grid;
  roomy_room : length (assignment self) + length pending <= length grid;
  roomy_groups :
    forall grp x, In grp (groups (config self)) ->
                  count_occ string_dec (group_subjects grp) x <= 1;
  roomy_domains :
    forall c dom x, In c pending ->
                    dict_get c (domains self) = Some dom ->
                    In x grid -> ~ In x (map snd (assignment self)) ->
                    In x dom;
  roomy_neighbours :
    forall a c, In c (conflicts_get a (conflicts self)) ->
                In c (keys (assignment self)) \/ In c pending }.

Lemma try_slots_roomy grid next subject pending :
  (forall self : Scheduler,
      roomy grid pending self ->
      exists self',
        next self = (Ok true, self')
        /\ backtrack_count self'
           = backtrack_count self + length pending + 1) ->
  forall possible_slots (self : Scheduler),
    roomy grid (subject :: pending) self ->
    incl possible_slots grid ->
    (exists x, In x possible_slots
               /\ ~ In x (map snd (assignment self))) ->
    exists self',
      try_slots iter_set next subject possible_slots self = (Ok true, self')
      /\ backtrack_count self' = backtrack_count self + length pending + 1.
Proof.
  intros Hnext.
  induction possible_slots as [|[d s] rest IH];
    intros self Hr Hincl [x [Hx Hxfree]]; [destruct Hx|].
  assert (Hrest : incl rest grid) by (intros y Hy; apply Hincl; now right).
  simpl. destruct (slot_used_dec (assignment self) d s) as [Hused|Hfree].
  { rewrite (@_is_consistent_occupied _ self subject d s Hused).
    apply IH; [exact Hr | exact Hrest|].
    exists x. split; [|exact Hxfree].
    destruct Hx as [<-|Hx]; [contradiction | exact Hx]. }
  rewrite (@_is_consistent_once self subject d s
             (fun grp Hg => roomy_groups Hr grp subject Hg) Hfree).
  pose proof (roomy_inv Hr) as Hinv.
  assert (Hfresh : ~ In subject (keys (assignment self))).
  { intros Hin. pose proof (inv_subjects Hinv) as Hnd.
    apply NoDup_remove_2 in Hnd. apply Hnd. apply in_or_app. now left. }
  set (self1 := set_assignment
                  (dict_set subject (d, s) (assignment self)) self).
  assert (Ha1 : assignment self1 = assignment self ++ [(subject, (d, s))]).
  { unfold self1. simpl. now apply dict_set_absent. }
  assert (Hlen : length (assignment self) + S (length pending)
                 <= length grid) by exact (roomy_room Hr).
  assert (Hgrid : In (d, s) grid) by (apply Hincl; now left).
  unfold _forward_check.
  destruct (@forward_check_loop_result
              _ (iter_set (conflicts_get subject (conflicts self1)))
              d s self1
              (@walked_neighbours _ iter_set iter_set_perm grid
                                  (subject :: pending) self subject Hinv))
    as (checked & self2 & Efc & Hb & Hd).
  rewrite Efc. apply forward_check_loop_frame in Efc.
  destruct Efc as (Hc2 & Hg2 & Ha2 & Hn2 & _ & Hk2 & Hd2).
  assert (Hchecked : checked = true).
  { apply Hb. intros c dom Hp Hget E.
    unfold pruned in Hp. apply andb_true_iff in Hp. destruct Hp as [Hm Hu].
    apply mem_In in Hm. apply negb_true_iff in Hu.
    apply (proj1 (@In_iter_set iter_set iter_set_perm c _)) in Hm.
    assert (Hcp : In c pending).
    { destruct (roomy_neighbours Hr subject c Hm) as [Hk|[<-|Hp]];
        [| |exact Hp]; exfalso.
      - assert (dict_mem c (assignment self1) = true); [|congruence].
        apply dict_mem_In. rewrite Ha1. unfold keys. rewrite map_app.
        apply in_or_app. now left.
      - assert (dict_mem subject (assignment self1) = true); [|congruence].
        apply dict_mem_In. rewrite Ha1. unfold keys. rewrite map_app.
        apply in_or_app. right. now left. }
    assert (Hp1 : 1 <= length pending)
      by (destruct pending; [destruct Hcp | simpl; lia]).
    destruct (@free_slot_exists grid (map snd (assignment self1))
                (roomy_grid Hr)) as [y [Hy Hyfree]].
    { rewrite Ha1, length_map, length_app. simpl. lia. }
    rewrite Ha1, map_app, in_app_iff in Hyfree. simpl in Hyfree.
    assert (In y (domain_remove (d, s) dom)); [|rewrite E in *; auto].
    apply In_domain_remove; [|intros ->; tauto].
    apply (@roomy_domains _ _ _ Hr c dom y);
      [now right | exact Hget | exact Hy|].
    tauto. }
  subst checked.
  assert (Hr2 : roomy grid pending self2).
  { split.
    - destruct Hinv as [I1 I2 I3 I4 I5 I6]. split.
      + rewrite Ha2, Ha1. unfold keys. rewrite map_app. simpl.
        now rewrite <- app_assoc.
      + rewrite Ha2, Ha1, map_app. simpl.
        apply NoDup_rev in I2. rewrite <- (rev_involutive (_ ++ _)).
        apply NoDup_rev. rewrite rev_app_distr. simpl.
        constructor; [|exact I2]. now rewrite <- in_rev.
      + rewrite Ha2, Ha1, map_app. simpl. apply incl_app; [exact I3|].
        intros z [<-|[]]. exact Hgrid.
      + apply Hd2. exact I4.
      + intros c Hin. rewrite Hk2. apply I5. now right.
      + intros a c Hin. rewrite Hk2. rewrite Hg2 in Hin. exact (I6 a c Hin).
    - exact (roomy_grid Hr).
    - rewrite Ha2, Ha1, length_app. simpl. lia.
    - intros grp z Hg. rewrite Hc2 in Hg. exact (roomy_groups Hr grp z Hg).
    - intros c dom z Hc Hget Hz Hzfree.
      rewrite Ha2, Ha1, map_app, in_app_iff in Hzfree. simpl in Hzfree.
      rewrite (Hd eq_refl c) in Hget.
      destruct (pruned self1 _ c).
      + destruct (dict_get c (domains self1)) as [dom1|] eqn:E1;
          [|discriminate]. simpl in Hget. inversion Hget. subst dom.
        apply In_domain_remove; [|intros ->; tauto].
        apply (@roomy_domains _ _ _ Hr c dom1 z); [now right | exact E1 |
            exact Hz|].
        tauto.
      + apply (@roomy_domains _ _ _ Hr c dom z); [now right | exact Hget |
          exact Hz|].
        tauto.
    - intros a c Hin. rewrite Hg2 in Hin. rewrite Ha2, Ha1.
      unfold keys. rewrite map_app, in_app_iff. simpl.
      destruct (roomy_neighbours Hr a c Hin) as [H|[H|H]]; auto. }
  destruct (Hnext self2 Hr2) as (self3 & E3 & Hn3).
  rewrite E3. exists self3. split; [reflexivity|].
  rewrite Hn3, Hn2. reflexivity.
Qed.

Hypothesis shuffle_perm : forall g l, Permutation (fst (shuffle g l)) l.

Lemma backtrack_from_roomy grid pending :
  forall self : Scheduler,
    roomy grid pending self ->
    exists self',
      _backtrack_from shuffle iter_set pending self = (Ok true, self')
      /\ backtrack_count self' = backtrack_count self + length pending + 1.
Proof.
  induction pending as [|subject pending IH]; intros self Hr.
  - simpl. eexists. split; [reflexivity|]. simpl. lia.
  - simpl. pose proof (roomy_inv Hr) as Hinv.
    destruct (dict_get subject (domains self)) as [dom|] eqn:Eg;
      [|apply dict_get_None in Eg; exfalso; apply Eg;
        apply (inv_pending Hinv); now left].
    destruct (shuffle (rng self) dom) as [possible_slots g] eqn:Es.
    assert (Hperm : Permutation possible_slots dom)
      by (pose proof (shuffle_perm (rng self) dom) as H;
          now rewrite Es in H).
    assert (Hr' : roomy grid (subject :: pending)
                        (set_rng g (count_backtrack self))).
    { destruct Hr as [[I1 I2 I3 I4 I5 I6] R2 R3 R4 R5 R6].
      split; [split|..]; simpl; assumption. }
    destruct (@try_slots_roomy grid (_backtrack_from shuffle iter_set pending)
                subject pending IH possible_slots
                (set_rng g (count_backtrack self)) Hr')
      as (self' & Et & Hn).
    + assert (Hd : incl dom grid)
        by (eapply domains_within_get; [apply (inv_domains Hinv) | exact Eg]).
      intros x Hx. apply Hd. eapply Permutation_in; [exact Hperm | exact Hx].
    + destruct (@free_slot_exists grid (map snd (assignment self))
                  (roomy_grid Hr)) as [x [Hx Hfree]].
      { rewrite length_map. pose proof (roomy_room Hr) as H. simpl in H. lia. }
      exists x. split; [|exact Hfree].
      eapply Permutation_in; [apply Permutation_sym, Hperm|].
      apply (@roomy_domains _ _ _ Hr subject dom x); auto. now left.
    + exists self'. split; [exact Et|]. rewrite Hn. simpl. lia.
Qed.

Lemma initial_roomy cfg g :
  valid_TimetableConfig cfg = true ->
  fst (validate_config iter_set cfg) = true ->
  (forall grp, In grp (groups cfg) -> NoDup (group_subjects grp)) ->
  roomy (all_slots cfg)
        (variable_order (TimetableScheduler_init seed cfg g))
        (set_domains
           (fold_left (fun d subject => dict_set subject (all_slots cfg) d)
                      (subjects cfg) [])
           (TimetableScheduler_init seed cfg g)).
Proof.
  intros Hv Hval Hnd. split.
  - exact (@initial_inv _ seed iter_set iter_set_perm cfg g Hv Hval).
  - apply all_slots_NoDup.
  - simpl. unfold variable_order. rewrite sorted_reverse_length. simpl.
    rewrite all_slots_length.
    pose proof (@validate_config_slots iter_set iter_set_perm cfg Hval) as H.
    apply Nat.ltb_ge in H. exact H.
  - simpl. intros grp x Hg. now apply NoDup_count_occ, Hnd.
  - simpl. intros c dom x _ Hget Hx _.
    apply dict_get_In in Hget.
    pose proof (@initial_domains_full (all_slots cfg) (subjects cfg) []
                  (Forall_nil _)) as Hf.
    rewrite Forall_forall in Hf. specialize (Hf _ Hget). simpl in Hf.
    now subst dom.
  - simpl. intros a c Hc. right.
    apply (sorted_reverse_In _ c (subjects cfg)).
    apply (@validate_config_groups iter_set iter_set_perm cfg);
      [exact Hval|].
    apply all_group_subjects_In.
    apply (build_conflict_graph_spec a (groups cfg)) in Hc.
    destruct Hc as (_ & grp & Hg & _ & Hc). eauto.
Qed.

Lemma generate_timetable_roomy cfg g :
  valid_TimetableConfig cfg = true ->
  fst (validate_config iter_set cfg) = true ->
  (forall grp, In grp (groups cfg) -> NoDup (group_subjects grp)) ->
  exists self' : Scheduler,
    generate_timetable seed shuffle iter_set cfg g
    = (Ok (mkTimetableResult (exam_slots (assignment self')) cfg), self')
    /\ backtrack_count self' = length (subjects cfg) + 1.
Proof.
  intros Hv Hval Hnd.
  unfold generate_timetable, TimetableScheduler_generate_timetable.
  simpl config. rewrite (@validate_config_slots iter_set iter_set_perm cfg
      Hval).
  destruct (validate_config iter_set cfg) as [v errs] eqn:Ev.
  simpl in Hval. subst v. simpl negb. cbv iota.
  unfold _backtrack. simpl skipn.
  match goal with
  | |- context [_backtrack_from shuffle iter_set ?p ?s] =>
      destruct (@backtrack_from_roomy (all_slots cfg) p s) as (self' & E & Hn);
      [|pose proof (backtrack_from_config p s) as Hc]
  end.
  - apply initial_roomy; [exact Hv | now rewrite Ev | exact Hnd].
  - rewrite E in Hc |- *. simpl in Hc. exists self'. rewrite Hc.
    split; [reflexivity|]. rewrite Hn. simpl.
    unfold variable_order. rewrite sorted_reverse_length. reflexivity.
Qed.

Lemma generate_timetable_twice cfg g x :
  valid_TimetableConfig cfg = true ->
  fst (validate_config iter_set cfg) = true ->
  listed_twice x cfg ->
  exists self' : Scheduler,
    generate_timetable seed shuffle iter_set cfg g
    = (Raise (mkExn NoSolutionError msg_exhaustive_search
                (diag_search
                   (backtrack_count self') (length (subjects cfg))
                   (fold_left
                      (fun d s =>
                         dict_set s
                           (iter_set
                              (conflicts_get
                                 s (build_conflict_graph (groups cfg)))) d)
                      (subjects cfg) []))),
       self')
    /\ assignment self' = [].
Proof.
  intros Hv Hval Ht.
  unfold generate_timetable, TimetableScheduler_generate_timetable.
  simpl config. rewrite (@validate_config_slots iter_set iter_set_perm cfg
      Hval).
  destruct (validate_config iter_set cfg) as [v errs] eqn:Ev.
  assert (Hval' : fst (validate_config iter_set cfg) = true) by now rewrite Ev.
  simpl in Hval. subst v. simpl negb. cbv iota.
  unfold _backtrack. simpl skipn.
  match goal with
  | |- context [_backtrack_from shuffle iter_set ?p ?s] =>
      pose proof (@backtrack_from_spec _ shuffle iter_set iter_set_perm
          shuffle_perm
                    (all_slots cfg) p s (@initial_inv _ seed iter_set
                        iter_set_perm cfg g Hv Hval'))
        as Hspec;
      assert (Hnot : fst (_backtrack_from shuffle iter_set p s) <> Ok true);
      [|destruct (_backtrack_from shuffle iter_set p s) as [r self'] eqn:Eb]
  end.
  - apply backtrack_from_twice with (x := x); [|exact Ht].
    apply sorted_reverse_In.
    destruct Ht as (grp & Hg & Hlt).
    apply (@validate_config_groups iter_set iter_set_perm cfg);
      [exact Hval'|].
    apply all_group_subjects_In. exists grp. split; [exact Hg|].
    apply (count_occ_In string_dec). lia.
  - destruct Hspec as (Hc & Hg & Hpost). simpl in Hc, Hg, Hpost, Hnot.
    destruct r as [[|]|e]; [congruence | | destruct Hpost].
    exists self'. rewrite Hc, Hg. split; [reflexivity | now destruct Hpost].
Qed.

(** X5. On a configuration the constructors accept, [generate_timetable]
    returns a timetable exactly when [validate_config] passes and no group
    lists a subject twice.  The conflicts between subjects never make the
    search fail: whenever a timetable is returned, [_backtrack] was entered
    once per subject and once more at the end, so no assignment was ever
    undone. *)
Theorem generate_timetable_succeeds_iff cfg g :
  valid_TimetableConfig cfg = true ->
  ((exists tt (self' : Scheduler),
       generate_timetable seed shuffle iter_set cfg g = (Ok tt, self'))
   <-> fst (validate_config iter_set cfg) = true
       /\ forall grp, In grp (groups cfg) -> NoDup (group_subjects grp))
  /\ (forall tt (self' : Scheduler),
         generate_timetable seed shuffle iter_set cfg g = (Ok tt, self') ->
         backtrack_count self' = length (subjects cfg) + 1).
Proof.
  intros Hv.
  assert (Hok : forall tt (self' : Scheduler),
             generate_timetable seed shuffle iter_set cfg g = (Ok tt, self') ->
             fst (validate_config iter_set cfg) = true
             /\ forall grp, In grp (groups cfg) ->
                            NoDup (group_subjects grp)).
  { intros tt self' Hg.
    assert (Hval : fst (validate_config iter_set cfg) = true).
    { destruct (fst (validate_config iter_set cfg)) eqn:E; [reflexivity|].
      rewrite (@generate_timetable_invalid _ seed shuffle iter_set cfg g E) in
          Hg.
      discriminate. }
    split; [exact Hval|]. intros grp Hin.
    destruct (NoDup_or_repeated (group_subjects grp)) as [Hnd|[x Hx]];
      [exact Hnd|].
    destruct (@generate_timetable_twice cfg g x Hv Hval) as (self'' & E & _).
    - exists grp. auto.
    - rewrite E in Hg. discriminate. }
  split; [split|].
  - intros (tt & self' & Hg). eapply Hok; eauto.
  - intros [Hval Hnd].
    destruct (@generate_timetable_roomy cfg g Hv Hval Hnd) as (self' & E & _).
    eauto.
  - intros tt self' Hg. destruct (Hok _ _ Hg) as [Hval Hnd].
    destruct (@generate_timetable_roomy cfg g Hv Hval Hnd) as (self'' & E & Hn).
    rewrite E in Hg. inversion Hg. now subst.
Qed.

(** X6. When a configuration passes the constructors and
    [validate_config] but some group lists one of its subjects twice,
    [generate_timetable] raises [NoSolutionError] with the message of the
    exhausted search: [_is_consistent] refuses every slot for that
    subject.  The diagnostics carry the number of calls of [_backtrack],
    the number of subjects and the conflict graph: one entry for each
    subject, in the order of [subjects], whose list holds the subjects
    that share a group with it in the order in which the run walks that
    set.  Whatever that order is, the list is a permutation of the
    subjects in the set. *)
Theorem repeated_subject_unsolvable cfg g :
  valid_TimetableConfig cfg = true ->
  fst (validate_config iter_set cfg) = true ->
  (exists grp, In grp (groups cfg) /\ ~ NoDup (group_subjects grp)) ->
  exists self' : Scheduler,
    generate_timetable seed shuffle iter_set cfg g
    = (Raise (mkExn NoSolutionError msg_exhaustive_search
                (diag_search
                   (backtrack_count self') (length (subjects cfg))
                   (fold_left
                      (fun d s =>
                         dict_set s
                           (iter_set
                              (conflicts_get
                                 s (build_conflict_graph (groups cfg)))) d)
                      (subjects cfg) []))),
       self')
    /\ assignment self' = []
    /\ Forall2 (fun kv1 kv2 : Subject * list Subject =>
                  fst kv1 = fst kv2 /\ Permutation (snd kv1) (snd kv2))
               (fold_left
                  (fun d s =>
                     dict_set s
                       (iter_set
                          (conflicts_get
                             s (build_conflict_graph (groups cfg)))) d)
                  (subjects cfg) [])
               (fold_left
                  (fun d s =>
                     dict_set s
                       (conflicts_get
                          s (build_conflict_graph (groups cfg))) d)
                  (subjects cfg) []).
Proof.
  intros Hv Hval (grp & Hin & Hnd).
  apply repeated_subject in Hnd. destruct Hnd as [x Hx].
  destruct (@generate_timetable_twice cfg g x Hv Hval) as (self' & E & Ha).
  { exists grp. auto. }
  exists self'. split; [exact E|]. split; [exact Ha|].
  exact (@conflicts_walked iter_set (fun l => l) iter_set_perm
           (fun l => Permutation_refl l)
           (build_conflict_graph (groups cfg)) (subjects cfg) [] []
           (Forall2_nil _)).
Qed.
End SearchFacts.

Lemma generate_timetable_succeeds_iff_witness :
  ((exists tt self',
       generate_timetable demo_seed demo_shuffle demo_iter_set (four_subjects
           (Some 7%Z))
                          0%Z = (Ok tt, self'))
   <-> fst (validate_config demo_iter_set (four_subjects (Some 7%Z))) = true
       /\ forall grp, In grp (groups (four_subjects (Some 7%Z))) ->
                      NoDup (group_subjects grp))
  /\ (forall tt self',
         generate_timetable demo_seed demo_shuffle demo_iter_set
             (four_subjects (Some 7%Z))
                            0%Z = (Ok tt, self') ->
         backtrack_count self' = 4 + 1).
Proof.
  apply (@generate_timetable_succeeds_iff
           Z demo_seed demo_shuffle demo_iter_set demo_iter_set_perm
               demo_shuffle_perm
           (four_subjects (Some 7%Z)) 0%Z).
  reflexivity.
Defined.

(** A group that lists "M" twice; the configuration passes the
    constructors and [validate_config]. *)
Definition repeated_in_group : TimetableConfig :=
  mkTimetableConfig 1 2 ["M"; "E"]%string
    [mkStudentGroup "g" ["M"; "M"; "E"]%string 10] None.

Lemma repeated_subject_unsolvable_witness :
  exists self',
    generate_timetable demo_seed demo_shuffle reversed_iter_set
                       repeated_in_group 0%Z
    = (Raise (mkExn NoSolutionError msg_exhaustive_search
                (diag_search
                   (backtrack_count self') 2
                   (fold_left
                      (fun d s =>
                         dict_set s
                           (reversed_iter_set
                              (conflicts_get
                                 s (build_conflict_graph
                                      (groups repeated_in_group)))) d)
                      (subjects repeated_in_group) []))),
       self')
    /\ assignment self' = []
    /\ Forall2 (fun kv1 kv2 : Subject * list Subject =>
                  fst kv1 = fst kv2 /\ Permutation (snd kv1) (snd kv2))
               (fold_left
                  (fun d s =>
                     dict_set s
                       (reversed_iter_set
                          (conflicts_get
                             s (build_conflict_graph
                                  (groups repeated_in_group)))) d)
                  (subjects repeated_in_group) [])
               (fold_left
                  (fun d s =>
                     dict_set s
                       (conflicts_get
                          s (build_conflict_graph
                               (groups repeated_in_group))) d)
                  (subjects repeated_in_group) []).
Proof.
  apply (@repeated_subject_unsolvable
           Z demo_seed demo_shuffle reversed_iter_set reversed_iter_set_perm
           demo_shuffle_perm repeated_in_group 0%Z).
  - reflexivity.
  - reflexivity.
  - exists (mkStudentGroup "g" ["M"; "M"; "E"]%string 10).
    split; [now left|]. simpl. intros H.
    apply NoDup_cons_iff in H. destruct H as [H _]. apply H. now left.
Defined.

(** ** types.py: looking a timetable up *)

Lemma find_unique {A B} (f : A -> B) (p : A -> bool) (l : list A) (a : A) :
  NoDup (map f l) -> In a l ->
  (forall b, p b = true <-> f b = f a) ->
  find p l = Some a.
Proof.
  intros Hnd Hin Hp. induction l as [|x l IH]; [destruct Hin|].
  simpl in *. inversion Hnd as [|? ? Hx Hnd']. subst.
  destruct (p x) eqn:Ex.
  - apply Hp in Ex. destruct Hin as [->|Hin]; [reflexivity|].
    exfalso. apply Hx. rewrite Ex. now apply in_map.
  - destruct Hin as [->|Hin]; [|now apply IH].
    assert (p a = true) by now apply Hp. congruence.
Qed.

Section Lookups.
Variable RNG : Type.
Variable seed : Z -> RNG.
Variable shuffle : RNG -> list Slot -> list Slot * RNG.
Variable iter_set : list Subject -> list Subject.
Hypothesis iter_set_perm : forall l, Permutation (iter_set l) l.
Hypothesis shuffle_perm : forall g l, Permutation (fst (shuffle g l)) l.

(** X7. On a timetable that [generate_timetable] returned, the two
    lookups of [TimetableResult] are inverse to each other:
    [get_subject_slot] finds every configured subject, in a slot of the
    grid, and [get_assignment] at that slot gives the subject back;
    [get_subject_slot] is [None] for any other name; and a subject that
    [get_assignment] finds at a slot has that slot as its own. *)
Theorem lookups_inverse cfg g tt (self' : TimetableScheduler RNG) :
  valid_TimetableConfig cfg = true ->
  generate_timetable seed shuffle iter_set cfg g = (Ok tt, self') ->
  (forall x, In x (subjects cfg) ->
             exists d s,
               get_subject_slot tt x = Some (d, s)
               /\ d < days cfg /\ s < slots_per_day cfg
               /\ get_assignment tt d s = Some x)
  /\ (forall x, ~ In x (subjects cfg) -> get_subject_slot tt x = None)
  /\ (forall d s x, get_assignment tt d s = Some x ->
                    get_subject_slot tt x = Some (d, s)).
Proof.
  intros Hv Hg.
  destruct (@generate_timetable_success _ seed shuffle iter_set iter_set_perm
      shuffle_perm
              cfg g tt self' Hv Hg) as (-> & Hk & Hn & Hi).
  set (l := exam_slots (assignment self')).
  assert (Hsub : map subject l = keys (assignment self'))
    by apply exam_slots_subject.
  assert (Hslot : map (fun e => (day e, slot e)) l
                  = map snd (assignment self')) by apply exam_slots_slot.
  assert (Hperm : Permutation (keys (assignment self')) (subjects cfg))
    by (rewrite Hk; apply sorted_reverse_perm).
  assert (Hnds : NoDup (map subject l)).
  { rewrite Hsub. eapply Permutation_NoDup;
      [apply Permutation_sym, Hperm | now apply valid_config_NoDup]. }
  assert (Hndl : NoDup (map (fun e => (day e, slot e)) l))
    by now rewrite Hslot.
  assert (Hby_subject : forall a, In a l ->
             find (fun b => String.eqb (subject b) (subject a)) l = Some a).
  { intros a Ha. apply (find_unique subject _ _ _ Hnds Ha).
    intros b. apply String.eqb_eq. }
  assert (Hby_slot : forall a, In a l ->
             find (fun b => Nat.eqb (day b) (day a)
                            && Nat.eqb (slot b) (slot a)) l = Some a).
  { intros a Ha.
    apply (find_unique (fun e => (day e, slot e)) _ _ _ Hndl Ha).
    intros b. rewrite andb_true_iff, !Nat.eqb_eq. split.
    - intros [-> ->]. reflexivity.
    - intros [= -> ->]. auto. }
  unfold get_subject_slot, get_assignment. simpl assignments. fold l.
  split; [|split].
  - intros x Hx.
    assert (Hin : In x (map subject l)).
    { rewrite Hsub. eapply Permutation_in;
        [apply Permutation_sym, Hperm | exact Hx]. }
    apply in_map_iff in Hin. destruct Hin as (a & <- & Ha).
    exists (day a), (slot a). rewrite (Hby_subject a Ha), (Hby_slot a Ha).
    assert (Hgrid : In (day a, slot a) (all_slots cfg)).
    { apply Hi. rewrite <- Hslot.
      exact (in_map (fun e => (day e, slot e)) _ _ Ha). }
    apply all_slots_In in Hgrid. tauto.
  - intros x Hx.
    destruct (find (fun a => String.eqb (subject a) x) l) as [a|] eqn:E;
      [|reflexivity].
    apply find_some in E. destruct E as [Ha E]. apply String.eqb_eq in E.
    exfalso. apply Hx. eapply Permutation_in; [exact Hperm|].
    rewrite <- Hsub, <- E. now apply in_map.
  - intros d s x H.
    destruct (find (fun a => Nat.eqb (day a) d && Nat.eqb (slot a) s) l)
      as [a|] eqn:E; [|discriminate].
    apply find_some in E. destruct E as [Ha E].
    apply andb_true_iff in E. rewrite !Nat.eqb_eq in E. destruct E as [<- <-].
    inversion H. subst x. now rewrite (Hby_subject a Ha).
Qed.
End Lookups.

Lemma lookups_inverse_witness :
  (forall x, In x ["M"; "E"; "P"; "Q"]%string ->
             exists d s,
               get_subject_slot four_subjects_timetable x = Some (d, s)
               /\ d < 2 /\ s < 2
               /\ get_assignment four_subjects_timetable d s = Some x)
  /\ (forall x, ~ In x ["M"; "E"; "P"; "Q"]%string ->
                get_subject_slot four_subjects_timetable x = None)
  /\ (forall d s x, get_assignment four_subjects_timetable d s = Some x ->
                    get_subject_slot four_subjects_timetable x
                    = Some (d, s)).
Proof.
  apply (@lookups_inverse Z demo_seed demo_shuffle demo_iter_set
      demo_iter_set_perm demo_shuffle_perm
           (four_subjects (Some 7%Z)) 0%Z four_subjects_timetable
           (snd four_subjects_run)).
  - reflexivity.
  - reflexivity.
Defined.

(** ** scheduler.py: hall allocation of timetables with one subject per
    slot *)

Lemma filter_slot_none (l : list ExamSlot) d s :
  ~ In (d, s) (map (fun e => (day e, slot e)) l) ->
  filter (fun a => Nat.eqb (day a) d && Nat.eqb (slot a) s) l = [].
Proof.
  induction l as [|x l IH]; intros H; simpl; [reflexivity|].
  destruct (Nat.eqb (day x) d && Nat.eqb (slot x) s) eqn:E.
  - apply andb_true_iff in E. rewrite !Nat.eqb_eq in E. destruct E as [<- <-].
    exfalso. apply H. simpl. now left.
  - apply IH. intros Hin. apply H. simpl. now right.
Qed.

Lemma one_subject_per_slot (tt : TimetableResult) d s :
  NoDup (map (fun e => (day e, slot e)) (assignments tt)) ->
  length (subjects_in_slot_of tt d s) <= 1.
Proof.
  unfold subjects_in_slot_of. rewrite length_map.
  induction (assignments tt) as [|x l IH]; intros Hnd; simpl; [lia|].
  inversion Hnd as [|? ? Hx Hnd']. subst.
  destruct (Nat.eqb (day x) d && Nat.eqb (slot x) s) eqn:E.
  - apply andb_true_iff in E. rewrite !Nat.eqb_eq in E. destruct E as [<- <-].
    rewrite (@filter_slot_none l _ _ Hx). simpl. lia.
  - now apply IH.
Qed.

Lemma greedy_loop_no_students self d s pending acc :
  greedy_loop self d s pending [] acc = Ok acc.
Proof. destruct pending; reflexivity. Qed.

Section LimitUnused.
Variable tt : TimetableResult.
Variable hs : list Hall.
Variable L1 L2 : Z.

Local Abbreviation self1 := (HallAllocator_init tt (mkHallConfig hs L1)).
Local Abbreviation self2 := (HallAllocator_init tt (mkHallConfig hs L2)).

(** With one subject to seat, the special case of [_greedy_allocate]
    always applies, and the limit is never read. *)
Lemma greedy_loop_limit d s pending :
  forall k D acc,
    greedy_loop self1 d s pending [(k, D)] acc
    = greedy_loop self2 d s pending [(k, D)] acc.
Proof.
  induction pending as [|hall pending IH]; intros k D acc.
  - cbn [greedy_loop existsb]. destruct (has_students (k, D)); reflexivity.
  - cbn [greedy_loop existsb].
    destruct (has_students (k, D)) eqn:Hhs; cbn [orb]; [|reflexivity].
    unfold subjects_with_students_of. cbn [filter]. rewrite Hhs.
    cbn [sorted_reverse fold_right insert_desc fill_hall].
    destruct (capacity hall <=? 0)%Z; [apply IH|].
    unfold allocate_amount_of. cbn [filter]. rewrite Hhs.
    cbn [length Nat.eqb].
    destruct (0 <? Z.min D (capacity hall - 0))%Z.
    + cbn [fill_hall app is_empty]. unfold dict_sub. cbn [dict_get].
      rewrite String.eqb_refl. cbn [dict_set]. rewrite String.eqb_refl.
      apply IH.
    + cbn [fill_hall is_empty]. apply IH.
Qed.

Hypothesis one_per_slot :
  forall d s, length (subjects_in_slot_of tt d s) <= 1.

Lemma _allocate_slot_limit d s :
  _allocate_slot self1 d s = _allocate_slot self2 d s.
Proof.
  unfold _allocate_slot. simpl alloc_timetable. simpl alloc_groups.
  specialize (one_per_slot d s).
  destruct (subjects_in_slot_of tt d s) as [|k [|k' sis]];
    [reflexivity | | simpl in one_per_slot; lia].
  cbn [is_empty]. unfold _greedy_allocate.
  rewrite subject_students_of_single.
  destruct (existsb (enrolled k) (groups (tt_config tt))).
  - apply greedy_loop_limit.
  - now rewrite !greedy_loop_no_students.
Qed.

Lemma allocate_loop_limit slots :
  forall acc, allocate_loop self1 slots acc = allocate_loop self2 slots acc.
Proof.
  induction slots as [|[d s] slots IH]; intros acc; simpl; [reflexivity|].
  rewrite _allocate_slot_limit.
  destruct (_allocate_slot self2 d s); [apply IH | reflexivity].
Qed.

Lemma allocate_halls_limit :
  match allocate_halls tt (mkHallConfig hs L1) with
  | Ok r => Ok (HallAllocationResult_to_dict r)
  | Raise e => Raise e
  end
  = match allocate_halls tt (mkHallConfig hs L2) with
    | Ok r => Ok (HallAllocationResult_to_dict r)
    | Raise e => Raise e
    end.
Proof.
  unfold allocate_halls, HallAllocator_allocate_halls.
  simpl alloc_timetable. rewrite allocate_loop_limit.
  destruct (allocate_loop self2 _ []); reflexivity.
Qed.
End LimitUnused.

Section PipelineFacts.
Variable RNG : Type.
Variable seed : Z -> RNG.
Variable shuffle : RNG -> list Slot -> list Slot * RNG.
Variable iter_set : list Subject -> list Subject.
Hypothesis iter_set_perm : forall l, Permutation (iter_set l) l.
Hypothesis shuffle_perm : forall g l, Permutation (fst (shuffle g l)) l.

Lemma generated_one_per_slot cfg g tt (self' : TimetableScheduler RNG) :
  valid_TimetableConfig cfg = true ->
  generate_timetable seed shuffle iter_set cfg g = (Ok tt, self') ->
  forall d s, length (subjects_in_slot_of tt d s) <= 1.
Proof.
  intros Hv Hg d s.
  destruct (@generate_timetable_success _ seed shuffle iter_set iter_set_perm
      shuffle_perm
              cfg g tt self' Hv Hg) as (-> & _ & Hn & _).
  apply one_subject_per_slot. simpl assignments.
  now rewrite exam_slots_slot.
Qed.

(** X8. The solve of [generate_schedule] does not depend on
    [per_subject_limit]: a generated timetable has at most one subject in a
    slot, so [_greedy_allocate] always takes its single-subject branch and
    fills each hall with as many students as fit.  Two hall configurations
    with the same halls give the same response or the same exception. *)
Theorem per_subject_limit_unused cfg hs L1 L2 g :
  valid_TimetableConfig cfg = true ->
  generate_schedule seed shuffle iter_set cfg (mkHallConfig hs L1) g
  = generate_schedule seed shuffle iter_set cfg (mkHallConfig hs L2) g.
Proof.
  intros Hv. unfold generate_schedule.
  destruct (generate_timetable seed shuffle iter_set cfg g) as [r self'] eqn:Hg.
  simpl fst. destruct r as [tt|e]; [|reflexivity].
  apply allocate_halls_limit.
  exact (@generated_one_per_slot cfg g tt self' Hv Hg).
Qed.
End PipelineFacts.

Lemma per_subject_limit_unused_witness :
  generate_schedule demo_seed demo_shuffle demo_iter_set (four_subjects (Some
      7%Z))
                    (mkHallConfig [mkHall "A" 50; mkHall "B" 50] 30) 0%Z
  = generate_schedule demo_seed demo_shuffle demo_iter_set (four_subjects
      (Some 7%Z))
                      (mkHallConfig [mkHall "A" 50; mkHall "B" 50] 1) 0%Z.
Proof.
  apply (@per_subject_limit_unused Z demo_seed demo_shuffle demo_iter_set
      demo_iter_set_perm demo_shuffle_perm
           (four_subjects (Some 7%Z)) [mkHall "A" 50; mkHall "B" 50]
           30%Z 1%Z 0%Z).
  reflexivity.
Defined.

Section SingleSubject.
Variable self : HallAllocator.
Variable d s : nat.
Variable k : Subject.

Lemma greedy_loop_idle pending D acc :
  (D <= 0)%Z -> greedy_loop self d s pending [(k, D)] acc = Ok acc.
Proof.
  intros HD.
  assert (E : has_students (k, D) = false) by (apply Z.ltb_ge; simpl; lia).
  destruct pending; cbn [greedy_loop existsb]; rewrite E; reflexivity.
Qed.

(** One turn of the [while] loop when a single subject is left. *)
Lemma greedy_loop_single_step hall pending D acc :
  (0 < capacity hall)%Z -> (0 < D)%Z ->
  greedy_loop self d s (hall :: pending) [(k, D)] acc
  = greedy_loop self d s pending [(k, (D - Z.min D (capacity hall))%Z)]
      (acc ++ [mkHallAssignment (name hall) d s
                                [(k, Z.min D (capacity hall))]]).
Proof.
  intros Hc HD.
  assert (Hhs : has_students (k, D) = true) by (apply Z.ltb_lt; simpl; lia).
  assert (Ec : (capacity hall <=? 0)%Z = false) by (apply Z.leb_gt; lia).
  assert (Em : (capacity hall - 0)%Z = capacity hall) by lia.
  assert (Ea : (0 <? Z.min D (capacity hall))%Z = true)
    by (apply Z.ltb_lt; lia).
  cbn [greedy_loop existsb]. rewrite Hhs. cbn [orb].
  unfold subjects_with_students_of. cbn [filter]. rewrite Hhs.
  cbn [sorted_reverse fold_right insert_desc fill_hall].
  rewrite Ec. unfold allocate_amount_of. cbn [filter]. rewrite Hhs.
  cbn [length Nat.eqb]. rewrite Em, Ea. cbn [fill_hall app is_empty].
  unfold dict_sub. cbn [dict_get]. rewrite String.eqb_refl.
  cbn [dict_set]. rewrite String.eqb_refl. reflexivity.
Qed.

Lemma greedy_loop_single_fits pending :
  Forall (fun h => (0 < capacity h)%Z) pending ->
  forall D acc,
    (D <= fold_right Z.add 0 (map capacity pending))%Z ->
    exists new, greedy_loop self d s pending [(k, D)] acc = Ok new.
Proof.
  induction 1 as [|hall pending Hc Hcs IH]; intros D acc Hle.
  - simpl in Hle. exists acc. now apply greedy_loop_idle.
  - destruct (Z_le_gt_dec D 0) as [H0|H0];
      [exists acc; now apply greedy_loop_idle|].
    rewrite greedy_loop_single_step by lia.
    apply IH. pose proof (sum_capacity_nonneg Hcs). simpl in Hle. lia.
Qed.

(** What a slot with a single subject is given: halls that hold this
    subject only, each full unless it is the last one. *)
Definition poured (pending : list Hall) (new : list HallAssignment) : Prop :=
  Forall (fun a => ha_day a = d /\ ha_slot a = s
                   /\ exists n, allocations a = [(k, n)] /\ (0 < n)%Z) new
  /\ forall earlier a b later,
       new = earlier ++ a :: b :: later ->
       exists hall, In hall pending /\ name hall = hall_name a
                    /\ allocations a = [(k, capacity hall)].

Lemma greedy_loop_poured pending :
  Forall (fun h => (0 < capacity h)%Z) pending ->
  forall D new,
    greedy_loop self d s pending [(k, D)] [] = Ok new ->
    poured pending new.
Proof.
  induction 1 as [|hall pending Hc Hcs IH]; intros D new Hrun.
  - destruct (Z_le_gt_dec D 0) as [H0|H0].
    + rewrite greedy_loop_idle in Hrun by assumption. inversion Hrun.
      split; [constructor|]. intros [|] ? ? ? E; discriminate E.
    + assert (Hhs : has_students (k, D) = true)
        by (apply Z.ltb_lt; simpl; lia).
      cbn [greedy_loop existsb] in Hrun. rewrite Hhs in Hrun.
      discriminate.
  - destruct (Z_le_gt_dec D 0) as [H0|H0].
    + rewrite greedy_loop_idle in Hrun by assumption. inversion Hrun.
      split; [constructor|]. intros [|] ? ? ? E; discriminate E.
    + rewrite greedy_loop_single_step, greedy_loop_acc in Hrun by lia.
      destruct (greedy_loop self d s pending
                  [(k, (D - Z.min D (capacity hall))%Z)] [])
        as [new'|e] eqn:Enew; [|discriminate].
      inversion Hrun as [Hnew]. simpl.
      destruct (IH _ _ Enew) as [Hall Hfull]. split.
      * constructor; [|exact Hall]. simpl.
        repeat split; auto. exists (Z.min D (capacity hall)).
        split; [reflexivity | lia].
      * intros earlier a b later E. destruct earlier as [|a0 earlier].
        -- simpl in E. inversion E as [[Ea Enew']]. exists hall.
           split; [now left|]. split; [reflexivity|]. simpl.
           assert (Hmore : (0 < D - Z.min D (capacity hall))%Z).
           { destruct (Z_le_gt_dec (D - Z.min D (capacity hall)) 0)
               as [Hz|Hz]; [|lia].
             rewrite greedy_loop_idle in Enew by assumption.
             inversion Enew. subst new'. discriminate. }
           do 2 f_equal. lia.
        -- simpl in E. inversion E as [[Ea Enew']].
           destruct (Hfull _ _ _ _ Enew') as (h & Hin & Hn & Hal).
           exists h. split; [now right | auto].
Qed.
End SingleSubject.

Lemma allocate_loop_ok self slots :
  (forall d s, In (d, s) slots -> exists sa, _allocate_slot self d s = Ok sa) ->
  forall acc, exists res, allocate_loop self slots acc = Ok res.
Proof.
  induction slots as [|[d s] slots IH]; intros Hok acc; simpl; [eauto|].
  destruct (Hok d s (or_introl eq_refl)) as [sa ->].
  apply IH. intros d' s' Hin. apply Hok. now right.
Qed.

Lemma single_in_slot (sis : list Subject) k :
  length sis <= 1 -> In k sis -> sis = [k].
Proof.
  destruct sis as [|y [|z sis]]; simpl; intros Hlen Hin;
    [destruct Hin | | lia].
  destruct Hin as [->|[]]. reflexivity.
Qed.

Section SingleSubjectSlots.
Variable tt : TimetableResult.
Variable hc : HallConfig.
Hypothesis positive_halls : Forall (fun h => (0 < capacity h)%Z) (halls hc).

Local Abbreviation self := (HallAllocator_init tt hc).

Lemma sorted_halls_positive :
  Forall (fun h => (0 < capacity h)%Z) (sorted_halls self).
Proof.
  rewrite Forall_forall in *. intros h Hh. apply positive_halls.
  exact (proj1 (sorted_reverse_In capacity h (halls hc)) Hh).
Qed.

Lemma sorted_halls_capacity :
  fold_right Z.add 0%Z (map capacity (sorted_halls self)) = total_capacity hc.
Proof. apply sum_capacity_perm, sorted_reverse_perm. Qed.

Lemma _allocate_slot_single d s k :
  subjects_in_slot_of tt d s = [k] ->
  _allocate_slot self d s
  = if existsb (enrolled k) (groups (tt_config tt))
    then greedy_loop self d s (sorted_halls self)
                     [(k, demand (groups (tt_config tt)) k)] []
    else Ok [].
Proof.
  intros E. unfold _allocate_slot. simpl alloc_timetable. rewrite E.
  cbn [is_empty]. unfold _greedy_allocate. simpl alloc_groups.
  rewrite subject_students_of_single.
  destruct (existsb (enrolled k) (groups (tt_config tt))); [reflexivity|].
  apply greedy_loop_no_students.
Qed.

Lemma _allocate_slot_single_fits d s k :
  subjects_in_slot_of tt d s = [k] ->
  (demand (groups (tt_config tt)) k <= total_capacity hc)%Z ->
  exists sa, _allocate_slot self d s = Ok sa.
Proof.
  intros E Hle. rewrite (_allocate_slot_single d s E).
  destruct (existsb (enrolled k) (groups (tt_config tt))); [|eauto].
  apply greedy_loop_single_fits; [apply sorted_halls_positive|].
  now rewrite sorted_halls_capacity.
Qed.

Lemma _allocate_slot_single_short d s k :
  subjects_in_slot_of tt d s = [k] ->
  (total_capacity hc < demand (groups (tt_config tt)) k)%Z ->
  exists e, _allocate_slot self d s = Raise e.
Proof.
  intros E Hlt. rewrite (_allocate_slot_single d s E).
  pose proof (sum_capacity_nonneg positive_halls) as Hnn.
  fold (total_capacity hc) in Hnn.
  destruct (existsb (enrolled k) (groups (tt_config tt))) eqn:Ee.
  - rewrite (@greedy_loop_single self d s (sorted_halls self)
               sorted_halls_positive);
      [eauto | now rewrite sorted_halls_capacity].
  - rewrite (demand_none _ _ Ee) in Hlt. lia.
Qed.

Lemma _allocate_slot_poured d s sa :
  length (subjects_in_slot_of tt d s) <= 1 ->
  _allocate_slot self d s = Ok sa ->
  sa = []
  \/ exists k, subjects_in_slot_of tt d s = [k]
               /\ poured d s k (sorted_halls self) sa.
Proof.
  intros Hlen.
  destruct (subjects_in_slot_of tt d s) as [|k [|k' sis]] eqn:E;
    [|clear Hlen|simpl in Hlen; lia].
  - unfold _allocate_slot. simpl alloc_timetable. rewrite E. simpl.
    intros [= <-]. now left.
  - rewrite (_allocate_slot_single d s E).
    destruct (existsb (enrolled k) (groups (tt_config tt)));
      [|intros [= <-]; now left].
    intros Hrun. right. exists k. split; [reflexivity|].
    eapply greedy_loop_poured; [apply sorted_halls_positive | exact Hrun].
Qed.
End SingleSubjectSlots.

Section PackingFacts.
Variable RNG : Type.
Variable seed : Z -> RNG.
Variable shuffle : RNG -> list Slot -> list Slot * RNG.
Variable iter_set : list Subject -> list Subject.
Hypothesis iter_set_perm : forall l, Permutation (iter_set l) l.
Hypothesis shuffle_perm : forall g l, Permutation (fst (shuffle g l)) l.

(** X9. For a timetable that [generate_timetable] returned and a hall
    configuration the constructors accept, [allocate_halls] succeeds
    exactly when every subject, taken alone, fits in all the halls
    together: the students of the groups that take it are no more than
    the total capacity. *)
Theorem halls_suffice_iff cfg hc g tt (self' : TimetableScheduler RNG) :
  valid_TimetableConfig cfg = true ->
  valid_HallConfig hc = true ->
  generate_timetable seed shuffle iter_set cfg g = (Ok tt, self') ->
  (exists res, allocate_halls tt hc = Ok res)
  <-> forall x, In x (subjects cfg) ->
                (demand (groups cfg) x <= total_capacity hc)%Z.
Proof.
  intros Hv Hh Hg.
  pose proof (@generated_one_per_slot _ seed shuffle iter_set iter_set_perm
      shuffle_perm
                cfg g tt self' Hv Hg) as Hone.
  destruct (@generate_timetable_success _ seed shuffle iter_set iter_set_perm
      shuffle_perm
              cfg g tt self' Hv Hg) as (Htt & Hk & Hn & Hi).
  pose proof (valid_hall_capacities _ Hh) as Hpos.
  assert (Hcfg : tt_config tt = cfg) by now rewrite Htt.
  assert (Hsub : map subject (assignments tt) = keys (assignment self'))
    by (rewrite Htt; apply exam_slots_subject).
  assert (Hslots : map (fun e => (day e, slot e)) (assignments tt)
                   = map snd (assignment self'))
    by (rewrite Htt; apply exam_slots_slot).
  assert (Hperm : Permutation (keys (assignment self')) (subjects cfg))
    by (rewrite Hk; apply sorted_reverse_perm).
  split.
  - intros [res Hres] x Hx.
    destruct (Z_le_gt_dec (demand (groups cfg) x) (total_capacity hc))
      as [Hle|Hgt]; [exact Hle | exfalso].
    assert (Hin : In x (map subject (assignments tt))).
    { rewrite Hsub. eapply Permutation_in;
        [apply Permutation_sym, Hperm | exact Hx]. }
    apply in_map_iff in Hin. destruct Hin as ([d s x'] & Ex & Ha).
    simpl in Ex. subst x'.
    assert (Hgrid : In (d, s) (all_slots (tt_config tt))).
    { rewrite Hcfg. apply Hi. rewrite <- Hslots.
      exact (in_map (fun e => (day e, slot e)) _ _ Ha). }
    assert (Hsis : subjects_in_slot_of tt d s = [x]).
    { apply single_in_slot; [apply Hone|].
      now apply subjects_in_slot_of_In. }
    destruct (@_allocate_slot_single_short tt hc Hpos d s x Hsis)
      as [e0 He0]; [rewrite Hcfg; lia|].
    destruct (@allocate_loop_raise (HallAllocator_init tt hc) d s e0
                (all_slots (tt_config tt))
                (all_slots_sorted (tt_config tt)) Hgrid He0 [])
      as (d' & s' & e & Hl & _).
    unfold allocate_halls, HallAllocator_allocate_halls in Hres.
    simpl alloc_timetable in Hres. rewrite Hl in Hres. discriminate.
  - intros Hfit.
    destruct (@allocate_loop_ok (HallAllocator_init tt hc)
                (all_slots (tt_config tt))) with (acc := @nil HallAssignment)
      as [res Hres].
    + intros d s _.
      destruct (subjects_in_slot_of tt d s) as [|k sis] eqn:E.
      * exists []. unfold _allocate_slot. simpl alloc_timetable.
        now rewrite E.
      * assert (Hsis : subjects_in_slot_of tt d s = [k]).
        { apply single_in_slot; [apply Hone | rewrite E; now left]. }
        apply (@_allocate_slot_single_fits tt hc Hpos d s k Hsis).
        rewrite Hcfg. apply Hfit.
        eapply Permutation_in; [exact Hperm|]. rewrite <- Hsub.
        assert (Hk' : In k (subjects_in_slot_of tt d s))
          by (rewrite Hsis; now left).
        apply subjects_in_slot_of_In in Hk'.
        exact (in_map subject _ _ Hk').
    + unfold allocate_halls, HallAllocator_allocate_halls.
      simpl alloc_timetable. rewrite Hres. eauto.
Qed.

Lemma generated_assignment_single cfg hc g tt
    (self' : TimetableScheduler RNG) res a :
  valid_TimetableConfig cfg = true ->
  valid_HallConfig hc = true ->
  generate_timetable seed shuffle iter_set cfg g = (Ok tt, self') ->
  allocate_halls tt hc = Ok res ->
  In a (hall_assignments res) ->
  exists x n,
    allocations a = [(x, n)] /\ (0 < n)%Z
    /\ In (mkExamSlot (ha_day a) (ha_slot a) x) (assignments tt).
Proof.
  intros Hv Hh Hg Hres Ha.
  pose proof (@generated_one_per_slot _ seed shuffle iter_set iter_set_perm
      shuffle_perm
                cfg g tt self' Hv Hg) as Hone.
  pose proof (valid_hall_capacities _ Hh) as Hpos.
  destruct (allocate_halls_ok _ _ Hres) as (Hloop & _ & _).
  destruct (allocate_loop_In _ _ _ _ Hloop Ha)
    as [[]|(d & s & sa & _ & Hsa & Hin)].
  destruct (@_allocate_slot_poured tt hc Hpos d s sa (Hone d s) Hsa)
    as [->|(k & Hsis & Hall & _)]; [destruct Hin|].
  rewrite Forall_forall in Hall.
  destruct (Hall a Hin) as (-> & -> & n & Hal & Hn).
  exists k, n. split; [exact Hal|]. split; [exact Hn|].
  apply subjects_in_slot_of_In. rewrite Hsis. now left.
Qed.

(** X10. In the hall allocation of a generated timetable no hall is
    shared: every hall assignment holds one subject only, the one examined
    in its slot, with a positive number of students; and within a slot
    every hall but the last one used is filled to its capacity. *)
Theorem halls_never_mixed cfg hc g tt (self' : TimetableScheduler RNG) res :
  valid_TimetableConfig cfg = true ->
  valid_HallConfig hc = true ->
  generate_timetable seed shuffle iter_set cfg g = (Ok tt, self') ->
  allocate_halls tt hc = Ok res ->
  (forall a, In a (hall_assignments res) ->
             exists x n,
               allocations a = [(x, n)] /\ (0 < n)%Z
               /\ In (mkExamSlot (ha_day a) (ha_slot a) x) (assignments tt))
  /\ (forall d s earlier a b later,
         filter (in_slot d s) (hall_assignments res)
         = earlier ++ a :: b :: later ->
         exists hall x,
           In hall (halls hc) /\ name hall = hall_name a
           /\ allocations a = [(x, capacity hall)]).
Proof.
  intros Hv Hh Hg Hres.
  pose proof (@generated_one_per_slot _ seed shuffle iter_set iter_set_perm
      shuffle_perm
                cfg g tt self' Hv Hg) as Hone.
  pose proof (valid_hall_capacities _ Hh) as Hpos.
  destruct (allocate_halls_ok _ _ Hres) as (Hloop & _ & _).
  split.
  - intros a Ha.
    exact (@generated_assignment_single cfg hc g tt self' res a
             Hv Hh Hg Hres Ha).
  - intros d s earlier a b later E.
    destruct (allocate_loop_slot (HallAllocator_init tt hc)
                (all_slots_NoDup (tt_config tt)) _ Hloop d s)
      as [Hin Hout].
    assert (Hdec : In (d, s) (all_slots (tt_config tt))
                   \/ ~ In (d, s) (all_slots (tt_config tt))).
    { destruct (slot_in_grid_dec tt d s) as [Hy|Hn];
        [left | right; intros Hy; apply Hn]; now apply all_slots_In. }
    destruct Hdec as [Hg'|Hg'].
    + destruct (Hin Hg') as (sa & Hsa & Hf). simpl in Hf.
      rewrite Hf in E.
      destruct (@_allocate_slot_poured tt hc Hpos d s sa (Hone d s) Hsa)
        as [->|(k & _ & _ & Hfull)];
        [destruct earlier; discriminate E|].
      destruct (Hfull _ _ _ _ E) as (hall & Hhall & Hname & Hal).
      exists hall, k. split; [|auto].
      exact (proj1 (sorted_reverse_In capacity hall (halls hc)) Hhall).
    + rewrite (Hout Hg') in E. simpl in E.
      destruct earlier; discriminate E.
Qed.
End PackingFacts.

(** Two halls of 20 seats for the four-subject example. *)
Definition tight_halls : HallConfig :=
  mkHallConfig [mkHall "A" 20; mkHall "B" 20] 30.

Definition four_subjects_result : HallAllocationResult :=
  mkHallAllocationResult
    [mkHallAssignment "A" 0 0 [("Q"%string, 20%Z)];
     mkHallAssignment "B" 0 0 [("Q"%string, 5%Z)];
     mkHallAssignment "A" 0 1 [("M"%string, 15%Z)];
     mkHallAssignment "A" 1 0 [("E"%string, 20%Z)];
     mkHallAssignment "B" 1 0 [("E"%string, 10%Z)];
     mkHallAssignment "A" 1 1 [("P"%string, 20%Z)]]
    four_subjects_timetable tight_halls.

Lemma halls_suffice_iff_witness :
  (exists res, allocate_halls four_subjects_timetable tight_halls = Ok res)
  <-> forall x, In x ["M"; "E"; "P"; "Q"]%string ->
                (demand (groups (four_subjects (Some 7%Z))) x
                 <= total_capacity tight_halls)%Z.
Proof.
  apply (@halls_suffice_iff Z demo_seed demo_shuffle demo_iter_set
      demo_iter_set_perm demo_shuffle_perm
           (four_subjects (Some 7%Z)) tight_halls 0%Z
           four_subjects_timetable (snd four_subjects_run)).
  - reflexivity.
  - reflexivity.
  - reflexivity.
Defined.

Lemma halls_never_mixed_witness :
  (forall a, In a (hall_assignments four_subjects_result) ->
             exists x n,
               allocations a = [(x, n)] /\ (0 < n)%Z
               /\ In (mkExamSlot (ha_day a) (ha_slot a) x)
                     (assignments four_subjects_timetable))
  /\ (forall d s earlier a b later,
         filter (in_slot d s) (hall_assignments four_subjects_result)
         = earlier ++ a :: b :: later ->
         exists hall x,
           In hall (halls tight_halls) /\ name hall = hall_name a
           /\ allocations a = [(x, capacity hall)]).
Proof.
  apply (@halls_never_mixed Z demo_seed demo_shuffle demo_iter_set
      demo_iter_set_perm demo_shuffle_perm
           (four_subjects (Some 7%Z)) tight_halls 0%Z
           four_subjects_timetable (snd four_subjects_run)
           four_subjects_result).
  - reflexivity.
  - reflexivity.
  - reflexivity.
  - reflexivity.
Defined.

(** ** routes.py and schemas.py *)

Lemma first_raise_None {A} (f : A -> option value_error) (l : list A) :
  first_raise f l = None <-> forall x, In x l -> f x = None.
Proof.
  induction l as [|x l IH]; simpl.
  - split; [intros _ x [] | reflexivity].
  - destruct (f x) eqn:E.
    + split; [discriminate|]. intros H.
      rewrite (H x (or_introl eq_refl)) in E. discriminate E.
    + rewrite IH. split.
      * intros H y [<-|Hy]; auto.
      * intros H y Hy. apply H. now right.
Qed.

Lemma StudentGroup_raises_None g :
  StudentGroup_raises g = None <-> StudentGroup_post_init g = true.
Proof.
  unfold StudentGroup_raises, StudentGroup_post_init.
  rewrite andb_true_iff, Z.ltb_lt, negb_true_iff.
  destruct (Z.leb_spec (group_size g) 0) as [Hle|Hgt].
  - split; [discriminate | lia].
  - destruct (is_empty (group_subjects g)).
    + split; [discriminate | intros [_ E]; discriminate E].
    + split; auto.
Qed.

Lemma TimetableConfig_raises_None c :
  TimetableConfig_raises c = None <-> TimetableConfig_post_init c = true.
Proof.
  unfold TimetableConfig_raises, TimetableConfig_post_init.
  rewrite !andb_true_iff, !Nat.ltb_lt, !negb_true_iff.
  destruct (Nat.leb_spec (days c) 0) as [Hd|Hd];
    [split; [discriminate | lia]|].
  destruct (Nat.leb_spec (slots_per_day c) 0) as [Hs|Hs];
    [split; [discriminate | lia]|].
  destruct (is_empty (subjects c));
    [split; [discriminate | intros [[[_ E] _] _]; discriminate E]|].
  destruct (is_empty (groups c));
    [split; [discriminate | intros [[_ E] _]; discriminate E]|].
  destruct (length (subjects c) =? length (nodup string_dec (subjects c)));
    simpl.
  - split; auto.
  - split; [discriminate | intros [_ E]; discriminate E].
Qed.

Lemma Hall_raises_None h : Hall_raises h = None <-> Hall_post_init h = true.
Proof.
  unfold Hall_raises, Hall_post_init. rewrite Z.ltb_lt.
  destruct (Z.leb_spec (capacity h) 0) as [Hle|Hgt].
  - split; [discriminate | lia].
  - split; auto.
Qed.

Lemma HallConfig_raises_None hc :
  HallConfig_raises hc = None <-> HallConfig_post_init hc = true.
Proof.
  unfold HallConfig_raises, HallConfig_post_init.
  rewrite andb_true_iff, Z.ltb_lt, negb_true_iff.
  destruct (is_empty (halls hc));
    [split; [discriminate | intros [E _]; discriminate E]|].
  destruct (Z.leb_spec (per_subject_limit hc) 0) as [Hle|Hgt].
  - split; [discriminate | lia].
  - split; auto.
Qed.

(** The constructors at the head of [generate_schedule] all return
    exactly on the configurations called valid above. *)
Lemma build_objects_None request :
  build_objects request = None
  <-> valid_TimetableConfig (req_timetable_config request) = true
      /\ valid_HallConfig (req_hall_config request) = true.
Proof.
  unfold build_objects, valid_TimetableConfig, valid_HallConfig.
  rewrite !andb_true_iff, !forallb_forall.
  rewrite <- TimetableConfig_raises_None, <- HallConfig_raises_None.
  destruct (first_raise StudentGroup_raises
              (groups (req_timetable_config request))) eqn:Eg.
  { split; [discriminate|]. intros [[_ H] _].
    assert (first_raise StudentGroup_raises
              (groups (req_timetable_config request)) = None);
      [|congruence].
    apply first_raise_None. intros x Hx.
    now apply StudentGroup_raises_None, H. }
  rewrite first_raise_None in Eg.
  destruct (TimetableConfig_raises (req_timetable_config request));
    [split; [discriminate | intros [[E _] _]; discriminate E]|].
  destruct (first_raise Hall_raises (halls (req_hall_config request)))
    eqn:Eh.
  { split; [discriminate|]. intros [_ [_ H]].
    assert (first_raise Hall_raises (halls (req_hall_config request))
            = None); [|congruence].
    apply first_raise_None. intros x Hx. now apply Hall_raises_None, H. }
  rewrite first_raise_None in Eh.
  split.
  - intros H. repeat split; auto.
    + intros x Hx. now apply StudentGroup_raises_None, Eg.
    + intros x Hx. now apply Hall_raises_None, Eh.
  - tauto.
Qed.

Lemma schema_valid_objects request :
  GenerateRequestSchema_validate request = true ->
  build_objects request = None.
Proof.
  unfold GenerateRequestSchema_validate, TimetableConfigSchema_validate,
    HallConfigSchema_validate.
  rewrite !andb_true_iff, !forallb_forall, !Nat.ltb_lt, !Nat.leb_le, Z.ltb_lt.
  intros [[[[[[Hd Hs] Hsub] Hu] Hg] Hgs] [[Hh Hhs] Hl]].
  apply build_objects_None.
  unfold valid_TimetableConfig, TimetableConfig_post_init,
    valid_HallConfig, HallConfig_post_init.
  rewrite !andb_true_iff, !forallb_forall, !Nat.ltb_lt, Z.ltb_lt,
    !negb_true_iff.
  assert (Hne : forall A (l : list A), 1 <= length l -> is_empty l = false)
    by (intros A [|x l] H; [simpl in H; lia | reflexivity]).
  repeat split; auto.
  - intros g Hin. specialize (Hgs g Hin).
    unfold StudentGroupSchema_validate in Hgs.
    unfold StudentGroup_post_init.
    rewrite !andb_true_iff in *. tauto.
  - intros h Hin. specialize (Hhs h Hin).
    unfold HallSchema_validate in Hhs. unfold Hall_post_init.
    rewrite andb_true_iff in Hhs. tauto.
Qed.

Lemma allocate_loop_raises self slots :
  forall acc e,
    allocate_loop self slots acc = Raise e ->
    exn_kind e = InsufficientHallCapacityError.
Proof.
  induction slots as [|[d s] slots IH]; intros acc e; simpl; [discriminate|].
  destruct (_allocate_slot self d s) as [sa|e0] eqn:E.
  - apply IH.
  - intros [= <-]. eapply _allocate_slot_raise; eauto.
Qed.

Lemma allocate_halls_raises tt hc e :
  allocate_halls tt hc = Raise e ->
  exn_kind e = InsufficientHallCapacityError.
Proof.
  unfold allocate_halls, HallAllocator_allocate_halls.
  destruct (allocate_loop _ _ []) as [res|e0] eqn:E; [discriminate|].
  intros [= <-]. eapply allocate_loop_raises; eauto.
Qed.

Section RouteFacts.
Variable RNG : Type.
Variable seed : Z -> RNG.
Variable shuffle : RNG -> list Slot -> list Slot * RNG.
Variable iter_set : list Subject -> list Subject.
Hypothesis iter_set_perm : forall l, Permutation (iter_set l) l.
Hypothesis shuffle_perm : forall g l, Permutation (fst (shuffle g l)) l.

(** X11. On a request that passes [GenerateRequestSchema], the
    constructors of the dataclasses raise nothing and [generate_schedule]
    ends in one of three ways: it stores the result under ["last_result"]
    and returns its [to_dict]; or the timetable could not be generated
    and it answers 422 "No solution found" with the diagnostics of the
    [NoSolutionError]; or the halls do not suffice and it answers 422
    "Insufficient hall capacity" with empty diagnostics, the store
    unchanged in both cases.  The "Insufficient slots" clause, the 400
    clause, the [ValueError] clause and the 500 clause are not taken. *)
Theorem generate_schedule_route_outcomes request st g :
  GenerateRequestSchema_validate request = true ->
  let tc := req_timetable_config request in
  let hc := req_hall_config request in
  let out := generate_schedule_route seed shuffle iter_set request st g in
  (exists tt res,
      fst (generate_timetable seed shuffle iter_set tc g) = Ok tt
      /\ allocate_halls tt hc = Ok res
      /\ out = (Respond (HallAllocationResult_to_dict res),
                set_last_result res st))
  \/ (exists e,
         fst (generate_timetable seed shuffle iter_set tc g) = Raise e
         /\ exn_kind e = NoSolutionError
         /\ out = (RaiseHTTP
                     (mkHTTPException
                        422 (detail_error No_solution_found e
                                          (exn_diagnostics e))), st))
  \/ (exists tt e,
         fst (generate_timetable seed shuffle iter_set tc g) = Ok tt
         /\ allocate_halls tt hc = Raise e
         /\ exn_kind e = InsufficientHallCapacityError
         /\ out = (RaiseHTTP
                     (mkHTTPException
                        422 (detail_error Insufficient_hall_capacity e
                                          diag_empty)), st)).
Proof.
  intros Hschema tc hc out.
  pose proof (schema_valid_objects request Hschema) as Hb.
  destruct (proj1 (build_objects_None request) Hb) as [Hv _].
  unfold out, generate_schedule_route. rewrite Hb. fold tc hc.
  destruct (generate_timetable seed shuffle iter_set tc g) as [r self'] eqn:Hg.
  simpl fst. destruct r as [tt|e].
  - destruct (allocate_halls tt hc) as [res|e] eqn:Ha.
    + left. exists tt, res. auto.
    + right. right. exists tt, e.
      pose proof (allocate_halls_raises _ _ Ha) as Hk.
      repeat split; auto.
      unfold handle_exception, getattr_diagnostics. rewrite Hk. reflexivity.
  - right. left. exists e.
    pose proof (@generate_timetable_failure _ seed shuffle iter_set
        iter_set_perm shuffle_perm
                  tc g e self' Hv Hg) as Hk.
    repeat split; auto.
    unfold handle_exception. rewrite Hk. reflexivity.
Qed.
End RouteFacts.

Definition four_subjects_request : GenerateRequest :=
  mkGenerateRequest (four_subjects (Some 7%Z)) tight_halls.

Lemma generate_schedule_route_outcomes_witness :
  let tc := req_timetable_config four_subjects_request in
  let hc := req_hall_config four_subjects_request in
  let out := generate_schedule_route demo_seed demo_shuffle demo_iter_set
               four_subjects_request initial_store 0%Z in
  (exists tt res,
      fst (generate_timetable demo_seed demo_shuffle demo_iter_set tc 0%Z) =
          Ok tt
      /\ allocate_halls tt hc = Ok res
      /\ out = (Respond (HallAllocationResult_to_dict res),
                set_last_result res initial_store))
  \/ (exists e,
         fst (generate_timetable demo_seed demo_shuffle demo_iter_set tc 0%Z)
             = Raise e
         /\ exn_kind e = NoSolutionError
         /\ out = (RaiseHTTP
                     (mkHTTPException
                        422 (detail_error No_solution_found e
                                          (exn_diagnostics e))),
                   initial_store))
  \/ (exists tt e,
         fst (generate_timetable demo_seed demo_shuffle demo_iter_set tc 0%Z)
             = Ok tt
         /\ allocate_halls tt hc = Raise e
         /\ exn_kind e = InsufficientHallCapacityError
         /\ out = (RaiseHTTP
                     (mkHTTPException
                        422 (detail_error Insufficient_hall_capacity e
                                          diag_empty)),
                   initial_store)).
Proof.
  apply (@generate_schedule_route_outcomes
           Z demo_seed demo_shuffle demo_iter_set demo_iter_set_perm
               demo_shuffle_perm
           four_subjects_request initial_store 0%Z).
  reflexivity.
Defined.

(** *** The stored groups *)

Lemma name_taken_iff (gs : list StudentGroup) n :
  existsb (fun group => String.eqb (group_name group) n) gs = true
  <-> In n (map group_name gs).
Proof.
  rewrite existsb_exists, in_map_iff. split.
  - intros [g [Hg E]]. apply String.eqb_eq in E. eauto.
  - intros [g [E Hg]]. exists g. split; [exact Hg|]. now apply String.eqb_eq.
Qed.

Lemma filter_all {A} (f : A -> bool) (l : list A) :
  (forall x, In x l -> f x = true) -> filter f l = l.
Proof.
  induction l as [|x l IH]; intros H; simpl; [reflexivity|].
  rewrite (H x (or_introl eq_refl)). f_equal. apply IH.
  intros y Hy. apply H. now right.
Qed.

Lemma filter_length_all {A} (f : A -> bool) (l : list A) :
  length (filter f l) = length l -> forall x, In x l -> f x = true.
Proof.
  induction l as [|x l IH]; simpl; intros Hlen y Hy; [destruct Hy|].
  pose proof (filter_length_le f l) as Hle.
  destruct (f x) eqn:E; simpl in Hlen; [|lia].
  destruct Hy as [<-|Hy]; [exact E|]. apply IH; [lia | exact Hy].
Qed.

Lemma others_kept (gs : list StudentGroup) n :
  ~ In n (map group_name gs) ->
  filter (fun g => negb (String.eqb (group_name g) n)) gs = gs.
Proof.
  intros Hn. apply filter_all. intros g Hg. apply negb_true_iff.
  apply String.eqb_neq. intros E. apply Hn. rewrite <- E.
  now apply in_map.
Qed.

Lemma set_groups_same st : set_groups (store_groups st) st = st.
Proof. now destruct st. Qed.

(** X12. [add_group] refuses, with status 400 and the store untouched,
    exactly the names that a stored group already has; otherwise it
    appends the group after the stored ones, and a [delete_group] of that
    name then gives back the store as it was.  Groups with distinct names
    keep distinct names. *)
Theorem add_group_outcome request st :
  let out := add_group request st in
  (In (group_name request) (map group_name (store_groups st)) ->
   out = (RaiseHTTP (mkHTTPException
                       400 (detail_group_exists (group_name request))), st))
  /\ (~ In (group_name request) (map group_name (store_groups st)) ->
      out = (Respond (group_name request, store_groups st ++ [request]),
             set_groups (store_groups st ++ [request]) st)
      /\ delete_group (group_name request) (snd out)
         = (Respond (group_name request, store_groups st), st))
  /\ (NoDup (map group_name (store_groups st)) ->
      NoDup (map group_name (store_groups (snd out)))).
Proof.
  intros out. unfold out, add_group.
  destruct (existsb _ (store_groups st)) eqn:E.
  - apply name_taken_iff in E. split; [reflexivity|].
    split; [contradiction | auto].
  - assert (Hn : ~ In (group_name request) (map group_name (store_groups st))).
    { intros H. apply name_taken_iff in H. congruence. }
    split; [contradiction|]. split.
    + intros _. split; [reflexivity|]. cbn [snd].
      unfold delete_group. cbn [store_groups set_groups].
      rewrite filter_app, (@others_kept _ _ Hn). cbn [filter].
      rewrite String.eqb_refl. cbn [negb]. rewrite app_nil_r, length_app.
      cbn [length].
      destruct (Nat.eqb_spec (length (store_groups st))
                             (length (store_groups st) + 1)) as [Hl|_];
        [lia|].
      destruct st. reflexivity.
    + intros Hnd. cbn [snd store_groups set_groups].
      rewrite map_app. cbn [map].
      apply NoDup_rev in Hnd. rewrite <- (rev_involutive (_ ++ _)).
      apply NoDup_rev. rewrite rev_app_distr. simpl.
      constructor; [now rewrite <- in_rev | exact Hnd].
Qed.

(** X13. [delete_group] removes every stored group of the given name
    and keeps the others in their order.  It answers 404, with the store
    as it was, exactly when no stored group has the name; after it no
    stored group has the name, so deleting the same name again answers
    404. *)
Theorem delete_group_outcome n st :
  let out := delete_group n st in
  let kept := filter (fun g => negb (String.eqb (group_name g) n))
                     (store_groups st) in
  (~ In n (map group_name (store_groups st)) ->
   out = (RaiseHTTP (mkHTTPException 404 (detail_group_not_found n)), st))
  /\ (In n (map group_name (store_groups st)) ->
      out = (Respond (n, kept), set_groups kept st))
  /\ ~ In n (map group_name (store_groups (snd out)))
  /\ (forall g, group_name g <> n ->
                (In g (store_groups (snd out)) <-> In g (store_groups st)))
  /\ delete_group n (snd out)
     = (RaiseHTTP (mkHTTPException 404 (detail_group_not_found n)), snd out).
Proof.
  intros out kept.
  assert (Hgone : ~ In n (map group_name kept)).
  { intros H. apply in_map_iff in H. destruct H as [g [E Hg]].
    apply filter_In in Hg. destruct Hg as [_ Hg].
    apply negb_true_iff, String.eqb_neq in Hg. contradiction. }
  assert (Habsent : forall st0,
             ~ In n (map group_name (store_groups st0)) ->
             delete_group n st0
             = (RaiseHTTP (mkHTTPException 404 (detail_group_not_found n)),
                st0)).
  { intros st0 Hn. unfold delete_group. cbn [store_groups set_groups].
    rewrite (@others_kept _ _ Hn), Nat.eqb_refl. now rewrite set_groups_same. }
  assert (Hgroups : store_groups (snd out) = kept).
  { unfold out, delete_group. cbn [store_groups set_groups]. fold kept.
    destruct (length kept =? length (store_groups st)); reflexivity. }
  split; [exact (Habsent st)|]. split; [|split; [|split]].
  - intros Hin. unfold out, delete_group. cbn [store_groups set_groups].
    fold kept.
    destruct (Nat.eqb_spec (length kept) (length (store_groups st)))
      as [Hl|Hl]; [exfalso | reflexivity].
    apply in_map_iff in Hin. destruct Hin as [g [E Hg]].
    pose proof (@filter_length_all _ _ _ Hl g Hg) as Hf. simpl in Hf.
    apply negb_true_iff, String.eqb_neq in Hf. contradiction.
  - now rewrite Hgroups.
  - intros g Hg. rewrite Hgroups. unfold kept. rewrite filter_In.
    split; [tauto|]. intros Hin. split; [exact Hin|].
    now apply negb_true_iff, String.eqb_neq.
  - apply Habsent. now rewrite Hgroups.
Qed.

(** ** utils.py: the group constraint *)

Lemma In_get_subjects_in_slot grps subject d s
    (a : list (Subject * Slot)) x :
  In x (get_subjects_in_slot grps subject d s a)
  <-> x = subject \/ In (x, (d, s)) a.
Proof.
  unfold get_subjects_in_slot.
  assert (G : forall acc,
             In x (fold_left
                     (fun acc kv =>
                        if slot_eqb (snd kv) (d, s)
                        then set_add (fst kv) acc else acc) a acc)
             <-> In x acc \/ In (x, (d, s)) a).
  { induction a as [|[k sl] a IH]; intros acc; simpl; [tauto|].
    rewrite IH. destruct (slot_eqb sl (d, s)) eqn:E.
    - apply slot_eqb_eq in E. subst sl. rewrite In_set_add. split.
      + intros [[->|H]|H]; auto.
      + intros [H|[[= ->]|H]]; auto.
    - split; [tauto|]. intros [H|[[= -> ->]|H]]; auto.
      rewrite slot_eqb_refl in E. discriminate. }
  rewrite G. simpl. split; [intros [[<-|[]]|H] | intros [->|H]]; auto.
Qed.

Lemma filter_nonempty {A} (p : A -> bool) (l : list A) b :
  In b l -> p b = true -> 1 <= length (filter p l).
Proof.
  intros Hin Hp.
  assert (H : In b (filter p l)) by (apply filter_In; auto).
  destruct (filter p l); [destruct H | simpl; lia].
Qed.

Lemma filter_two (p : Subject -> bool) (l : list Subject) :
  NoDup l ->
  (1 < length (filter p l)
   <-> exists a b, a <> b /\ In a l /\ In b l /\ p a = true /\ p b = true).
Proof.
  induction 1 as [|x l Hx Hnd IH]; simpl.
  - split; [lia | intros (a & b & _ & [] & _)].
  - split.
    + destruct (p x) eqn:Ex.
      * simpl. intros Hlen.
        destruct (filter p l) as [|b fl] eqn:Ef; [simpl in Hlen; lia|].
        assert (Hb : In b (filter p l)) by (rewrite Ef; now left).
        apply filter_In in Hb. destruct Hb as [Hb Hpb].
        exists x, b. repeat split; auto. intros ->. contradiction.
      * intros Hlen. apply IH in Hlen.
        destruct Hlen as (a & b & Hne & Ha & Hb & Hpa & Hpb).
        exists a, b. auto 10.
    + intros (a & b & Hne & [->|Ha] & [->|Hb] & Hpa & Hpb).
      * congruence.
      * rewrite Hpa. simpl. pose proof (filter_nonempty p l b Hb Hpb). lia.
      * rewrite Hpb. simpl. pose proof (filter_nonempty p l a Ha Hpa). lia.
      * assert (1 < length (filter p l)) by (apply IH; eauto 10).
        destruct (p x); simpl; lia.
Qed.

(** X14. [get_subjects_in_slot] returns the subject itself and the
    subjects assigned to the slot, and nothing else.  When no group
    lists a subject twice, [check_group_conflicts] is [True] exactly when
    two different subjects of one group are both in the given set. *)
Theorem group_conflict_meaning grps subject d s
    (a : list (Subject * Slot)) :
  (forall grp, In grp grps -> NoDup (group_subjects grp)) ->
  (forall x, In x (get_subjects_in_slot grps subject d s a)
             <-> x = subject \/ In (x, (d, s)) a)
  /\ forall subjects_in_slot,
       check_group_conflicts grps subjects_in_slot = true
       <-> exists grp x y,
             In grp grps /\ x <> y
             /\ In x (group_subjects grp) /\ In y (group_subjects grp)
             /\ In x subjects_in_slot /\ In y subjects_in_slot.
Proof.
  intros Hnd. split; [intros x; apply In_get_subjects_in_slot|].
  intros S. unfold check_group_conflicts. rewrite existsb_exists. split.
  - intros (grp & Hg & Hlt). apply Nat.ltb_lt in Hlt.
    apply (filter_two _ (Hnd grp Hg)) in Hlt.
    destruct Hlt as (x & y & Hne & Hx & Hy & Hpx & Hpy).
    apply mem_In in Hpx, Hpy. exists grp, x, y. auto 10.
  - intros (grp & x & y & Hg & Hne & Hx & Hy & Hsx & Hsy).
    exists grp. split; [exact Hg|]. apply Nat.ltb_lt.
    apply (filter_two _ (Hnd grp Hg)).
    exists x, y. repeat split; auto; now apply mem_In.
Qed.

Lemma group_conflict_meaning_witness :
  (forall x, In x (get_subjects_in_slot
                     (groups (four_subjects None)) "M"%string 0 0
                     [("E"%string, (0, 0)); ("P"%string, (0, 1))])
             <-> x = "M"%string
                 \/ In (x, (0, 0))
                       [("E"%string, (0, 0)); ("P"%string, (0, 1))])
  /\ forall subjects_in_slot,
       check_group_conflicts (groups (four_subjects None)) subjects_in_slot
       = true
       <-> exists grp x y,
             In grp (groups (four_subjects None)) /\ x <> y
             /\ In x (group_subjects grp) /\ In y (group_subjects grp)
             /\ In x subjects_in_slot /\ In y subjects_in_slot.
Proof.
  apply (@group_conflict_meaning (groups (four_subjects None)) "M"%string
           0 0 [("E"%string, (0, 0)); ("P"%string, (0, 1))]).
  intros grp Hin. simpl in Hin.
  destruct Hin as [<-|[<-|[<-|[]]]]; simpl;
    repeat constructor; simpl; intuition discriminate.
Defined.

(** ** scheduler.py: undoing a failed branch *)

Section BacktrackFacts.
Variable RNG : Type.
Variable shuffle : RNG -> list Slot -> list Slot * RNG.
Variable iter_set : list Subject -> list Subject.
Hypothesis iter_set_perm : forall l, Permutation (iter_set l) l.
Hypothesis shuffle_perm : forall g l, Permutation (fst (shuffle g l)) l.

(** X15. Started in a state of the search (subjects taken and pending
    all distinct, no slot used twice, a domain for every pending subject
    and every neighbour), [_backtrack] raises nothing, in particular no
    [KeyError], and keeps configuration and conflict graph.  When it
    returns [False] the assignment and every domain are exactly as
    before the call: each branch that was tried has been undone by
    [_restore_domains] and [del].  When it returns [True] the pending
    subjects have been appended to the assignment in their order. *)
Theorem backtrack_restores grid subjects_ index
    (self : TimetableScheduler RNG) :
  search_inv grid (skipn index subjects_) self ->
  let out := _backtrack shuffle iter_set self subjects_ index in
  config (snd out) = config self
  /\ conflicts (snd out) = conflicts self
  /\ (forall e, fst out <> Raise e)
  /\ (fst out = Ok false ->
      assignment (snd out) = assignment self
      /\ domains (snd out) = domains self)
  /\ (fst out = Ok true ->
      keys (assignment (snd out))
      = keys (assignment self) ++ skipn index subjects_
      /\ NoDup (map snd (assignment (snd out)))).
Proof.
  intros Hinv out.
  pose proof (@backtrack_from_spec _ shuffle iter_set iter_set_perm
      shuffle_perm grid
                (skipn index subjects_) self Hinv) as Hspec.
  unfold search_post in Hspec. fold (_backtrack shuffle iter_set self
      subjects_ index)
    in Hspec. fold out in Hspec.
  destruct Hspec as (Hc & Hg & Hpost).
  split; [exact Hc|]. split; [exact Hg|].
  destruct (fst out) as [[|]|e]; [| |destruct Hpost].
  - split; [discriminate|]. split; [discriminate|]. intros _. tauto.
  - split; [discriminate|]. split; [intros _; exact Hpost | discriminate].
Qed.
End BacktrackFacts.

Lemma backtrack_restores_witness :
  let self :=
    set_domains
      (fold_left (fun d subject =>
                    dict_set subject (all_slots repeated_in_group) d)
                 (subjects repeated_in_group) [])
      (TimetableScheduler_init demo_seed repeated_in_group 0%Z) in
  let out := _backtrack demo_shuffle demo_iter_set self (variable_order self)
      0 in
  config (snd out) = config self
  /\ conflicts (snd out) = conflicts self
  /\ (forall e, fst out <> Raise e)
  /\ (fst out = Ok false ->
      assignment (snd out) = assignment self
      /\ domains (snd out) = domains self)
  /\ (fst out = Ok true ->
      keys (assignment (snd out))
      = keys (assignment self) ++ skipn 0 (variable_order self)
      /\ NoDup (map snd (assignment (snd out)))).
Proof.
  apply (@backtrack_restores Z demo_shuffle demo_iter_set demo_iter_set_perm
      demo_shuffle_perm
           (all_slots repeated_in_group)).
  exact (@initial_inv Z demo_seed demo_iter_set demo_iter_set_perm
                      repeated_in_group 0%Z eq_refl eq_refl).
Defined.

(** ** routes.py: the response of a successful solve *)

Lemma NoDup_shifted (l : list Slot) :
  NoDup l -> NoDup (map (fun p => (fst p + 1, snd p + 1)) l).
Proof.
  induction 1 as [|[d s] l Hx Hnd IH]; simpl; constructor; [|exact IH].
  intros Hin. apply in_map_iff in Hin. destruct Hin as ([d' s'] & E & Hin).
  simpl in E. inversion E.
  assert (d' = d) by lia. assert (s' = s) by lia. subst. contradiction.
Qed.

Section ResponseFacts.
Variable RNG : Type.
Variable seed : Z -> RNG.
Variable shuffle : RNG -> list Slot -> list Slot * RNG.
Variable iter_set : list Subject -> list Subject.
Hypothesis iter_set_perm : forall l, Permutation (iter_set l) l.
Hypothesis shuffle_perm : forall g l, Permutation (fst (shuffle g l)) l.

(** X16. A response that [generate_schedule] returns for a request that
    passes the schema is consistent with the request and with itself.
    Its timetable repeats [days] and [slots_per_day], lists every
    requested subject exactly once, numbers days and slots from 1 within
    the grid, and puts no two subjects in one slot.  Each of its hall
    allocations names a hall of the request, seats one subject only, with
    a positive count within the capacity of that hall, and that subject is
    the one the timetable of the same response shows at that day and
    slot.  The result kept under ["last_result"] is the one shown. *)
Theorem response_consistent request st g view st' :
  GenerateRequestSchema_validate request = true ->
  generate_schedule_route seed shuffle iter_set request st g = (Respond view,
      st') ->
  let tc := req_timetable_config request in
  let hc := req_hall_config request in
  let shown := view_assignments (view_timetable view) in
  view_days (view_timetable view) = days tc
  /\ view_slots_per_day (view_timetable view) = slots_per_day tc
  /\ Permutation (map view_subject shown) (subjects tc)
  /\ Forall (fun a => 1 <= view_day a <= days tc
                      /\ 1 <= view_slot a <= slots_per_day tc) shown
  /\ NoDup (map (fun a => (view_day a, view_slot a)) shown)
  /\ Forall (fun h =>
               exists x n hall,
                 view_allocations h = [(x, n)]
                 /\ (0 < n <= capacity hall)%Z
                 /\ In hall (halls hc) /\ name hall = view_hall h
                 /\ In (mkExamSlotView (view_hall_day h) (view_hall_slot h) x)
                       shown)
            (view_hall_allocations view)
  /\ exists res, store_last_result st' = Some res
                 /\ HallAllocationResult_to_dict res = view.
Proof.
  intros Hschema Hrun tc hc shown.
  pose proof (schema_valid_objects request Hschema) as Hb.
  destruct (proj1 (build_objects_None request) Hb) as [Hv Hh].
  fold tc in Hv. fold hc in Hh.
  unfold generate_schedule_route in Hrun. rewrite Hb in Hrun.
  fold tc hc in Hrun.
  destruct (generate_timetable seed shuffle iter_set tc g) as [r self'] eqn:Hg.
  simpl fst in Hrun. destruct r as [tt|e]; [|discriminate].
  destruct (allocate_halls tt hc) as [res|e] eqn:Ha; [|discriminate].
  injection Hrun as Hview Hst.
  destruct (@generate_timetable_success _ seed shuffle iter_set iter_set_perm
      shuffle_perm
              tc g tt self' Hv Hg) as (Htt & Hk & Hn & Hi).
  destruct (allocate_halls_ok _ _ Ha) as (_ & Hres_tt & _).
  assert (Hshown : shown
                   = map (fun a => mkExamSlotView (day a + 1) (slot a + 1)
                                                  (subject a))
                         (assignments tt)).
  { unfold shown. rewrite <- Hview. simpl. now rewrite Hres_tt. }
  assert (Hcfg : tt_config tt = tc) by now rewrite Htt.
  assert (Hsub : map subject (assignments tt) = keys (assignment self'))
    by (rewrite Htt; apply exam_slots_subject).
  assert (Hslots : map (fun e => (day e, slot e)) (assignments tt)
                   = map snd (assignment self'))
    by (rewrite Htt; apply exam_slots_slot).
  assert (Hhalls : view_hall_allocations view
                   = map (fun a => mkHallAssignmentView
                                     (hall_name a) (ha_day a + 1)
                                     (ha_slot a + 1) (allocations a))
                         (hall_assignments res))
    by (rewrite <- Hview; reflexivity).
  assert (Hdays : view_days (view_timetable view) = days tc
                  /\ view_slots_per_day (view_timetable view)
                     = slots_per_day tc)
    by (rewrite <- Hview; simpl; now rewrite Hres_tt, Hcfg).
  split; [apply Hdays|]. split; [apply Hdays|].
  split; [|split; [|split; [|split]]].
  - rewrite Hshown, map_map. simpl. change (fun x => subject x) with subject.
    rewrite Hsub, Hk. apply sorted_reverse_perm.
  - rewrite Hshown. apply Forall_forall. intros v Hin.
    apply in_map_iff in Hin. destruct Hin as (a & <- & Hin). simpl.
    assert (Hgrid : In (day a, slot a) (all_slots tc)).
    { apply Hi. rewrite <- Hslots.
      exact (in_map (fun e => (day e, slot e)) _ _ Hin). }
    apply all_slots_In in Hgrid. lia.
  - rewrite Hshown, map_map. simpl.
    rewrite <- (map_map (fun e => (day e, slot e))
                        (fun p => (fst p + 1, snd p + 1))).
    apply NoDup_shifted. now rewrite Hslots.
  - rewrite Hhalls. apply Forall_forall. intros h Hin.
    apply in_map_iff in Hin. destruct Hin as (a & <- & Hin). simpl.
    destruct (@generated_assignment_single _ seed shuffle iter_set
        iter_set_perm shuffle_perm
                tc hc g tt self' res a Hv Hh Hg Ha Hin)
      as (x & n & Hal & Hpos & Hat).
    destruct (@assignment_filled tt hc res a Ha Hin)
      as ((hall & Hhall & Hname & Hcap) & _).
    rewrite Hal in Hcap. unfold sum_values in Hcap. simpl in Hcap.
    exists x, n, hall. split; [exact Hal|]. split; [lia|].
    split; [exact Hhall|]. split; [exact Hname|].
    rewrite Hshown.
    exact (in_map (fun a => mkExamSlotView (day a + 1) (slot a + 1)
                                           (subject a)) _ _ Hat).
  - exists res. rewrite <- Hst. split; [reflexivity | exact Hview].
Qed.
End ResponseFacts.

Lemma response_consistent_witness :
  let view := HallAllocationResult_to_dict four_subjects_result in
  let tc := four_subjects (Some 7%Z) in
  let shown := view_assignments (view_timetable view) in
  view_days (view_timetable view) = days tc
  /\ view_slots_per_day (view_timetable view) = slots_per_day tc
  /\ Permutation (map view_subject shown) (subjects tc)
  /\ Forall (fun a => 1 <= view_day a <= days tc
                      /\ 1 <= view_slot a <= slots_per_day tc) shown
  /\ NoDup (map (fun a => (view_day a, view_slot a)) shown)
  /\ Forall (fun h =>
               exists x n hall,
                 view_allocations h = [(x, n)]
                 /\ (0 < n <= capacity hall)%Z
                 /\ In hall (halls tight_halls) /\ name hall = view_hall h
                 /\ In (mkExamSlotView (view_hall_day h) (view_hall_slot h) x)
                       shown)
            (view_hall_allocations view)
  /\ exists res,
       store_last_result (set_last_result four_subjects_result initial_store)
       = Some res
       /\ HallAllocationResult_to_dict res = view.
Proof.
  apply (@response_consistent Z demo_seed demo_shuffle demo_iter_set
      demo_iter_set_perm demo_shuffle_perm
           four_subjects_request initial_store 0%Z
           (HallAllocationResult_to_dict four_subjects_result)
           (set_last_result four_subjects_result initial_store)).
  - reflexivity.
  - reflexivity.
Defined.

(** ** scheduler.py: packing when the limit is no smaller than a hall *)

Lemma sum_values_positive (entries : list (Subject * Z)) :
  Forall (fun kv => (0 < snd kv)%Z) entries -> (0 <= sum_values entries)%Z.
Proof.
  unfold sum_values. induction 1 as [|kv l Hkv _ IH]; simpl; lia.
Qed.

Lemma seats_of_nonneg k (entries : list (Subject * Z)) :
  Forall (fun kv => (0 < snd kv)%Z) entries -> (0 <= seats_of k entries)%Z.
Proof.
  intros H. unfold seats_of. apply sum_values_positive.
  rewrite Forall_forall in *. intros kv Hin. apply H.
  now apply filter_In in Hin.
Qed.

Lemma no_students_nonneg (d : list (Subject * Z)) :
  nonneg d -> (sum_values d <= 0)%Z -> existsb has_students d = false.
Proof.
  unfold nonneg, sum_values.
  induction 1 as [|[k v] d Hv Hd IH]; simpl; intros Hs; [reflexivity|].
  simpl in Hv.
  assert (Hd' : (0 <= fold_right Z.add 0 (map snd d))%Z).
  { clear -Hd. induction Hd as [|kv l Hkv _ IH]; simpl; lia. }
  apply orb_false_iff. split.
  - unfold has_students. simpl. apply Z.ltb_ge. lia.
  - apply IH. lia.
Qed.

Section TightPacking.
Variable self : HallAllocator.

(** With a limit that is no smaller than the hall, the loop over the
    subjects stops only when the hall is full or every subject of the
    snapshot has been seated. *)
Lemma fill_hall_tight hall snapshot :
  (capacity hall <= per_subject_limit (alloc_hall_config self))%Z ->
  forall remaining hall_allocation used,
    in_sync snapshot remaining ->
    Forall (fun kv => (0 < snd kv)%Z) snapshot ->
    (0 <= used)%Z ->
    exists entries,
      fill_hall self hall snapshot remaining hall_allocation used
      = (hall_allocation ++ entries, replay entries remaining)
      /\ hall_entries self hall remaining used entries
      /\ Forall (fun kv => In (fst kv) (map fst snapshot)) entries
      /\ ((capacity hall <= used + sum_values entries)%Z
          \/ forall k c, In (k, c) snapshot ->
                         dict_get k (replay entries remaining) = Some 0%Z).
Proof.
  intros Hlimit.
  induction snapshot as [|[k c] rest IH];
    intros remaining hall_allocation used [Hnd Hget] Hpos Hused.
  - exists []. simpl. rewrite app_nil_r.
    split; [reflexivity|]. split; [constructor|]. split; [constructor|].
    right. intros k c [].
  - simpl fill_hall. destruct (capacity hall <=? used)%Z eqn:Ecap.
    + exists []. rewrite app_nil_r. apply Z.leb_le in Ecap.
      split; [reflexivity|]. split; [constructor|]. split; [constructor|].
      left. unfold sum_values. simpl. lia.
    + apply Z.leb_gt in Ecap. inversion Hnd as [|? ? Hk Hnd']. subst.
      inversion Hpos as [|? ? Hc Hpos']. subst. simpl in Hc.
      set (n := allocate_amount_of self remaining hall used c).
      assert (Hn : n = Z.min c (capacity hall - used)).
      { unfold n, allocate_amount_of.
        destruct (length (filter has_students remaining) =? 1); lia. }
      assert (En : (0 <? n)%Z = true) by (apply Z.ltb_lt; lia).
      rewrite En.
      destruct (IH (dict_sub k n remaining)
                   (hall_allocation ++ [(k, n)]) (used + n)%Z)
        as (entries & E & He & Hkeys & Hend); [|exact Hpos'|lia|].
      { split; [exact Hnd'|]. intros k' c' Hin.
        rewrite dict_get_sub_neq; [apply Hget; now right|].
        intros ->. apply Hk. simpl. apply in_map_iff.
        now exists (k, c'). }
      assert (Hgk : dict_get k remaining = Some c) by (apply Hget; now left).
      assert (Hentry : hall_entries self hall remaining used
                                    ((k, n) :: entries)).
      { apply hall_entries_cons with (count := c); auto. lia. }
      exists ((k, n) :: entries). rewrite E, <- app_assoc. simpl app.
      split; [reflexivity|]. split; [exact Hentry|]. split.
      { constructor; [now left|].
        rewrite Forall_forall in *. intros kv Hin. right. now apply Hkeys. }
      pose proof (sum_values_positive (hall_entries_positive He)) as Hsum.
      assert (Hcons : sum_values ((k, n) :: entries)
                      = (n + sum_values entries)%Z) by reflexivity.
      destruct Hend as [Hfull|Hzero]; [left; lia|].
      destruct (Z.eq_dec n c) as [Hnc|Hnc]; [right | left; lia].
      intros k' c' [[= <- <-]|Hin]; [|exact (Hzero k' c' Hin)].
      rewrite (@dict_get_replay k c ((k, n) :: entries) remaining Hgk). f_equal.
      assert (Hs : seats_of k ((k, n) :: entries)
                   = (n + seats_of k entries)%Z).
      { unfold seats_of. simpl. now rewrite String.eqb_refl. }
      rewrite Hs, seats_of_absent; [lia|].
      intros Hin. apply in_map_iff in Hin. destruct Hin as (kv & Ek & Hin).
      rewrite Forall_forall in Hkeys. specialize (Hkeys kv Hin).
      rewrite Ek in Hkeys. contradiction.
Qed.

Lemma greedy_loop_tight d s pending :
  Forall (fun h => (0 < capacity h
                    <= per_subject_limit (alloc_hall_config self))%Z)
         pending ->
  forall remaining acc,
    NoDup (keys remaining) -> nonneg remaining ->
    (sum_values remaining <= fold_right Z.add 0 (map capacity pending))%Z ->
    exists new, greedy_loop self d s pending remaining acc = Ok new.
Proof.
  induction 1 as [|hall pending Hc Hcs IH];
    intros remaining acc Hnd Hnn Hle.
  - simpl in Hle. simpl. rewrite (no_students_nonneg Hnn Hle). eauto.
  - simpl greedy_loop.
    destruct (existsb has_students remaining) eqn:E; [|eauto].
    assert (Hsnap : Forall (fun kv => (0 < snd kv)%Z)
                           (subjects_with_students_of remaining)).
    { apply Forall_forall. intros kv Hin.
      unfold subjects_with_students_of in Hin.
      apply (proj1 (sorted_reverse_In snd kv _)) in Hin.
      apply filter_In in Hin. destruct Hin as [_ Hin].
      now apply Z.ltb_lt in Hin. }
    destruct (@fill_hall_tight hall (subjects_with_students_of remaining)
                (proj2 Hc) remaining [] 0%Z
                (@in_sync_snapshot remaining Hnd) Hsnap (Z.le_refl 0))
      as (entries & Ef & He & _ & Hend).
    rewrite Ef. simpl app.
    assert (Hcaps : (0 <= fold_right Z.add 0 (map capacity pending))%Z).
    { clear -Hcs. induction Hcs as [|h l Hh _ IH]; simpl; lia. }
    apply IH.
    + now rewrite keys_replay.
    + exact (hall_entries_nonneg He Hnn).
    + rewrite (hall_entries_sum He). simpl in Hle.
      destruct Hend as [Hfull|Hzero]; [lia|].
      assert (Hnone : existsb has_students (replay entries remaining)
                      = false).
      { destruct (existsb has_students (replay entries remaining)) eqn:Ex;
          [exfalso | reflexivity].
        apply existsb_exists in Ex. destruct Ex as ([k v] & Hin & Hv).
        unfold has_students in Hv. simpl in Hv. apply Z.ltb_lt in Hv.
        assert (Hget' : dict_get k (replay entries remaining) = Some v)
          by (apply In_dict_get; [now rewrite keys_replay | exact Hin]).
        assert (Hkey : In k (keys remaining)).
        { rewrite <- (keys_replay entries remaining).
          eapply dict_get_Some_key; eauto. }
        apply dict_mem_In in Hkey. unfold dict_mem in Hkey.
        destruct (dict_get k remaining) as [v0|] eqn:Eg; [|discriminate].
        destruct (Z_le_gt_dec v0 0) as [Hv0|Hv0].
        - rewrite (@dict_get_replay k v0 entries remaining Eg) in Hget'.
          pose proof (seats_of_nonneg k (hall_entries_positive He)).
          inversion Hget'. lia.
        - assert (Hin0 : In (k, v0) (subjects_with_students_of remaining)).
          { unfold subjects_with_students_of.
            apply (proj2 (sorted_reverse_In snd (k, v0) _)).
            apply filter_In. split; [now apply dict_get_In|].
            apply Z.ltb_lt. simpl. lia. }
          rewrite (Hzero k v0 Hin0) in Hget'. inversion Hget'. lia. }
      apply no_students_sum in Hnone.
      rewrite (hall_entries_sum He) in Hnone. lia.
Qed.
End TightPacking.

Lemma _allocate_slot_short tt hc d s :
  valid_HallConfig hc = true ->
  (total_capacity hc < slot_demand tt d s)%Z ->
  exists e, _allocate_slot (HallAllocator_init tt hc) d s = Raise e.
Proof.
  intros Hh Hlt.
  pose proof (valid_hall_capacities _ Hh) as Hpos.
  pose proof (sum_capacity_nonneg Hpos) as Hnn.
  fold (total_capacity hc) in Hnn.
  unfold slot_demand in Hlt.
  rewrite <- subject_students_of_sum in Hlt.
  unfold _allocate_slot. simpl alloc_timetable. simpl alloc_groups.
  destruct (subjects_in_slot_of tt d s) as [|k0 sis].
  - rewrite subject_students_of_nil in Hlt. unfold sum_values in Hlt.
    simpl in Hlt. lia.
  - cbn [is_empty]. unfold _greedy_allocate.
    destruct (@greedy_loop_shortage (HallAllocator_init tt hc) d s
                (sorted_halls (HallAllocator_init tt hc))
                (@sorted_halls_positive tt hc Hpos)
                (subject_students_of (groups (tt_config tt)) (k0 :: sis)) []
                (subject_students_of_keys _ _))
      as (left & Hr & _); [now rewrite sorted_halls_capacity|].
    rewrite Hr. eauto.
Qed.

(** X17. Let the limit per subject be at least the capacity of every
    hall.  Then the greedy packing wastes no seat: for any timetable with
    distinct subjects over a configuration the constructors accept,
    [allocate_halls] succeeds exactly when the demand of every slot of
    the grid, summed over the subjects of the slot, is at most the total
    capacity of the halls. *)
Theorem tight_packing tt hc :
  valid_HallConfig hc = true ->
  valid_TimetableConfig (tt_config tt) = true ->
  NoDup (map subject (assignments tt)) ->
  (forall hall, In hall (halls hc) ->
                (capacity hall <= per_subject_limit hc)%Z) ->
  (exists res, allocate_halls tt hc = Ok res)
  <-> forall d s,
        d < days (tt_config tt) -> s < slots_per_day (tt_config tt) ->
        (slot_demand tt d s <= total_capacity hc)%Z.
Proof.
  intros Hh Hv Hnd Hlimit.
  pose proof (valid_hall_capacities _ Hh) as Hpos.
  set (self := HallAllocator_init tt hc).
  split.
  - intros [res Hres] d s Hd Hs.
    destruct (Z_le_gt_dec (slot_demand tt d s) (total_capacity hc))
      as [Hle|Hgt]; [exact Hle | exfalso].
    destruct (@_allocate_slot_short tt hc d s Hh) as [e0 He0]; [lia|].
    destruct (@allocate_loop_raise self d s e0 (all_slots (tt_config tt))
                (all_slots_sorted (tt_config tt))
                (proj2 (all_slots_In (tt_config tt) d s) (conj Hd Hs))
                He0 [])
      as (d' & s' & e & Hl & _).
    unfold allocate_halls, HallAllocator_allocate_halls in Hres.
    simpl alloc_timetable in Hres. fold self in Hres.
    rewrite Hl in Hres. discriminate.
  - intros Hfit.
    destruct (@allocate_loop_ok self (all_slots (tt_config tt)))
      with (acc := @nil HallAssignment) as [res Hres].
    + intros d s Hin. apply all_slots_In in Hin. destruct Hin as [Hd Hs].
      specialize (Hfit d s Hd Hs). unfold slot_demand in Hfit.
      rewrite <- subject_students_of_sum in Hfit.
      unfold _allocate_slot. simpl alloc_timetable. simpl alloc_groups.
      destruct (is_empty (subjects_in_slot_of tt d s)); [eauto|].
      unfold _greedy_allocate. apply greedy_loop_tight.
      * apply Forall_forall. intros h Hin.
        apply (proj1 (sorted_reverse_In capacity h (halls hc))) in Hin.
        rewrite Forall_forall in Hpos. simpl.
        split; [now apply Hpos | now apply Hlimit].
      * apply subject_students_of_keys.
      * apply subject_students_of_nonneg;
          [now apply subjects_in_slot_of_NoDup | now apply valid_config_sizes].
      * pose proof (sorted_halls_capacity tt hc) as Hcap.
        fold self in Hcap. rewrite Hcap. exact Hfit.
    + unfold allocate_halls, HallAllocator_allocate_halls.
      simpl alloc_timetable. fold self. rewrite Hres. eauto.
Qed.

(** Two halls of 50 seats and a limit of 50 per subject. *)
Definition wide_limit_halls : HallConfig :=
  mkHallConfig [mkHall "A" 50; mkHall "B" 50] 50.

Lemma tight_packing_witness :
  (exists res, allocate_halls mixed_timetable wide_limit_halls = Ok res)
  <-> forall d s,
        d < 1 -> s < 1 ->
        (slot_demand mixed_timetable d s
         <= total_capacity wide_limit_halls)%Z.
Proof.
  apply (@tight_packing mixed_timetable wide_limit_halls).
  - reflexivity.
  - reflexivity.
  - simpl. repeat constructor; simpl; intuition discriminate.
  - intros hall Hin. simpl in Hin.
    destruct Hin as [<-|[<-|[]]]; simpl; lia.
Defined.

(** ** scheduler.py: the entries of a hall *)

Lemma fill_hall_distinct self hall snapshot :
  forall remaining hall_allocation used,
    NoDup (map fst snapshot) ->
    exists entries,
      fst (fill_hall self hall snapshot remaining hall_allocation used)
      = hall_allocation ++ entries
      /\ Forall (fun kv => In (fst kv) (map fst snapshot)) entries
      /\ NoDup (map fst entries).
Proof.
  induction snapshot as [|[k c] rest IH];
    intros remaining hall_allocation used Hnd; simpl fill_hall.
  - exists []. simpl. rewrite app_nil_r. repeat split; constructor.
  - inversion Hnd as [|? ? Hk Hnd']. subst.
    destruct (capacity hall <=? used)%Z.
    + exists []. simpl. rewrite app_nil_r. repeat split; constructor.
    + destruct (0 <? allocate_amount_of self remaining hall used c)%Z.
      * set (n := allocate_amount_of self remaining hall used c).
        destruct (IH (dict_sub k n remaining)
                     (hall_allocation ++ [(k, n)]) (used + n)%Z Hnd')
          as (entries & E & Hkeys & Hd).
        exists ((k, n) :: entries). rewrite E, <- app_assoc.
        split; [reflexivity|]. split.
        -- constructor; [now left|].
           rewrite Forall_forall in *. intros kv Hin. right.
           now apply Hkeys.
        -- simpl. constructor; [|exact Hd]. intros Hin.
           apply in_map_iff in Hin. destruct Hin as (kv & Ek & Hin).
           rewrite Forall_forall in Hkeys. specialize (Hkeys kv Hin).
           rewrite Ek in Hkeys. contradiction.
      * destruct (IH remaining hall_allocation used Hnd')
          as (entries & E & Hkeys & Hd).
        exists entries. split; [exact E|]. split; [|exact Hd].
        rewrite Forall_forall in *. intros kv Hin. right. now apply Hkeys.
Qed.

Lemma greedy_loop_distinct self d s pending :
  forall remaining new,
    NoDup (keys remaining) ->
    greedy_loop self d s pending remaining [] = Ok new ->
    Forall (fun a => NoDup (map fst (allocations a))) new.
Proof.
  induction pending as [|hall pending IH]; intros remaining new Hnd;
    simpl greedy_loop.
  - destruct (existsb has_students remaining); [discriminate|].
    intros [= <-]. constructor.
  - destruct (existsb has_students remaining);
      [|intros [= <-]; constructor].
    destruct (@fill_hall_distinct self hall
                (subjects_with_students_of remaining) remaining [] 0%Z
                (proj1 (@in_sync_snapshot remaining Hnd)))
      as (entries & E & _ & Hd).
    destruct (@fill_hall_entries self hall
                (subjects_with_students_of remaining) remaining [] 0%Z
                (@in_sync_snapshot remaining Hnd))
      as (entries' & E' & _).
    rewrite E' in E |- *. simpl in E. subst entries'.
    rewrite greedy_loop_acc.
    destruct (greedy_loop self d s pending (replay entries remaining) [])
      as [new'|e] eqn:Enew; [|discriminate].
    intros [= <-]. apply Forall_app. split.
    + destruct (is_empty entries); constructor; [exact Hd | constructor].
    + apply (IH (replay entries remaining)); [|exact Enew].
      now rewrite keys_replay.
Qed.

Lemma In_all_entries (l : list HallAssignment) a kv :
  In a l -> In kv (allocations a) -> In kv (all_entries l).
Proof.
  intros Ha Hkv. unfold all_entries. apply in_concat.
  exists (allocations a). split; [now apply in_map | exact Hkv].
Qed.

Lemma subject_students_of_enrolled grps sis k :
  In k (keys (subject_students_of grps sis)) ->
  exists grp, In grp grps /\ In k (group_subjects grp).
Proof.
  rewrite subject_students_of_fold.
  assert (C : forall group acc,
             In k (keys (count_group sis acc group)) ->
             In k (group_subjects group) \/ In k (keys acc)).
  { intros group. unfold count_group.
    induction sis as [|x l IH]; intros acc; simpl; [tauto|].
    intros H. apply IH in H. destruct H as [H|H]; [tauto|].
    destruct (mem x (group_subjects group)) eqn:Em; [|tauto].
    apply In_keys_defaultdict_add in H. destruct H as [->|H]; [|tauto].
    left. now apply mem_In. }
  assert (G : forall gs acc,
             In k (keys (fold_left (count_group sis) gs acc)) ->
             (exists grp, In grp gs /\ In k (group_subjects grp))
             \/ In k (keys acc)).
  { induction gs as [|g gs IH]; intros acc; simpl; [tauto|].
    intros H. apply IH in H. destruct H as [(grp & Hg & Hk)|H].
    - left. exists grp. auto.
    - apply C in H. destruct H as [H|H]; [|tauto].
      left. exists g. auto. }
  intros H. apply G in H. destruct H as [H|[]]. exact H.
Qed.

(** X18. In any allocation that [allocate_halls] returns, for any
    timetable, a hall assignment lists no subject twice, and each of its
    subjects is one that the timetable examines in the slot of the
    assignment and that some group takes. *)
Theorem hall_entries_wellformed tt hc res :
  allocate_halls tt hc = Ok res ->
  Forall
    (fun a =>
       NoDup (map fst (allocations a))
       /\ forall k n, In (k, n) (allocations a) ->
                      In (mkExamSlot (ha_day a) (ha_slot a) k)
                         (assignments tt)
                      /\ exists grp, In grp (groups (tt_config tt))
                                     /\ In k (group_subjects grp))
    (hall_assignments res).
Proof.
  intros Hres. apply Forall_forall. intros a Ha.
  destruct (allocate_halls_ok _ _ Hres) as (Hloop & _ & _).
  destruct (allocate_loop_In _ _ _ _ Hloop Ha)
    as [[]|(d & s & sa & _ & Hsa & Hin)].
  pose proof (_allocate_slot_tags _ _ _ Hsa) as Htags.
  rewrite Forall_forall in Htags. destruct (Htags a Hin) as [Hd Hs].
  split.
  - unfold _allocate_slot in Hsa.
    destruct (is_empty (subjects_in_slot_of _ d s)).
    + inversion Hsa. subst sa. destruct Hin.
    + unfold _greedy_allocate in Hsa.
      pose proof (@greedy_loop_distinct _ d s _ _ sa
                    (subject_students_of_keys _ _) Hsa) as Hall.
      rewrite Forall_forall in Hall. now apply Hall.
  - intros k n Hkn.
    destruct (_allocate_slot_packed _ _ _ Hsa) as [final Hp].
    pose proof (packed_keys Hp) as Hkeys. rewrite Forall_forall in Hkeys.
    specialize (Hkeys (k, n) (In_all_entries _ _ _ Hin Hkn)).
    simpl in Hkeys. split.
    + apply subject_students_of_In in Hkeys.
      apply subjects_in_slot_of_In in Hkeys. now rewrite Hd, Hs.
    + exact (subject_students_of_enrolled _ _ _ Hkeys).
Qed.

Lemma hall_entries_wellformed_witness :
  Forall
    (fun a =>
       NoDup (map fst (allocations a))
       /\ forall k n, In (k, n) (allocations a) ->
                      In (mkExamSlot (ha_day a) (ha_slot a) k)
                         (assignments mixed_timetable)
                      /\ exists grp,
                           In grp (groups (tt_config mixed_timetable))
                           /\ In k (group_subjects grp))
    (hall_assignments mixed_result).
Proof.
  apply (@hall_entries_wellformed mixed_timetable two_halls mixed_result).
  reflexivity.
Defined.
